(** * Schoolyard-Canopies: the tile-ingestion pipeline
      of [buildings/clip_buildings_by_census_blocks.py]

    A shallow embedding of the streaming pipeline that clips building
    tiles by the census blocks that contain a school, and the properties
    of its ledger, tile processor, sink appender and ingestion loop.

    Conventions of the embedding.
    - Text is [string]; a character stands for a code point below 256.
    - The watched directory is a finite map from file names to what the
      pipeline observes of each file; the ledger file, the master
      GeoPackage and its temporary sibling are optional contents.
    - Python exceptions are values of [exn]; code runs in a state and
      exception monad [M] over [world], in which the effects made before
      a raise persist, as they do in Python.  Every [try]/[except] of
      the source is a [try_except] here, and the external calls it
      guards can fail: [stat], [ST_Read], the SRID query, fiona, the
      joins, the operations of the sink, [unlink], reading the ledger.
    - Geometry is the business of DuckDB spatial, fiona and pyproj: the
      geometry type and [ST_SRID], [ST_Transform], [ST_Intersects] are
      section variables, instantiated on integer boxes for the examples.
    - [regions] is the connection as start-up leaves it: per region the
      SRID returned by [load_census_once] and the polygons of its table.
    - stdout is a list of events, one per message that names a file or
      reports an outcome; [time.sleep] has no effect on the state.
    - Appending to the ledger has no handler in the source: a failure
      ends the loop and [main].  [_mark_processed], [handle_tile],
      [scan_cycle] and [main_loop] are the code with appends that
      succeed; [mark_processed_io], [handle_tile_io], [scan_cycle_io]
      and [main_loop_io] are the same code with the way each append ends
      given, and agree with them when every append succeeds. *)

From Stdlib Require Import ZArith Ascii String.
From stdpp Require Import gmap strings list sorting.


Local Open Scope Z_scope.

(** ** Text: lines and whitespace, as Python reads a text file *)

Module Text.

(** Line terminators of universal-newline reading. *)
Definition is_eol (c : ascii) : bool :=
  (c =? "010")%char || (c =? "013")%char.

(** [str.isspace] on code points below 256. *)
Definition isspace (c : ascii) : bool :=
  let n := nat_of_ascii c in
  ((9 <=? n) && (n <=? 13) || (28 <=? n) && (n <=? 32)
   || (n =? 133) || (n =? 160))%nat.

Fixpoint lstrip (s : string) : string :=
  match s with
  | EmptyString => EmptyString
  | String c s' => if isspace c then lstrip s' else s
  end.

Fixpoint rstrip (s : string) : string :=
  match s with
  | EmptyString => EmptyString
  | String c s' =>
      match rstrip s' with
      | EmptyString => if isspace c then EmptyString else String c EmptyString
      | r => String c r
      end
  end.

(** [ln.strip()] *)
Definition strip (s : string) : string := rstrip (lstrip s).

(** The segments between line terminators.  Iterating over a text file
    yields these segments with their terminator; a "\r\n" pair shows here
    as an extra empty segment.  Every use below strips each segment and
    drops the blank ones, which makes the two readings agree. *)
Fixpoint lines (s : string) : list string :=
  match s with
  | EmptyString => [EmptyString]
  | String c s' =>
      if is_eol c then EmptyString :: lines s'
      else match lines s' with
           | [] => [String c EmptyString]
           | l :: ls => String c l :: ls
           end
  end.

(** [{ln.strip() for ln in f if ln.strip()}], as a list. *)
Definition entries (text : string) : list string :=
  filter (λ l, l ≠ EmptyString) (strip <$> lines text).

(** [str.lower()] on the ASCII letters. *)
Definition lower_char (c : ascii) : ascii :=
  let n := nat_of_ascii c in
  if ((65 <=? n) && (n <=? 90))%nat then ascii_of_nat (n + 32) else c.

Fixpoint lower (s : string) : string :=
  match s with
  | EmptyString => EmptyString
  | String c s' => String (lower_char c) (lower s')
  end.

Fixpoint ends_with (suffix s : string) : bool :=
  String.eqb s suffix ||
  match s with
  | EmptyString => false
  | String _ s' => ends_with suffix s'
  end.

(** A string without line terminators. *)
Fixpoint one_line (s : string) : bool :=
  match s with
  | EmptyString => true
  | String c s' => negb (is_eol c) && one_line s'
  end.

(** A text that is empty or whose last character ends a line. *)
Fixpoint closed (s : string) : bool :=
  match s with
  | EmptyString => true
  | String c EmptyString => is_eol c
  | String _ s' => closed s'
  end.

End Text.

(** ** Exceptions and results *)

Inductive exn : Type :=
| OSError        (* the file system refuses an operation *)
| DuckDBError    (* a query fails *)
| TypeError      (* subscripting or converting [None] *)
| DriverError.   (* fiona, pyproj or the GeoPackage driver fails *)

Inductive result (A : Type) : Type :=
| Ok (a : A)
| Raise (e : exn).
Arguments Ok {A} a.
Arguments Raise {A} e.

Definition rbind {A B} (r : result A) (k : A → result B) : result B :=
  match r with
  | Ok a => k a
  | Raise e => Raise e
  end.

(** An external call that either yields a value or raises. *)
Definition call {A} (e : exn) (o : option A) : result A :=
  match o with
  | Some a => Ok a
  | None => Raise e
  end.

(** ** Configuration (the module-level constants) *)

Definition OUTPUT_CRS : Z := 4326.
Definition MIN_FILE_SIZE : Z := 1000.
Definition GEOM_ALIASES : list string :=
  ["geometry"; "geom"; "wkb_geometry"; "geom_wkb"; "shape"].

(** [_detect_geom_col]: the first column whose lower-cased name is one of
    the known aliases. *)
Definition _detect_geom_col (columns : list string) : option string :=
  List.find (λ col, bool_decide (Text.lower col ∈ GEOM_ALIASES)) columns.

(** The CRS metadata that [fiona.open(path).crs] reports. *)
Inductive crs_meta : Type :=
| CrsEmpty               (* a falsy crs *)
| CrsUnparsable          (* [CRS.from_user_input] raises *)
| CrsNoEpsg              (* [to_epsg()] is [None] *)
| CrsEpsg (code : Z).

(** [_get_srid_via_fiona]; [None] for the metadata when [fiona.open]
    raises. *)
Definition _get_srid_via_fiona (meta : option crs_meta) : option Z :=
  match meta with
  | None => None
  | Some CrsEmpty => None
  | Some CrsUnparsable => None
  | Some CrsNoEpsg => None
  | Some (CrsEpsg code) => Some code
  end.

(** The ledger file [PROCESSING_LOG]. *)
Record ledger_file : Type := {
  lf_readable : bool;    (* opening it for reading succeeds *)
  lf_text : string
}.

(** The names the ledger holds, as [_is_file_processed] reads them. *)
Definition ledger_names (lg : option ledger_file) : list string :=
  match lg with
  | None => []
  | Some lf => if lf_readable lf then Text.entries (lf_text lf) else []
  end.

Definition ledger_text (lg : option ledger_file) : string :=
  match lg with
  | None => EmptyString
  | Some lf => lf_text lf
  end.

(** The record [_mark_processed] writes for a name. *)
Definition ledger_record (name : string) : string :=
  name +:+ String "010" EmptyString.

Definition ledger_append (name : string) (lg : option ledger_file)
  : option ledger_file :=
  match lg with
  | None => Some {| lf_readable := true; lf_text := ledger_record name |}
  | Some lf => Some {| lf_readable := lf_readable lf;
                       lf_text := lf_text lf +:+ ledger_record name |}
  end.

(** What stdout receives. *)
Inductive event : Type :=
| EvProcessing (name : string)
| EvNoGeometryColumn
| EvNoSrid
| EvJoinFailed (region : string)
| EvRegionMatches (region : string) (n : nat)
| EvRegionNone (region : string)
| EvTileError
| EvStillDownloading (name : string)
| EvGeometryErrorKept
| EvNoMatches
| EvDeleted (name : string)
| EvCouldNotDelete (name : string)
| EvAppended (n total : nat)
| EvCreated (n : nat)
| EvWriteFailed
| EvProgress (processed errors : nat)
| EvIdle
| EvFound (n : nat).


(** The names of the tiles whose processing stdout reports. *)
Fixpoint processed_names (evs : list event) : list string :=
  match evs with
  | [] => []
  | EvProcessing name :: evs' => name :: processed_names evs'
  | _ :: evs' => processed_names evs'
  end.

(** A name that a line of the ledger can hold: not empty, no white space
    at either end, no line terminator inside. *)
Definition clean_name (name : string) : bool :=
  negb (String.eqb name EmptyString)
  && String.eqb (Text.strip name) name
  && Text.one_line name.

(** A ledger file that is absent, or can be read and is empty or ends
    with a line terminator. *)
Definition ledger_ok (lg : option ledger_file) : bool :=
  match lg with
  | None => true
  | Some lf => lf_readable lf && Text.closed (lf_text lf)
  end.

(** The ledger after [_mark_processed] ran for each name in turn. *)
Definition marks (names : list string) (lg : option ledger_file)
  : option ledger_file :=
  foldl (λ lg name, ledger_append name lg) lg names.

(** The text [_mark_processed] writes for the names in turn. *)
Definition ledger_records (names : list string) : string :=
  foldr (λ name rest, ledger_record name +:+ rest) EmptyString names.

(** ** Tile names ([buildings/identify_buildings.py]) *)

From Stdlib Require DecimalString DecimalNat QArith Qround.

Module Tiles.

Definition digit_of (c : ascii) : option nat :=
  let n := nat_of_ascii c in
  if ((48 <=? n) && (n <=? 57))%nat then Some (n - 48)%nat else None.

(** Decimal digits, with single underscores allowed between them. *)
Fixpoint parse_digits (acc : nat) (after_digit : bool) (s : string)
  : option nat :=
  match s with
  | EmptyString => if after_digit then Some acc else None
  | String c s' =>
      match digit_of c with
      | Some d => parse_digits (10 * acc + d) true s'
      | None =>
          if Ascii.eqb c "_" && after_digit
          then parse_digits acc false s'
          else None
      end
  end.

(** [int(s)] on a string: white space around, a sign, decimal digits;
    [None] for a [ValueError]. *)
Definition py_int (s : string) : option Z :=
  match Text.strip s with
  | EmptyString => None
  | String c r =>
      if Ascii.eqb c "-"
      then (λ n, - Z.of_nat n) <$> parse_digits 0 false r
      else if Ascii.eqb c "+"
      then Z.of_nat <$> parse_digits 0 false r
      else Z.of_nat <$> parse_digits 0 false (String c r)
  end.

Definition decimal (n : nat) : string :=
  DecimalString.NilZero.string_of_uint (Nat.to_uint n).

Fixpoint zeros (k : nat) : string :=
  match k with
  | O => EmptyString
  | S k' => String "0" (zeros k')
  end.

(** [format(z, "0<width>d")]: the sign, then zeros up to the width,
    then the digits. *)
Definition format_d (width : nat) (z : Z) : string :=
  let digits := decimal (Z.abs_nat z) in
  let sign := if z <? 0 then String "-" EmptyString else EmptyString in
  sign +:+ zeros (width - String.length sign - String.length digits)
       +:+ digits.

Definition get_tile_name (lat lon : Z) : string :=
  let tile_lat := (lat / 5) * 5 in
  let tile_lon := (lon / 5) * 5 in
  let lat_str := String "N" (format_d 2 tile_lat) in
  let lon_str := String "W" (format_d 3 (Z.abs tile_lon)) in
  lat_str +:+ String "_" lon_str.

(** [int(x)] on a finite float, taken as the rational number it is:
    truncation toward zero. *)
Definition int_of_float (x : QArith_base.Q) : Z :=
  Z.quot (QArith_base.Qnum x) (Z.pos (QArith_base.Qden x)).

(** [range(a, b)] *)
Definition range (a b : Z) : list Z := seqZ a (b - a).

(** [get_tiles_for_geometry], on the finite bounds of the geometry. *)
Definition get_tiles_for_geometry (minx miny maxx maxy : QArith_base.Q)
  : gset string :=
  let lats := range (int_of_float miny) (int_of_float maxy + 2) in
  let lons := range (int_of_float minx) (int_of_float maxx + 2) in
  foldl (λ tiles lat,
           foldl (λ tiles lon, {[ get_tile_name lat lon ]} ∪ tiles) tiles lons)
        ∅ lats.

(** The name [get_tile_name] gives to the 5-degree cell that holds a
    point: its floor divisions see a coordinate through its floor. *)
Definition tile_of_point (lat lon : QArith_base.Q) : string :=
  get_tile_name (Qround.Qfloor lat) (Qround.Qfloor lon).

(** A lower bound that is negative and no whole number, the whole
    number above it being a multiple of 5: [int] moves it onto the
    border of a tile. *)
Definition low_edge_cut (lo : QArith_base.Q) : bool :=
  (QArith_base.Qnum lo <? 0)
  && negb (QArith_base.Qnum lo mod Z.pos (QArith_base.Qden lo) =? 0)
  && (Qround.Qceiling lo mod 5 =? 0).

(** [s.split(sep)] for a separator of one character. *)
Fixpoint split_on (sep : ascii) (s : string) : list string :=
  match s with
  | EmptyString => [EmptyString]
  | String c s' =>
      if Ascii.eqb c sep then EmptyString :: split_on sep s'
      else match split_on sep s' with
           | [] => [String c EmptyString]
           | p :: ps => String c p :: ps
           end
  end.

(** [s[1:]] *)
Definition drop_first (s : string) : string :=
  match s with
  | EmptyString => EmptyString
  | String _ r => r
  end.

(** [tile_to_filename]; [None] when it raises: an [IndexError] for a
    name without underscore, a [ValueError] of [int]. *)
Definition tile_to_filename (tile_name : string) : option string :=
  match split_on "_" tile_name with
  | p0 :: p1 :: _ =>
      let lat_str := drop_first p0 in
      let lon_str := drop_first p1 in
      match py_int lat_str with
      | None => None
      | Some lat_south =>
          let lat_north := lat_south + 5 in
          match py_int lon_str with
          | None => None
          | Some lon_west =>
              let lon_east := lon_west - 5 in
              Some (String "w" (format_d 3 lon_west)
                    +:+ String "_" (String "n" (format_d 2 lat_north))
                    +:+ String "_" (String "w" (format_d 3 lon_east))
                    +:+ String "_" (String "n" (format_d 2 lat_south)))
          end
      end
  | _ => None
  end.

(** Every character of the string satisfies the test. *)
Fixpoint all_chars (p : ascii → bool) (s : string) : bool :=
  match s with
  | EmptyString => true
  | String c s' => p c && all_chars p s'
  end.

Definition is_digit (c : ascii) : bool :=
  match digit_of c with Some _ => true | None => false end.

End Tiles.

(** ** The pipeline, over the geometry of the spatial engine *)

Section Pipeline.

(** The attribute columns of a building, and the geometry values. *)
Context {attrs geometry : Type}.
(** [ST_SRID]; [None] when the value cannot be converted by [int]. *)
Variable ST_SRID : geometry → option Z.
(** [ST_Transform(g, 'EPSG:from', 'EPSG:to')]; [None] when it raises. *)
Variable ST_Transform : geometry → Z → Z → option geometry.
Variable ST_Intersects : geometry → geometry → bool.

Record building : Type := { b_attrs : attrs; b_geom : geometry }.

(** A row of the result: the building's columns without its geometry,
    and the geometry in [OUTPUT_CRS]. *)
Record row : Type := { r_attrs : attrs; r_geometry : geometry }.

(** The table [ST_Read] makes of a tile. *)
Record table : Type := { tb_columns : list string; tb_rows : list building }.

(** A file of the watched directory, as the pipeline observes it. *)
Record file : Type := {
  f_size1 : option Z;         (* [st_size] before the wait; [None]: [stat] raises *)
  f_size2 : option Z;         (* [st_size] after the wait *)
  f_read : option table;      (* [ST_Read]; [None]: it raises *)
  f_crs : option crs_meta;    (* [fiona.open(..).crs]; [None]: it raises *)
  f_removable : bool          (* [unlink] succeeds *)
}.

(** The connection after start-up: per region the SRID that
    [load_census_once] returned and the polygons of its table. *)
Record regions : Type := {
  us_srid : option Z;
  census_us : list geometry;
  canada_srid : option Z;
  census_canada : list geometry
}.

Record world : Type := {
  w_dir : gmap string file;          (* BUILDING_DIR *)
  w_ledger : option ledger_file;     (* PROCESSING_LOG *)
  w_master : option (list row);      (* OUTPUT_GPKG, layer "buildings" *)
  w_tmp : option (list row);         (* its _tmp.gpkg sibling *)
  w_stdout : list event;
  processed_count : nat;
  error_count : nat
}.

(** *** The monad *)

Definition M (A : Type) : Type := world → world * result A.

Definition ret {A} (a : A) : M A := λ w, (w, Ok a).
Definition raise {A} (e : exn) : M A := λ w, (w, Raise e).
Definition bind {A B} (m : M A) (k : A → M B) : M B :=
  λ w, match m w with
       | (w', Ok a) => k a w'
       | (w', Raise e) => (w', Raise e)
       end.
Definition try_except {A} (body : M A) (handler : exn → M A) : M A :=
  λ w, match body w with
       | (w', Ok a) => (w', Ok a)
       | (w', Raise e) => handler e w'
       end.
Definition get : M world := λ w, (w, Ok w).
Definition modify (f : world → world) : M unit := λ w, (f w, Ok tt).
Definition lift {A} (r : result A) : M A := λ w, (w, r).

Notation "'let*' x ':=' m 'in' k" := (bind m (λ x, k))
  (at level 10, x name, m at level 100, k at level 200).
Notation "m ;; k" := (bind m (λ _, k))
  (at level 100, right associativity).

Fixpoint for_each {A} (l : list A) (body : A → M unit) : M unit :=
  match l with
  | [] => ret tt
  | x :: l' => body x ;; for_each l' body
  end.

Definition set_dir (d : gmap string file) (w : world) : world :=
  {| w_dir := d; w_ledger := w_ledger w; w_master := w_master w;
     w_tmp := w_tmp w; w_stdout := w_stdout w;
     processed_count := processed_count w; error_count := error_count w |}.
Definition set_ledger (lg : option ledger_file) (w : world) : world :=
  {| w_dir := w_dir w; w_ledger := lg; w_master := w_master w;
     w_tmp := w_tmp w; w_stdout := w_stdout w;
     processed_count := processed_count w; error_count := error_count w |}.
Definition set_master (m : option (list row)) (w : world) : world :=
  {| w_dir := w_dir w; w_ledger := w_ledger w; w_master := m;
     w_tmp := w_tmp w; w_stdout := w_stdout w;
     processed_count := processed_count w; error_count := error_count w |}.
Definition set_tmp (t : option (list row)) (w : world) : world :=
  {| w_dir := w_dir w; w_ledger := w_ledger w; w_master := w_master w;
     w_tmp := t; w_stdout := w_stdout w;
     processed_count := processed_count w; error_count := error_count w |}.
Definition set_stdout (o : list event) (w : world) : world :=
  {| w_dir := w_dir w; w_ledger := w_ledger w; w_master := w_master w;
     w_tmp := w_tmp w; w_stdout := o;
     processed_count := processed_count w; error_count := error_count w |}.
Definition set_counts (p e : nat) (w : world) : world :=
  {| w_dir := w_dir w; w_ledger := w_ledger w; w_master := w_master w;
     w_tmp := w_tmp w; w_stdout := w_stdout w;
     processed_count := p; error_count := e |}.

(** [print] *)
Definition print (ev : event) : M unit :=
  modify (λ w, set_stdout (w_stdout w ++ [ev]) w).

(** *** The processing ledger *)

Definition is_file_processed (name : string) (w : world) : bool :=
  bool_decide (name ∈ ledger_names (w_ledger w)).

(** [_is_file_processed]: false when the file is missing or cannot be
    read, else membership among the stripped, non-blank lines. *)
Definition _is_file_processed (name : string) : M bool :=
  let* w := get in ret (is_file_processed name w).

(** [_mark_processed]: append the name and a newline.  This is the call
    that returns; [mark_processed_io] below has the one that raises. *)
Definition _mark_processed (name : string) : M unit :=
  modify (λ w, set_ledger (ledger_append name (w_ledger w)) w).

(** *** The stability detector *)

(** [p.stat()] *)
Definition stat (name : string) : M file :=
  let* w := get in lift (call OSError (w_dir w !! name)).

Definition _is_stable (name : string) : M bool :=
  try_except
    (let* f := stat name in
     let* size1 := lift (call OSError (f_size1 f)) in
     let* size2 := lift (call OSError (f_size2 f)) in
     ret ((size1 =? size2) && (MIN_FILE_SIZE <=? size2)))
    (λ _, ret false).

(** *** The tile processor *)

Inductive tile_result : Type :=
| GEOM_ERROR                   (* the sentinel object *)
| NoMatches                    (* [None] *)
| Matched (gdf : list row).    (* a GeoDataFrame *)

(** [SELECT ST_SRID(geom) FROM buildings_tmp LIMIT 1], [fetchone()[0]]
    and [int]: raises on an empty table and on a value [int] refuses. *)
Definition query_srid (tb : table) : result Z :=
  match tb_rows tb with
  | [] => Raise TypeError
  | b :: _ => call TypeError (ST_SRID (b_geom b))
  end.

(** The join condition
    [ST_Intersects(ST_Transform(b.geom, b_srid, r_srid), c.geom)]. *)
Definition on_clause (b_srid r_srid : Z) (b : building) (c : geometry)
  : result bool :=
  rbind (call DuckDBError (ST_Transform (b_geom b) b_srid r_srid))
        (λ g, Ok (ST_Intersects g c)).

(** The select list: [b.* EXCLUDE geom] and the geometry in
    [OUTPUT_CRS]. *)
Definition select_row (b_srid : Z) (b : building) : result row :=
  rbind (call DuckDBError (ST_Transform (b_geom b) b_srid OUTPUT_CRS))
        (λ g, Ok {| r_attrs := b_attrs b; r_geometry := g |}).

(** The rows one building gives against the polygons of a region: one
    per polygon satisfying the join condition. *)
Fixpoint join_building (b_srid r_srid : Z) (b : building)
    (census : list geometry) : result (list row) :=
  match census with
  | [] => Ok []
  | c :: census' =>
      rbind (on_clause b_srid r_srid b c) (λ hit,
      rbind (join_building b_srid r_srid b census') (λ rest,
      if hit : bool
      then rbind (select_row b_srid b) (λ r, Ok (r :: rest))
      else Ok rest))
  end.

(** The inner join of the tile with a region.  An error anywhere fails
    the query. *)
Fixpoint join_sql (b_srid r_srid : Z) (bs : list building)
    (census : list geometry) : result (list row) :=
  match bs with
  | [] => Ok []
  | b :: bs' =>
      rbind (join_building b_srid r_srid b census) (λ rows,
      rbind (join_sql b_srid r_srid bs' census) (λ rest,
      Ok (rows ++ rest)))
  end.

(** One of the two "TRY ... CENSUS" blocks: skipped when the region did
    not load; a failing join is printed and swallowed. *)
Definition try_census (region : string) (r_srid : option Z)
    (census : list geometry) (tb : table) (b_srid : Z)
    (results : list (list row)) : M (list (list row)) :=
  match r_srid with
  | None => ret results
  | Some s =>
      try_except
        (let* df := lift (join_sql b_srid s (tb_rows tb) census) in
         if (0 <? length df)%nat
         then print (EvRegionMatches region (length df)) ;;
              ret (results ++ [df])
         else print (EvRegionNone region) ;; ret results)
        (λ _, print (EvJoinFailed region) ;; ret results)
  end.

(** [process_tile], from the joins on. *)
Definition join_regions (rg : regions) (tb : table) (b_srid : Z)
  : M tile_result :=
  let* results := try_census "US" (us_srid rg) (census_us rg) tb b_srid [] in
  let* results := try_census "Canada" (canada_srid rg) (census_canada rg)
                    tb b_srid results in
  match results with
  | [] => print EvNoMatches ;; ret NoMatches
  | _ => ret (Matched (concat results))
  end.

Definition process_tile (rg : regions) (name : string) : M tile_result :=
  try_except
    (let* f := stat name in
     print (EvProcessing name) ;;
     let* tb := lift (call DuckDBError (f_read f)) in
     match _detect_geom_col (tb_columns tb) with
     | None => print EvNoGeometryColumn ;; ret GEOM_ERROR
     | Some _ =>
         match query_srid tb with
         | Ok b_srid => join_regions rg tb b_srid
         | Raise _ =>
             match _get_srid_via_fiona (f_crs f) with
             | None => print EvNoSrid ;; ret GEOM_ERROR
             | Some b_srid => join_regions rg tb b_srid
             end
         end
     end)
    (λ _, print EvTileError ;; ret GEOM_ERROR).

(** *** The sink appender *)

(** How a write of the GeoPackage driver ends. *)
Inductive write_outcome : Type :=
| Written
| WriteFails (residue : option (list row)).   (* what stays at the path *)

(** What the file system answers during one call of [append_to_gpkg]. *)
Record sink_io : Type := {
  io_mkdir : bool;
  io_read : bool;
  io_write : write_outcome;
  io_replace : bool
}.

Definition mkdir (io : sink_io) : M unit :=
  if io_mkdir io then ret tt else raise OSError.

(** [gpd.read_file(output_path, layer="buildings")] *)
Definition read_file (io : sink_io) : M (list row) :=
  let* w := get in
  match w_master w with
  | Some rows => if io_read io then ret rows else raise DriverError
  | None => raise DriverError
  end.

(** [to_file] on a path, given as the setter of its content. *)
Definition to_file (io : sink_io)
    (set : option (list row) → world → world) (rows : list row) : M unit :=
  match io_write io with
  | Written => modify (set (Some rows))
  | WriteFails residue => modify (set residue) ;; raise DriverError
  end.

(** [os.replace(tmp_path, output_path)] *)
Definition os_replace (io : sink_io) : M unit :=
  let* w := get in
  match w_tmp w with
  | Some rows =>
      if io_replace io
      then modify (λ w, set_tmp None (set_master (Some rows) w))
      else raise OSError
  | None => raise OSError
  end.

Definition append_to_gpkg (io : sink_io) (gdf : list row) : M unit :=
  try_except
    (mkdir io ;;
     let* w := get in
     match w_master w with
     | Some _ =>
         let* existing := read_file io in
         let combined := existing ++ gdf in
         to_file io set_tmp combined ;;
         os_replace io ;;
         print (EvAppended (length gdf) (length combined))
     | None =>
         to_file io set_master gdf ;;
         print (EvCreated (length gdf))
     end)
    (λ _, print EvWriteFailed).

(** *** The ingestion loop *)

(** [tile_path.unlink()] with its handler. *)
Definition unlink (name : string) : M unit :=
  try_except
    (let* f := stat name in
     if f_removable f
     then modify (λ w, set_dir (delete name (w_dir w)) w) ;;
          print (EvDeleted name)
     else raise OSError)
    (λ _, print (EvCouldNotDelete name)).

Definition count_processed : M unit :=
  modify (λ w, set_counts (S (processed_count w)) (error_count w) w).
Definition count_error : M unit :=
  modify (λ w, set_counts (processed_count w) (S (error_count w)) w).
Definition print_progress : M unit :=
  let* w := get in print (EvProgress (processed_count w) (error_count w)).

(** The body of [for tile_path in unprocessed]. *)
Definition handle_tile (sink : string → sink_io) (rg : regions)
    (name : string) : M unit :=
  let* stable := _is_stable name in
  if negb stable then print (EvStillDownloading name)
  else
    let* result := process_tile rg name in
    match result with
    | GEOM_ERROR =>
        print EvGeometryErrorKept ;;
        _mark_processed name ;;
        count_error
    | NoMatches =>
        _mark_processed name ;;
        count_processed ;;
        unlink name ;;
        print_progress
    | Matched gdf =>
        append_to_gpkg (sink name) gdf ;;
        _mark_processed name ;;
        count_processed ;;
        unlink name ;;
        print_progress
    end.

(** [sorted(BUILDING_DIR.glob("*.geojson"))], as names, in the
    lexicographic order [String.le] of the code points. *)
Definition glob_geojson (d : gmap string file) : list string :=
  merge_sort String.le
    (filter (λ n, Text.ends_with ".geojson" n = true) (elements (dom d))).

(** [[f for f in files if not _is_file_processed(f.name)]] *)
Definition unprocessed_files (w : world) : list string :=
  filter (λ n, is_file_processed n w = false) (glob_geojson (w_dir w)).

(** One turn of [while True]. *)
Definition scan_cycle (sink : string → sink_io) (rg : regions) : M unit :=
  let* w := get in
  let unprocessed := unprocessed_files w in
  match unprocessed with
  | [] => print EvIdle
  | _ => print (EvFound (length unprocessed)) ;;
         for_each unprocessed (handle_tile sink rg)
  end.

(** What happens around one turn: the downloader changes the watched
    directory, and the file system answers the sink. *)
Record turn : Type := {
  tn_download : gmap string file → gmap string file;
  tn_sink : string → sink_io
}.

(** The loop of [main], for the turns given. *)
Fixpoint main_loop (rg : regions) (turns : list turn) : M unit :=
  match turns with
  | [] => ret tt
  | t :: turns' =>
      modify (λ w, set_dir (tn_download t (w_dir w)) w) ;;
      scan_cycle (tn_sink t) rg ;;
      main_loop rg turns'
  end.

(** A restart: a new process finds the files as they are. *)
Definition restart (w : world) : world :=
  set_counts 0 0 (set_stdout [] w).

Definition run {A} (m : M A) (w : world) : world := fst (m w).
Definition outcome {A} (m : M A) (w : world) : result A := snd (m w).

(** *** Predicates used to state the properties *)

(** The tile is loaded, has a geometry column, and [b_srid] is the SRID
    that [process_tile] detects for it. *)
Definition reaches_joins (f : file) (tb : table) (b_srid : Z) : Prop :=
  f_read f = Some tb
  ∧ is_Some (_detect_geom_col (tb_columns tb))
  ∧ (query_srid tb = Ok b_srid
     ∨ ((∃ e, query_srid tb = Raise e)
        ∧ _get_srid_via_fiona (f_crs f) = Some b_srid)).

(** No feature of the table intersects a polygon of the region. *)
Definition no_intersection (b_srid : Z) (tb : table)
    (r_srid : option Z) (census : list geometry) : Prop :=
  ∀ s b g c, r_srid = Some s → b ∈ tb_rows tb → c ∈ census →
    ST_Transform (b_geom b) b_srid s = Some g → ST_Intersects g c = false.

(** Every operation of the sink succeeds. *)
Definition io_ok (io : sink_io) : Prop :=
  io_mkdir io = true ∧ io_read io = true ∧ io_write io = Written
  ∧ io_replace io = true.

(** A computation that only prints [evs] and returns [a]. *)
Definition emits {A} (m : M A) (evs : list event) (a : A) : Prop :=
  ∀ w, m w = (set_stdout (w_stdout w ++ evs) w, Ok a).

(** The frames one "TRY ... CENSUS" block adds to [results]. *)
Definition census_frames (r_srid : option Z) (census : list geometry)
    (tb : table) (b_srid : Z) : list (list row) :=
  match r_srid with
  | None => []
  | Some s =>
      match join_sql b_srid s (tb_rows tb) census with
      | Ok df => if (0 <? length df)%nat then [df] else []
      | Raise _ => []
      end
  end.

(** What [process_tile] returns once the SRID is known. *)
Definition joined (rg : regions) (tb : table) (b_srid : Z) : tile_result :=
  match census_frames (us_srid rg) (census_us rg) tb b_srid
        ++ census_frames (canada_srid rg) (census_canada rg) tb b_srid with
  | [] => NoMatches
  | frames => Matched (concat frames)
  end.

(** The region, taken as not loaded. *)
Definition without_us (rg : regions) : regions :=
  {| us_srid := None; census_us := census_us rg;
     canada_srid := canada_srid rg; census_canada := census_canada rg |}.
Definition without_canada (rg : regions) : regions :=
  {| us_srid := us_srid rg; census_us := census_us rg;
     canada_srid := None; census_canada := census_canada rg |}.

(** The answer of [_is_stable]. *)
Definition stable_now (name : string) (w : world) : bool :=
  match outcome (_is_stable name) w with
  | Ok b => b
  | Raise _ => false
  end.

(** The watched directory after the loop body ran for a tile: the file
    is removed when it is stable, its result is not [GEOM_ERROR] and
    [unlink] succeeds. *)
Definition dir_after (rg : regions) (name : string) (w : world)
  : gmap string file :=
  if stable_now name w then
    match outcome (process_tile rg name) w, w_dir w !! name with
    | Ok GEOM_ERROR, _ => w_dir w
    | Ok _, Some f => if f_removable f then delete name (w_dir w) else w_dir w
    | _, _ => w_dir w
    end
  else w_dir w.

(** A directory all of whose names are clean, and a turn whose
    downloader keeps it so. *)
Definition clean_dir (d : gmap string file) : Prop :=
  ∀ n, is_Some (d !! n) → clean_name n = true.
Definition clean_turn (t : turn) : Prop :=
  ∀ d, clean_dir d → clean_dir (tn_download t d).

(** What the loop maintains from a start with the ledger [lg0]: the
    tiles it reports to process are distinct, are in the ledger, and
    were not in it at the start; the ledger keeps its names. *)
Definition loop_invariant (lg0 : option ledger_file) (w : world) : Prop :=
  ledger_ok (w_ledger w) = true
  ∧ NoDup (processed_names (w_stdout w))
  ∧ (∀ m, m ∈ processed_names (w_stdout w) →
       m ∈ ledger_names (w_ledger w) ∧ m ∉ ledger_names lg0)
  ∧ (∀ x, x ∈ ledger_names lg0 → x ∈ ledger_names (w_ledger w))
  ∧ clean_dir (w_dir w).

(** *** Start-up *)

(** The table [ST_Read] makes of a census file. *)
Record census_table : Type := {
  ct_columns : list string;
  ct_polygons : list geometry
}.

(** A census file, as [load_census_once] observes it. *)
Record census_file : Type := {
  cf_read : option census_table;   (* [ST_Read]; [None]: it raises *)
  cf_crs : option crs_meta         (* [fiona.open(..).crs]; [None]: it raises *)
}.

(** [load_census_once]: the SRID it returns and the polygons of the
    table it leaves in the connection; [None] for a file that does not
    exist.  The table is created before the geometry column and the SRID
    are looked for, and stays when they are not found. *)
Definition load_census_once (cf : option census_file)
  : option Z * list geometry :=
  match cf with
  | None => (None, [])
  | Some f =>
      match rbind (call DuckDBError (cf_read f)) (λ t,
              Ok (match _detect_geom_col (ct_columns t) with
                  | None => (None, ct_polygons t)
                  | Some _ => (_get_srid_via_fiona (cf_crs f), ct_polygons t)
                  end)) with
      | Ok r => r
      | Raise _ => (None, [])
      end
  end.

(** How loading the spatial extension goes. *)
Record spatial_ext : Type := {
  ext_install : bool;      (* [INSTALL spatial] succeeds *)
  ext_load : bool;         (* [LOAD spatial] after it succeeds *)
  ext_load_again : bool    (* [LOAD spatial] in the handler succeeds *)
}.

Definition spatial_loaded (ext : spatial_ext) : bool :=
  ext_install ext && ext_load ext || ext_load_again ext.

(** The regions [main] works with after loading both census files. *)
Definition loaded_regions (us ca : option census_file) : regions :=
  {| us_srid := fst (load_census_once us);
     census_us := snd (load_census_once us);
     canada_srid := fst (load_census_once ca);
     census_canada := snd (load_census_once ca) |}.

(** [main], for the turns given.  It returns at once when the spatial
    extension cannot be loaded or neither census file gives an SRID.
    The messages of start-up are left out of stdout. *)
Definition main (ext : spatial_ext) (us ca : option census_file)
    (turns : list turn) : M unit :=
  if negb (spatial_loaded ext) then ret tt
  else
    let rg := loaded_regions us ca in
    match us_srid rg, canada_srid rg with
    | None, None => ret tt
    | _, _ => main_loop rg turns
    end.

(** *** The append to the ledger, when it can fail *)

(** How [_mark_processed] ends.  Its [mkdir], [open] and [write] have no
    handler in the source: an error there leaves the loop and [main].
    [part] is what reached the file before the error; [None] when the
    file was not touched. *)
Inductive mark_outcome : Type :=
| Marked
| MarkFails (part : option string).

(** The ledger file after [part] was written at its end. *)
Definition ledger_write (part : string) (lg : option ledger_file)
  : option ledger_file :=
  match lg with
  | None => Some {| lf_readable := true; lf_text := part |}
  | Some lf => Some {| lf_readable := lf_readable lf;
                       lf_text := lf_text lf +:+ part |}
  end.

(** [_mark_processed], with the way it ends given. *)
Definition mark_processed_io (mo : mark_outcome) (name : string) : M unit :=
  match mo with
  | Marked => _mark_processed name
  | MarkFails None => raise OSError
  | MarkFails (Some part) =>
      modify (λ w, set_ledger (ledger_write part (w_ledger w)) w) ;;
      raise OSError
  end.

(** The body of [for tile_path in unprocessed], one turn of
    [while True] and the loop of [main], with the way each append to
    the ledger ends given per tile. *)
Definition handle_tile_io (marking : string → mark_outcome)
    (sink : string → sink_io) (rg : regions) (name : string) : M unit :=
  let* stable := _is_stable name in
  if negb stable then print (EvStillDownloading name)
  else
    let* result := process_tile rg name in
    match result with
    | GEOM_ERROR =>
        print EvGeometryErrorKept ;;
        mark_processed_io (marking name) name ;;
        count_error
    | NoMatches =>
        mark_processed_io (marking name) name ;;
        count_processed ;;
        unlink name ;;
        print_progress
    | Matched gdf =>
        append_to_gpkg (sink name) gdf ;;
        mark_processed_io (marking name) name ;;
        count_processed ;;
        unlink name ;;
        print_progress
    end.

Definition scan_cycle_io (marking : string → mark_outcome)
    (sink : string → sink_io) (rg : regions) : M unit :=
  let* w := get in
  let unprocessed := unprocessed_files w in
  match unprocessed with
  | [] => print EvIdle
  | _ => print (EvFound (length unprocessed)) ;;
         for_each unprocessed (handle_tile_io marking sink rg)
  end.

Fixpoint main_loop_io (rg : regions)
    (turns : list (turn * (string → mark_outcome))) : M unit :=
  match turns with
  | [] => ret tt
  | (t, marking) :: turns' =>
      modify (λ w, set_dir (tn_download t (w_dir w)) w) ;;
      scan_cycle_io marking (tn_sink t) rg ;;
      main_loop_io rg turns'
  end.

(** Every append to the ledger that the turn makes succeeds: the
    candidates that are stable are the ones marked. *)
Definition is_marked (mo : mark_outcome) : bool :=
  match mo with
  | Marked => true
  | MarkFails _ => false
  end.
Definition marks_succeed (marking : string → mark_outcome) (l : list string)
    (w : world) : bool :=
  forallb (λ m, negb (stable_now m w) || is_marked (marking m)) l.

(** *** More predicates used to state the properties *)

(** The rows of an output that may not exist. *)
Definition master_rows (m : option (list row)) : list row :=
  match m with
  | Some rows => rows
  | None => []
  end.

(** The rows a tile gives when [process_tile] runs on it. *)
Definition matched_rows (rg : regions) (name : string) (w : world)
  : list row :=
  match outcome (process_tile rg name) w with
  | Ok (Matched gdf) => gdf
  | _ => []
  end.

(** A tile that [process_tile] answers with [GEOM_ERROR]. *)
Definition is_geom_error (rg : regions) (name : string) (w : world) : bool :=
  match outcome (process_tile rg name) w with
  | Ok GEOM_ERROR => true
  | _ => false
  end.

(** Every operation of the sink succeeds, for every tile. *)
Definition sinks_ok (sink : string → sink_io) : Prop :=
  ∀ name, io_ok (sink name).

End Pipeline.

(** ** An instance for the examples: integer boxes *)

Module Boxes.

(** An axis-parallel box with the SRID its value carries. *)
Record box : Type := {
  tag : option Z;
  xmin : Z; ymin : Z; xmax : Z; ymax : Z
}.

Definition srid_of (g : box) : option Z := tag g.

(** All known systems share their coordinates here; code 0 is unknown. *)
Definition transform (g : box) (from to : Z) : option box :=
  if (0 <? from) && (0 <? to)
  then Some {| tag := Some to; xmin := xmin g; ymin := ymin g;
               xmax := xmax g; ymax := ymax g |}
  else None.

(** Touching boxes intersect. *)
Definition intersects (a b : box) : bool :=
  (xmin a <=? xmax b) && (xmin b <=? xmax a)
  && (ymin a <=? ymax b) && (ymin b <=? ymax a).

Definition square (s : option Z) (x y side : Z) : box :=
  {| tag := s; xmin := x; ymin := y; xmax := x + side; ymax := y + side |}.

Definition house (id : string) (s : option Z) (x y : Z) : @building string box :=
  {| b_attrs := id; b_geom := square s x y 1 |}.

Definition tile_file (columns : list string) (rows : list (@building string box))
    (crs : option crs_meta) : @file string box :=
  {| f_size1 := Some 5000; f_size2 := Some 5000;
     f_read := Some {| tb_columns := columns; tb_rows := rows |};
     f_crs := crs; f_removable := true |}.

(** Two census blocks of the United States that share the edge x = 10,
    and one block of Canada far away. *)
Definition rg : @regions box :=
  {| us_srid := Some 5070;
     census_us := [square (Some 5070) 0 0 10; square (Some 5070) 10 0 10];
     canada_srid := Some 3347;
     census_canada := [square (Some 3347) 0 100 10] |}.

Definition empty_world (d : gmap string (@file string box)) : @world string box :=
  {| w_dir := d; w_ledger := None; w_master := None; w_tmp := None;
     w_stdout := []; processed_count := 0; error_count := 0 |}.

Definition sink_ok : sink_io (attrs:=string) (geometry:=box) :=
  {| io_mkdir := true; io_read := true; io_write := Written;
     io_replace := true |}.

Definition sink_write_fails : sink_io (attrs:=string) (geometry:=box) :=
  {| io_mkdir := true; io_read := true; io_write := WriteFails None;
     io_replace := true |}.

Definition process := process_tile (attrs:=string) srid_of transform intersects.
Definition cycle := scan_cycle (attrs:=string) srid_of transform intersects.
Definition loop := main_loop (attrs:=string) srid_of transform intersects.

(** The geometry of a building, carried into another system. *)
Definition moved (to : Z) (b : @building string box) : box :=
  {| tag := Some to; xmin := xmin (b_geom b); ymin := ymin (b_geom b);
     xmax := xmax (b_geom b); ymax := ymax (b_geom b) |}.

Definition out_row (b : @building string box) : @row string box :=
  {| r_attrs := b_attrs b; r_geometry := moved OUTPUT_CRS b |}.

(** A tile with one building across the shared edge of the two blocks
    of the United States. *)
Definition on_the_edge := house "b1" (Some 4326) 9 5.
Definition tb_edge : @table string box :=
  {| tb_columns := ["id"; "geom"]; tb_rows := [on_the_edge] |}.
Definition tile_edge : @file string box :=
  tile_file ["id"; "geom"] [on_the_edge] (Some (CrsEpsg 4326)).
Definition world_edge := empty_world {["t1.geojson" := tile_edge]}.

(** A tile with one building far from every block. *)
Definition far_away := house "b2" (Some 4326) 50 50.
Definition tb_far : @table string box :=
  {| tb_columns := ["id"; "geom"]; tb_rows := [far_away] |}.
Definition tile_far : @file string box :=
  tile_file ["id"; "geom"] [far_away] (Some (CrsEpsg 4326)).
Definition world_far := empty_world {["t2.geojson" := tile_far]}.

(** The same building, in a tile whose geometries carry no SRID and
    whose CRS has no EPSG code. *)
Definition far_untagged := house "b2" None 50 50.
Definition tb_untagged : @table string box :=
  {| tb_columns := ["id"; "geom"]; tb_rows := [far_untagged] |}.
Definition tile_untagged : @file string box :=
  tile_file ["id"; "geom"] [far_untagged] (Some CrsNoEpsg).
Definition world_untagged := empty_world {["t3.geojson" := tile_untagged]}.

(** A tile whose table has no column named as a geometry. *)
Definition tb_no_column : @table string box :=
  {| tb_columns := ["id"; "footprint"]; tb_rows := [on_the_edge] |}.
Definition tile_no_column : @file string box :=
  tile_file ["id"; "footprint"] [on_the_edge] (Some (CrsEpsg 4326)).
Definition world_no_column := empty_world {["t4.geojson" := tile_no_column]}.

(** A tile with one building in the block of Canada, and regions whose
    United States table has the unknown SRID 0. *)
Definition up_north := house "b3" (Some 4326) 5 105.
Definition tb_north : @table string box :=
  {| tb_columns := ["id"; "geom"]; tb_rows := [up_north] |}.
Definition tile_north : @file string box :=
  tile_file ["id"; "geom"] [up_north] (Some (CrsEpsg 4326)).
Definition world_north := empty_world {["t5.geojson" := tile_north]}.
Definition rg_us_unknown : @regions box :=
  {| us_srid := Some 0; census_us := census_us rg;
     canada_srid := canada_srid rg; census_canada := census_canada rg |}.

(** A world whose ledger holds the name of its only tile. *)
Definition world_done : @world string box :=
  {| w_dir := {["t1.geojson" := tile_edge]};
     w_ledger := Some {| lf_readable := true;
                         lf_text := ledger_record "t1.geojson" |};
     w_master := None; w_tmp := None; w_stdout := [];
     processed_count := 0; error_count := 0 |}.

(** A world with an output of one row. *)
Definition world_output : @world string box :=
  {| w_dir := ∅; w_ledger := None;
     w_master := Some [out_row far_away]; w_tmp := None; w_stdout := [];
     processed_count := 0; error_count := 0 |}.

(** Two turns: the tile is there at the first, and the downloader puts
    it back before the second. *)
Definition turn_idle : @turn string box :=
  {| tn_download := λ d, d; tn_sink := λ _, sink_ok |}.
Definition turn_again : @turn string box :=
  {| tn_download := λ _, {["t1.geojson" := tile_edge]};
     tn_sink := λ _, sink_ok |}.

(** A tile still being written: its size grows during the wait. *)
Definition tile_growing : @file string box :=
  {| f_size1 := Some 5000; f_size2 := Some 6000;
     f_read := Some tb_edge; f_crs := Some (CrsEpsg 4326);
     f_removable := true |}.
Definition world_growing := empty_world {["t6.geojson" := tile_growing]}.

(** A tile without features. *)
Definition tb_empty : @table string box :=
  {| tb_columns := ["id"; "geom"]; tb_rows := [] |}.
Definition tile_empty : @file string box :=
  tile_file ["id"; "geom"] [] (Some (CrsEpsg 4326)).
Definition world_empty_tile := empty_world {["t7.geojson" := tile_empty]}.

(** Regions whose tables both have the unknown SRID 0. *)
Definition rg_unknown : @regions box :=
  {| us_srid := Some 0; census_us := census_us rg;
     canada_srid := Some 0; census_canada := census_canada rg |}.

(** Regions that overlap along a border, and a tile with a building in
    the United States only, one in Canada only and one across the
    border. *)
Definition rg_border : @regions box :=
  {| us_srid := Some 5070; census_us := [square (Some 5070) 0 0 10];
     canada_srid := Some 3347; census_canada := [square (Some 3347) 8 0 10] |}.
Definition south_house := house "s" (Some 4326) 2 2.
Definition north_house := house "n" (Some 4326) 15 2.
Definition border_house := house "sn" (Some 4326) 8 2.
Definition tb_border : @table string box :=
  {| tb_columns := ["id"; "geom"];
     tb_rows := [south_house; north_house; border_house] |}.
Definition tile_border : @file string box :=
  tile_file ["id"; "geom"] [south_house; north_house; border_house]
    (Some (CrsEpsg 4326)).
Definition world_border := empty_world {["t8.geojson" := tile_border]}.

(** The tile at the edge, beside an output of one row. *)
Definition world_edge_output : @world string box :=
  {| w_dir := {["t1.geojson" := tile_edge]}; w_ledger := None;
     w_master := Some [out_row far_away]; w_tmp := None; w_stdout := [];
     processed_count := 0; error_count := 0 |}.

(** Census files: one that loads, one whose CRS has no EPSG code. *)
Definition census_us_file : @census_file box :=
  {| cf_read := Some {| ct_columns := ["GEOID"; "geom"];
                        ct_polygons := census_us rg |};
     cf_crs := Some (CrsEpsg 5070) |}.
Definition census_without_epsg : @census_file box :=
  {| cf_read := Some {| ct_columns := ["DBUID"; "geom"];
                        ct_polygons := census_canada rg |};
     cf_crs := Some CrsNoEpsg |}.
Definition ext_loaded : spatial_ext :=
  {| ext_install := true; ext_load := true; ext_load_again := false |}.

Definition start := main (attrs:=string) srid_of transform intersects.

(** Appends to the ledger that fail before the file is touched. *)
Definition mark_fails : string → mark_outcome := λ _, MarkFails None.
Definition handle_io :=
  handle_tile_io (attrs:=string) srid_of transform intersects.

End Boxes.

(** * Properties *)

(** ** Text *)

Module TextFacts.
Import Text.

Lemma app_nil (b : string) : EmptyString +:+ b = b.
Proof. reflexivity. Qed.

Lemma app_cons (x : ascii) (a b : string) :
  String x a +:+ b = String x (a +:+ b).
Proof. reflexivity. Qed.

Lemma append_assoc (a b c : string) : (a +:+ b) +:+ c = a +:+ (b +:+ c).
Proof.
  induction a as [|x a IH]; [done |]. rewrite !app_cons. by f_equal.
Qed.

Lemma lines_not_nil (s : string) : lines s ≠ [].
Proof.
  induction s as [|c s IH]; simpl; [done |].
  destruct (is_eol c); [done |]. by destruct (lines s).
Qed.

(** A line terminator always separates the segments around it. *)
Lemma lines_app_eol (a b : string) (c : ascii) :
  is_eol c = true → lines (a +:+ String c b) = lines a ++ lines b.
Proof.
  intros Hc. induction a as [|x a IH]; rewrite ?app_nil, ?app_cons; simpl.
  - by rewrite Hc.
  - rewrite IH. destruct (is_eol x); [done |].
    pose proof (lines_not_nil a). by destruct (lines a).
Qed.

Lemma lines_one_line (s : string) : one_line s = true → lines s = [s].
Proof.
  induction s as [|c s IH]; simpl; [done |].
  intros [Hc Hs]%andb_true_iff. apply negb_true_iff in Hc.
  rewrite Hc, (IH Hs). done.
Qed.

Lemma closed_inv (s : string) :
  closed s = true →
  s = EmptyString ∨ ∃ s0 c, is_eol c = true ∧ s = s0 +:+ String c EmptyString.
Proof.
  induction s as [|c s IH]; [by left |].
  intros H. right. destruct s as [|d s].
  - exists EmptyString, c. by simpl in *.
  - destruct IH as [? | (s0 & e & He & Hs)]; [exact H | done |].
    exists (String c s0), e. split; [done |]. rewrite app_cons. by rewrite <- Hs.
Qed.

Lemma closed_app_eol (a : string) (c : ascii) :
  is_eol c = true → closed (a +:+ String c EmptyString) = true.
Proof.
  intros Hc. induction a as [|x a IH]; rewrite ?app_nil, ?app_cons; simpl;
    [done |].
  destruct (a +:+ String c EmptyString) eqn:E; [| done].
  by destruct a.
Qed.

Lemma strip_empty : strip EmptyString = EmptyString.
Proof. done. Qed.

Lemma entries_app (xs ys : list string) :
  filter (λ l, l ≠ EmptyString) (strip <$> (xs ++ ys))
  = filter (λ l, l ≠ EmptyString) (strip <$> xs)
    ++ filter (λ l, l ≠ EmptyString) (strip <$> ys).
Proof. by rewrite fmap_app, filter_app. Qed.

(** After a closed text, what follows is read on its own. *)
Lemma entries_app_closed (t s : string) :
  closed t = true → entries (t +:+ s) = entries t ++ entries s.
Proof.
  intros Ht. unfold entries.
  destruct (closed_inv t Ht) as [-> | (t0 & c & Hc & ->)].
  - by rewrite app_nil.
  - rewrite append_assoc, app_cons, app_nil.
    rewrite !lines_app_eol by done. rewrite !entries_app.
    simpl (lines EmptyString). cbn [fmap list_fmap]. rewrite strip_empty.
    rewrite (filter_cons_False _ EmptyString []) by (intros H; by apply H).
    rewrite filter_nil. by rewrite app_nil_r.
Qed.

(** The record of a clean name reads as that name. *)
Lemma entries_record_clean (name : string) :
  clean_name name = true → entries (ledger_record name) = [name].
Proof.
  intros Hn. unfold clean_name in Hn.
  apply andb_true_iff in Hn as [[Hne Hst]%andb_true_iff Hone].
  apply negb_true_iff, String.eqb_neq in Hne. apply String.eqb_eq in Hst.
  unfold entries, ledger_record. rewrite lines_app_eol by done.
  rewrite (lines_one_line _ Hone). simpl.
  rewrite Hst. rewrite filter_cons_True by done.
  by rewrite filter_cons_False by (intros H; by apply H).
Qed.

Lemma entries_record (t name : string) :
  closed t = true → clean_name name = true →
  entries (t +:+ ledger_record name) = entries t ++ [name].
Proof.
  intros Ht Hn. by rewrite entries_app_closed, entries_record_clean.
Qed.

Lemma closed_record (t name : string) :
  closed (t +:+ ledger_record name) = true.
Proof.
  unfold ledger_record. rewrite <- (append_assoc t name). by apply closed_app_eol.
Qed.

End TextFacts.

(** ** The processing ledger *)

Section Ledger.
Context {attrs geometry : Type}.
Local Abbreviation world := (@world attrs geometry).

Lemma ledger_names_append (name : string) (lg : option ledger_file) :
  ledger_ok lg = true → clean_name name = true →
  ledger_names (ledger_append name lg) = ledger_names lg ++ [name].
Proof.
  intros Hok Hn. destruct lg as [[rd text]|]; simpl in *.
  - apply andb_true_iff in Hok as [-> Hcl]. by apply TextFacts.entries_record.
  - by apply (TextFacts.entries_record EmptyString).
Qed.

Lemma ledger_ok_append (name : string) (lg : option ledger_file) :
  ledger_ok lg = true → ledger_ok (ledger_append name lg) = true.
Proof.
  intros Hok. destruct lg as [[rd text]|]; simpl in *.
  - apply andb_true_iff in Hok as [-> _]. apply TextFacts.closed_record.
  - apply (TextFacts.closed_record EmptyString).
Qed.

Lemma ledger_names_append_any (name : string) (lg : option ledger_file) :
  ledger_ok lg = true →
  ledger_names (ledger_append name lg)
  = ledger_names lg ++ Text.entries (ledger_record name).
Proof.
  intros Hok. destruct lg as [[rd text]|]; simpl in *; [| done].
  apply andb_true_iff in Hok as [-> Hcl].
  by apply TextFacts.entries_app_closed.
Qed.

Lemma marks_cons (m : string) (names : list string)
    (lg : option ledger_file) :
  marks (m :: names) lg = marks names (ledger_append m lg).
Proof. done. Qed.

Lemma ledger_ok_marks (names : list string) (lg : option ledger_file) :
  ledger_ok lg = true → ledger_ok (marks names lg) = true.
Proof.
  revert lg. induction names as [|m names IH]; intros lg Hok; [done |].
  rewrite marks_cons. apply IH. by apply ledger_ok_append.
Qed.

(** The ledger never loses a name. *)
Lemma ledger_names_marks_mono (names : list string)
    (lg : option ledger_file) (x : string) :
  ledger_ok lg = true → x ∈ ledger_names lg →
  x ∈ ledger_names (marks names lg).
Proof.
  revert lg. induction names as [|m names IH]; intros lg Hok Hx; [done |].
  rewrite marks_cons. apply IH; [by apply ledger_ok_append |].
  rewrite ledger_names_append_any by done. apply elem_of_app. by left.
Qed.

(** A clean name that was marked is among the names of the ledger. *)
Lemma ledger_names_marks_in (names : list string)
    (lg : option ledger_file) (name : string) :
  ledger_ok lg = true → clean_name name = true → name ∈ names →
  name ∈ ledger_names (marks names lg).
Proof.
  revert lg. induction names as [|m names IH]; intros lg Hok Hn Hin.
  - by apply elem_of_nil in Hin.
  - rewrite marks_cons. apply elem_of_cons in Hin as [<- | Hin].
    + apply ledger_names_marks_mono; [by apply ledger_ok_append |].
      rewrite ledger_names_append by done. apply elem_of_app. right.
      by apply list_elem_of_singleton.
    + apply IH; [by apply ledger_ok_append | done | done].
Qed.

Lemma append_empty_r (s : string) : s +:+ EmptyString = s.
Proof.
  induction s as [|c s IH]; [done |].
  rewrite TextFacts.app_cons. by f_equal.
Qed.

(** The ledger file is only ever appended to: after any marks its text
    is the former text followed by one record per mark. *)
Lemma ledger_text_marks (names : list string) (lg : option ledger_file) :
  ledger_text (marks names lg) = ledger_text lg +:+ ledger_records names.
Proof.
  revert lg. induction names as [|m names IH]; intros lg.
  - simpl. by rewrite append_empty_r.
  - rewrite marks_cons, IH. simpl ledger_records.
    rewrite <- TextFacts.append_assoc. f_equal.
    by destruct lg as [[rd text]|].
Qed.

Lemma ledger_records_app (l k : list string) :
  ledger_records (l ++ k) = ledger_records l +:+ ledger_records k.
Proof.
  induction l as [|m l IH]; simpl; [by rewrite TextFacts.app_nil |].
  by rewrite IH, TextFacts.append_assoc.
Qed.

Lemma mark_processed_ledger (name : string) (w : world) :
  w_ledger (run (_mark_processed name) w) = ledger_append name (w_ledger w).
Proof. done. Qed.

(** C6, as the code has it.  For a name that is not empty, has no white
    space at either end and no line terminator, and a ledger file that is
    absent, or readable and empty or newline-terminated: after
    [_mark_processed name], [_is_file_processed name] answers true, also
    after a restart, which rereads the same file; no name answered true
    before is lost; writing the name a second time changes no answer; and
    a missing ledger file answers false for every name.  The answer is
    membership among the stripped non-blank lines of the file. *)
Theorem ledger_mark_then_processed (name : string) (w : world) :
  clean_name name = true → ledger_ok (w_ledger w) = true →
  let w' := run (_mark_processed name) w in
  is_file_processed name w' = true
  ∧ w_ledger (restart w') = w_ledger w'
  ∧ is_file_processed name (restart w') = true
  ∧ (∀ m, is_file_processed m w = true → is_file_processed m w' = true)
  ∧ (∀ m, is_file_processed m (run (_mark_processed name) w')
          = is_file_processed m w')
  ∧ (∀ m (w0 : world), w_ledger w0 = None → is_file_processed m w0 = false)
  ∧ (∀ m, is_file_processed m w'
          = bool_decide (m ∈ Text.entries (ledger_text (w_ledger w')))).
Proof.
  intros Hn Hok w'.
  assert (Hnames : ledger_names (w_ledger w') = ledger_names (w_ledger w) ++ [name]).
  { subst w'. rewrite mark_processed_ledger. by apply ledger_names_append. }
  assert (Hok' : ledger_ok (w_ledger w') = true).
  { subst w'. rewrite mark_processed_ledger. by apply ledger_ok_append. }
  assert (Hin : is_file_processed name w' = true).
  { unfold is_file_processed. rewrite Hnames. apply bool_decide_eq_true.
    apply elem_of_app. right. by apply list_elem_of_singleton. }
  split_and!; try done.
  - intros m Hm. unfold is_file_processed in *. rewrite Hnames.
    apply bool_decide_eq_true. apply bool_decide_eq_true in Hm.
    apply elem_of_app. by left.
  - intros m. unfold is_file_processed. rewrite mark_processed_ledger.
    rewrite (ledger_names_append _ _ Hok' Hn).
    apply bool_decide_ext. rewrite elem_of_app, list_elem_of_singleton.
    split; [intros [H | ->]; [done |] | by left].
    by apply bool_decide_eq_true in Hin.
  - intros m w0 H0. unfold is_file_processed. by rewrite H0.
  - intros m. unfold is_file_processed. f_equal.
    destruct (w_ledger w') as [[rd text]|] eqn:E; [| done].
    simpl in *. by apply andb_true_iff in Hok' as [-> _].
Qed.

End Ledger.

(** ** The monad, and computations that only print *)

Section Processor.
Context {attrs geometry : Type}.
Variable ST_SRID : geometry → option Z.
Variable ST_Transform : geometry → Z → Z → option geometry.
Variable ST_Intersects : geometry → geometry → bool.

Local Abbreviation world := (@world attrs geometry).
Local Abbreviation M := (@M attrs geometry).
Local Abbreviation file := (@file attrs geometry).
Local Abbreviation table := (@table attrs geometry).
Local Abbreviation regions := (@regions geometry).
Local Abbreviation join_sql := (join_sql (attrs:=attrs) ST_Transform ST_Intersects).
Local Abbreviation join_building := (join_building (attrs:=attrs) ST_Transform ST_Intersects).
Local Abbreviation try_census := (try_census (attrs:=attrs) ST_Transform ST_Intersects).
Local Abbreviation census_frames := (census_frames (attrs:=attrs) ST_Transform ST_Intersects).
Local Abbreviation join_regions := (join_regions (attrs:=attrs) ST_Transform ST_Intersects).
Local Abbreviation query_srid := (query_srid (attrs:=attrs) ST_SRID).
Local Abbreviation process_tile := (process_tile (attrs:=attrs) ST_SRID ST_Transform ST_Intersects).
Local Abbreviation reaches_joins := (reaches_joins (attrs:=attrs) ST_SRID).

Ltac unfold_m :=
  unfold stat, print, mkdir, read_file, to_file, os_replace;
  unfold try_except, bind, get, lift, modify, ret, raise.

Lemma set_stdout_nil (w : world) : set_stdout (w_stdout w ++ []) w = w.
Proof. destruct w. unfold set_stdout. simpl. by rewrite app_nil_r. Qed.

Lemma set_stdout_app (w : world) (e1 e2 : list event) :
  set_stdout (w_stdout (set_stdout (w_stdout w ++ e1) w) ++ e2)
             (set_stdout (w_stdout w ++ e1) w)
  = set_stdout (w_stdout w ++ (e1 ++ e2)) w.
Proof. unfold set_stdout. simpl. by rewrite app_assoc. Qed.

Lemma emits_ret {A} (a : A) : emits (ret a : M A) [] a.
Proof. intros w. unfold ret. by rewrite set_stdout_nil. Qed.

Lemma emits_print (ev : event) : emits (print ev : M unit) [ev] tt.
Proof. by intros w. Qed.

Lemma emits_bind {A B} (m : M A) (k : A → M B) e1 e2 a b :
  emits m e1 a → emits (k a) e2 b → emits (bind m k) (e1 ++ e2) b.
Proof.
  intros Hm Hk w. unfold bind. rewrite Hm, Hk. by rewrite set_stdout_app.
Qed.

Lemma emits_try {A} (body : M A) (handler : exn → M A) evs a :
  emits body evs a → emits (try_except body handler) evs a.
Proof. intros Hb w. unfold try_except. by rewrite Hb. Qed.

Lemma emits_print_ret {A} (ev : event) (a : A) :
  emits (bind (print ev) (λ _, ret a) : M A) [ev] a.
Proof.
  change [ev] with ([ev] ++ []).
  eapply emits_bind; [apply emits_print | apply emits_ret].
Qed.

(** ** The tile processor *)

(** A "TRY ... CENSUS" block never raises: it adds the frames of its
    region and prints no file name. *)
Lemma try_census_emits region r_srid census (tb : table) b_srid results :
  ∃ evs, emits (try_census region r_srid census tb b_srid results) evs
               (results ++ census_frames r_srid census tb b_srid)
         ∧ processed_names evs = [].
Proof.
  unfold try_census, census_frames.
  destruct r_srid as [s|].
  - destruct (join_sql _ _ _ _) as [df|e] eqn:E.
    + destruct (0 <? length df)%nat eqn:El.
      * exists [EvRegionMatches region (length df)]. split; [| done].
        intros w. unfold try_except, bind, lift. by rewrite El.
      * exists [EvRegionNone region]. split; [| done].
        intros w. unfold try_except, bind, lift. rewrite El. simpl.
        by rewrite app_nil_r.
    + exists [EvJoinFailed region]. split; [| done].
      intros w. unfold try_except, bind, lift. simpl. by rewrite app_nil_r.
  - exists []. split; [| done]. rewrite app_nil_r. apply emits_ret.
Qed.


Lemma processed_names_app (e1 e2 : list event) :
  processed_names (e1 ++ e2) = processed_names e1 ++ processed_names e2.
Proof.
  induction e1 as [|ev e1 IH]; [done |].
  destruct ev; simpl; by rewrite ?IH.
Qed.

Lemma joined_not_error (rg : regions) (tb : table) b_srid :
  joined ST_Transform ST_Intersects rg tb b_srid ≠ GEOM_ERROR.
Proof. unfold joined. by destruct (_ ++ _). Qed.

(** From the joins on, [process_tile] only prints and returns [joined]. *)
Lemma join_regions_emits (rg : regions) (tb : table) b_srid :
  ∃ evs, emits (join_regions rg tb b_srid) evs
               (joined ST_Transform ST_Intersects rg tb b_srid)
         ∧ processed_names evs = [].
Proof.
  destruct (try_census_emits "US" (us_srid rg) (census_us rg) tb b_srid [])
    as (e1 & H1 & P1).
  destruct (try_census_emits "Canada" (canada_srid rg) (census_canada rg) tb
              b_srid ([] ++ census_frames (us_srid rg) (census_us rg) tb b_srid))
    as (e2 & H2 & P2).
  simpl in H2. unfold join_regions, joined.
  destruct (census_frames (us_srid rg) (census_us rg) tb b_srid
            ++ census_frames (canada_srid rg) (census_canada rg) tb b_srid)
    as [|fr frs] eqn:E.
  - exists (e1 ++ e2 ++ [EvNoMatches]). split.
    + eapply emits_bind; [exact H1 |]. eapply emits_bind; [exact H2 |].
      simpl. apply emits_print_ret.
    + by rewrite !processed_names_app, P1, P2.
  - exists (e1 ++ e2 ++ []). split.
    + eapply emits_bind; [exact H1 |]. eapply emits_bind; [exact H2 |].
      apply emits_ret.
    + by rewrite !processed_names_app, P1, P2.
Qed.

(** A tile that is loaded, has a geometry column and a detectable SRID
    goes on to the joins with that SRID. *)
Lemma process_tile_joins (rg : regions) name (w : world) (f : file)
    (tb : table) b_srid :
  w_dir w !! name = Some f → reaches_joins f tb b_srid →
  process_tile rg name w
  = join_regions rg tb b_srid
      (set_stdout (w_stdout w ++ [EvProcessing name]) w).
Proof.
  intros Hf (Hread & [col Hcol] & Hsrid).
  destruct (join_regions_emits rg tb b_srid) as (evs & Hj & _).
  unfold process_tile; unfold_m.
  rewrite Hf. simpl. rewrite Hread. simpl. rewrite Hcol.
  destruct Hsrid as [-> | [[e ->] ->]]; by rewrite Hj.
Qed.

(** [process_tile] never raises; it only prints, naming no file but its
    own, and its result depends on the state through the file alone. *)
Lemma process_tile_emits (rg : regions) name (entry : option file) :
  ∃ evs r,
    (∀ w : world, w_dir w !! name = entry →
       process_tile rg name w = (set_stdout (w_stdout w ++ evs) w, Ok r))
    ∧ (processed_names evs = [] ∨ processed_names evs = [name]).
Proof.
  destruct entry as [f|].
  2: { exists [EvTileError], GEOM_ERROR. split; [| by left]. intros w Hw.
       unfold process_tile; unfold_m. by rewrite Hw. }
  destruct (f_read f) as [tb|] eqn:Hread.
  2: { exists [EvProcessing name; EvTileError], GEOM_ERROR.
       split; [| by right]. intros w Hw.
       unfold process_tile; unfold_m.
       rewrite Hw. simpl. rewrite Hread. simpl. unfold set_stdout. simpl.
       by rewrite <- app_assoc. }
  destruct (_detect_geom_col (tb_columns tb)) as [col|] eqn:Hcol.
  2: { exists [EvProcessing name; EvNoGeometryColumn], GEOM_ERROR.
       split; [| by right]. intros w Hw.
       unfold process_tile; unfold_m.
       rewrite Hw. simpl. rewrite Hread. simpl. rewrite Hcol.
       unfold set_stdout. simpl. by rewrite <- app_assoc. }
  assert (Hgo : ∀ s, reaches_joins f tb s →
            ∃ evs r,
              (∀ w : world, w_dir w !! name = Some f →
                 process_tile rg name w
                 = (set_stdout (w_stdout w ++ evs) w, Ok r))
              ∧ (processed_names evs = [] ∨ processed_names evs = [name])).
  { intros s Hs. destruct (join_regions_emits rg tb s) as (evs & Hj & Hp).
    exists ([EvProcessing name] ++ evs), (joined ST_Transform ST_Intersects rg tb s).
    split.
    - intros w Hw. rewrite (process_tile_joins rg name w f tb s Hw Hs).
      rewrite Hj. by rewrite set_stdout_app.
    - right. rewrite processed_names_app, Hp. done. }
  destruct (query_srid tb) as [s|e] eqn:Hq.
  { apply (Hgo s). split_and!; [done | by eexists | by left]. }
  destruct (_get_srid_via_fiona (f_crs f)) as [s|] eqn:Hfi.
  { apply (Hgo s). split_and!; [done | by eexists | right; eauto]. }
  exists [EvProcessing name; EvNoSrid], GEOM_ERROR.
  split; [| by right]. intros w Hw.
  unfold process_tile; unfold_m.
  rewrite Hw. simpl. rewrite Hread. simpl. rewrite Hcol, Hq, Hfi.
  unfold set_stdout. simpl. by rewrite <- app_assoc.
Qed.

(** The result of a tile that reaches the joins. *)
Lemma process_tile_joined (rg : regions) name (w : world) (f : file)
    (tb : table) b_srid :
  w_dir w !! name = Some f → reaches_joins f tb b_srid →
  outcome (process_tile rg name) w
  = Ok (joined ST_Transform ST_Intersects rg tb b_srid).
Proof.
  intros Hf Hr. unfold outcome. rewrite (process_tile_joins _ _ _ _ _ _ Hf Hr).
  destruct (join_regions_emits rg tb b_srid) as (evs & Hj & _). by rewrite Hj.
Qed.

(** C7, as the code has it.  For a tile that is loaded and has a
    geometry column: the SRID read off the first geometry of the table is
    the one used, whatever the metadata of the file say; only when that
    reading fails is the SRID of the embedded CRS metadata used; and the
    result is [GEOM_ERROR] exactly when both fail. *)
Theorem srid_detection_order (rg : regions) (name : string) (w : world)
    (f : file) (tb : table) :
  w_dir w !! name = Some f → f_read f = Some tb →
  is_Some (_detect_geom_col (tb_columns tb)) →
  let w1 := set_stdout (w_stdout w ++ [EvProcessing name]) w in
  (∀ s, query_srid tb = Ok s →
        process_tile rg name w = join_regions rg tb s w1)
  ∧ (∀ e s, query_srid tb = Raise e →
        _get_srid_via_fiona (f_crs f) = Some s →
        process_tile rg name w = join_regions rg tb s w1)
  ∧ (outcome (process_tile rg name) w = Ok GEOM_ERROR
     ↔ (∃ e, query_srid tb = Raise e)
       ∧ _get_srid_via_fiona (f_crs f) = None).
Proof.
  intros Hf Hread Hcol w1. split_and!.
  - intros s Hs. apply process_tile_joins with f; [done |].
    split_and!; [done | done | by left].
  - intros e s He Hs. apply process_tile_joins with f; [done |].
    split_and!; [done | done | right; eauto].
  - destruct (query_srid tb) as [s|e] eqn:Hq.
    { rewrite (process_tile_joined rg name w f tb s Hf)
        by (split_and!; [done | done | by left]).
      split; [| by intros [[? ?] _]].
      intros [=H]. by apply joined_not_error in H. }
    destruct (_get_srid_via_fiona (f_crs f)) as [s|] eqn:Hfi.
    { rewrite (process_tile_joined rg name w f tb s Hf)
        by (split_and!; [done | done | right; eauto]).
      split; [| by intros [_ ?]].
      intros [=H]. by apply joined_not_error in H. }
    split; [eauto |]. intros _. destruct Hcol as [col Hcol].
    unfold outcome, process_tile; unfold_m.
    rewrite Hf. simpl. rewrite Hread. simpl. by rewrite Hcol, Hq, Hfi.
Qed.

(** ** The joins *)

(** One building against a region: a row per polygon it intersects. *)
Lemma join_building_rows b_srid r_srid (b : building) (g g_out : geometry)
    (census : list geometry) :
  ST_Transform (b_geom b) b_srid r_srid = Some g →
  ST_Transform (b_geom b) b_srid OUTPUT_CRS = Some g_out →
  join_building b_srid r_srid b census
  = Ok (replicate
          (length (filter (λ c, ST_Intersects g c = true) census))
          {| r_attrs := b_attrs b; r_geometry := g_out |}).
Proof.
  intros Hg Hout. induction census as [|c census IH]; [done |].
  simpl. rewrite IH. unfold on_clause, select_row.
  rewrite Hg, Hout. simpl.
  destruct (ST_Intersects g c) eqn:Hc.
  - by rewrite filter_cons_True.
  - rewrite filter_cons_False; [done |]. by rewrite Hc.
Qed.

Lemma join_sql_rows b_srid r_srid (bs : list building)
    (tr_region tr_out : building → geometry) (census : list geometry) :
  (∀ b, b ∈ bs →
     ST_Transform (b_geom b) b_srid r_srid = Some (tr_region b)
     ∧ ST_Transform (b_geom b) b_srid OUTPUT_CRS = Some (tr_out b)) →
  join_sql b_srid r_srid bs census
  = Ok (bs ≫= λ b,
          replicate
            (length (filter (λ c, ST_Intersects (tr_region b) c = true) census))
            {| r_attrs := b_attrs b; r_geometry := tr_out b |}).
Proof.
  induction bs as [|b bs IH]; intros H; [done |].
  simpl. destruct (H b) as [Hg Hout]; [by left |].
  rewrite (join_building_rows _ _ _ _ _ _ Hg Hout). simpl.
  rewrite IH; [done |]. intros b' Hb'. apply H. by right.
Qed.

(** A building that intersects no polygon of the region gives no row. *)
Lemma join_building_none b_srid r_srid (b : building)
    (census : list geometry) (rows : list row) :
  (∀ g c, c ∈ census → ST_Transform (b_geom b) b_srid r_srid = Some g →
          ST_Intersects g c = false) →
  join_building b_srid r_srid b census = Ok rows → rows = [].
Proof.
  revert rows. induction census as [|c census IH]; intros rows H.
  - by intros [= <-].
  - simpl. unfold on_clause.
    destruct (ST_Transform (b_geom b) b_srid r_srid) as [g|] eqn:Hg; [| done].
    simpl. rewrite (H g c) by (done || by left).
    destruct (join_building b_srid r_srid b census) as [rest|] eqn:Hrest;
      [| done].
    simpl. intros [= <-]. apply IH; [| done].
    intros g' c' Hc'. apply H. by right.
Qed.

Lemma join_sql_none b_srid r_srid (bs : list building)
    (census : list geometry) (rows : list row) :
  (∀ b g c, b ∈ bs → c ∈ census →
     ST_Transform (b_geom b) b_srid r_srid = Some g →
     ST_Intersects g c = false) →
  join_sql b_srid r_srid bs census = Ok rows → rows = [].
Proof.
  revert rows. induction bs as [|b bs IH]; intros rows H.
  - by intros [= <-].
  - simpl.
    destruct (join_building b_srid r_srid b census) as [r1|] eqn:H1; [| done].
    destruct (join_sql b_srid r_srid bs census) as [r2|] eqn:H2; [| done].
    simpl. intros [= <-].
    rewrite (join_building_none _ _ _ _ _ (λ g c, H b g c ltac:(by left)) H1).
    apply IH; [| done]. intros b' g c Hb'. apply H. by right.
Qed.

(** A region that no feature intersects adds no frame, whether its join
    succeeds with no row or fails. *)
Lemma census_frames_none (r_srid : option Z) (census : list geometry)
    (tb : table) b_srid :
  no_intersection ST_Transform ST_Intersects b_srid tb r_srid census →
  census_frames r_srid census tb b_srid = [].
Proof.
  intros H. unfold census_frames. destruct r_srid as [s|]; [| done].
  destruct (join_sql b_srid s (tb_rows tb) census) as [df|] eqn:E; [| done].
  rewrite (join_sql_none _ _ _ _ _ (λ b g c Hb Hc, H s b g c eq_refl Hb Hc) E).
  done.
Qed.

(** C10.  For a tile that reaches the joins, whose features transform
    into the SRID of the United States region and into [OUTPUT_CRS], and
    that no polygon of the Canada region intersects: the result holds, for
    each building in turn, one row per polygon of the United States
    region that the building intersects, so a building intersecting k
    polygons of that one region is k times in the result. *)
Theorem join_gives_a_row_per_polygon (rg : regions) (name : string)
    (w : world) (f : file) (tb : table) (b_srid us : Z)
    (tr_us tr_out : building → geometry) :
  w_dir w !! name = Some f → reaches_joins f tb b_srid →
  us_srid rg = Some us →
  (∀ b, b ∈ tb_rows tb →
     ST_Transform (b_geom b) b_srid us = Some (tr_us b)
     ∧ ST_Transform (b_geom b) b_srid OUTPUT_CRS = Some (tr_out b)) →
  no_intersection ST_Transform ST_Intersects b_srid tb
    (canada_srid rg) (census_canada rg) →
  let hits b :=
    length (filter (λ c, ST_Intersects (tr_us b) c = true) (census_us rg)) in
  let rows :=
    tb_rows tb ≫= λ b,
      replicate (hits b) {| r_attrs := b_attrs b; r_geometry := tr_out b |} in
  rows ≠ [] →
  outcome (process_tile rg name) w = Ok (Matched rows).
Proof.
  intros Hf Hr Hus Htr Hca hits rows Hne. subst rows hits. cbv beta in *.
  rewrite (process_tile_joined rg name w f tb b_srid Hf Hr).
  unfold joined. rewrite (census_frames_none _ _ _ _ Hca), app_nil_r.
  unfold census_frames. rewrite Hus.
  rewrite (join_sql_rows b_srid us (tb_rows tb) tr_us tr_out _ Htr).
  destruct (tb_rows tb ≫= _) as [|r rows']; [done |].
  simpl. by rewrite app_nil_r.
Qed.

(** ** The sink appender *)

(** [append_to_gpkg] returns normally, whatever the file system does. *)
Lemma append_to_gpkg_returns (io : sink_io) (gdf : list row) (w : world) :
  outcome (append_to_gpkg io gdf) w = Ok tt.
Proof.
  unfold outcome, append_to_gpkg; unfold_m.
  destruct io as [mk rd wr rp]. simpl.
  destruct mk; [| done]. destruct (w_master w) as [old|] eqn:Hm; simpl.
  - rewrite Hm. destruct rd; [| done]. simpl.
    destruct wr as [|res]; simpl; [| done]. by destruct rp.
  - by destruct wr.
Qed.

(** It leaves the watched directory, the ledger and the counters alone,
    and prints no file name. *)
Lemma append_to_gpkg_frame (io : sink_io) (gdf : list row) (w : world) :
  let w' := run (append_to_gpkg io gdf) w in
  w_dir w' = w_dir w ∧ w_ledger w' = w_ledger w
  ∧ processed_count w' = processed_count w ∧ error_count w' = error_count w
  ∧ ∃ evs, w_stdout w' = w_stdout w ++ evs ∧ processed_names evs = [].
Proof.
  unfold run, append_to_gpkg; unfold_m.
  destruct io as [mk rd wr rp]. simpl.
  destruct mk; simpl; [| by split_and!; try done; exists [EvWriteFailed]].
  destruct (w_master w) as [old|] eqn:Hm; simpl.
  - rewrite Hm.
    destruct rd; simpl; [| by split_and!; try done; exists [EvWriteFailed]].
    destruct wr as [|res]; simpl;
      [| by split_and!; try done; exists [EvWriteFailed]].
    destruct rp; simpl; split_and!; try done;
      [by eexists [EvAppended _ _] | by exists [EvWriteFailed]].
  - destruct wr as [|res]; simpl; split_and!; try done;
      [by eexists [EvCreated _] | by exists [EvWriteFailed]].
Qed.

(** C5.  When the operations of the sink succeed: a missing output is
    created with exactly the appended rows; an existing one ends as its
    former rows followed by the appended ones, the temporary file gone.
    The combined rows are written to the temporary path first: stopped
    before the replace, the output still holds its former rows and the
    temporary file the combined ones.  And whatever fails, an existing
    output holds either its former rows or the combined ones. *)
Theorem append_to_gpkg_keeps_rows (io : sink_io) (gdf : list row) (w : world) :
  io_ok io →
  let w' := run (append_to_gpkg io gdf) w in
  (w_master w = None → w_master w' = Some gdf)
  ∧ (∀ old, w_master w = Some old →
       w_master w' = Some (old ++ gdf) ∧ w_tmp w' = None)
  ∧ (∀ old, w_master w = Some old →
       let stopped := {| io_mkdir := true; io_read := true;
                         io_write := Written; io_replace := false |} in
       let w2 := run (append_to_gpkg stopped gdf) w in
       w_master w2 = Some old ∧ w_tmp w2 = Some (old ++ gdf))
  ∧ (∀ old any, w_master w = Some old →
       let w3 := run (append_to_gpkg any gdf) w in
       w_master w3 = Some old ∨ w_master w3 = Some (old ++ gdf)).
Proof.
  intros (Hmk & Hrd & Hwr & Hrp). destruct io as [mk rd wr rp].
  simpl in *. subst. split_and!.
  - intros Hm. unfold run, append_to_gpkg; unfold_m. simpl. by rewrite Hm.
  - intros old Hm. unfold run, append_to_gpkg; unfold_m. simpl.
    rewrite Hm. simpl. by rewrite Hm.
  - intros old Hm. unfold run, append_to_gpkg; unfold_m. simpl.
    rewrite Hm. simpl. by rewrite Hm.
  - intros old [mk rd wr rp] Hm. unfold run, append_to_gpkg; unfold_m. simpl.
    destruct mk; simpl; [| by left]. rewrite Hm. simpl. rewrite Hm.
    destruct rd; simpl; [| by left].
    destruct wr as [|res]; simpl; [| by left].
    destruct rp; simpl; [by right | by left].
Qed.

(** ** The ingestion loop *)

Local Abbreviation handle_tile := (handle_tile (attrs:=attrs) ST_SRID ST_Transform ST_Intersects).
Local Abbreviation scan_cycle := (scan_cycle (attrs:=attrs) ST_SRID ST_Transform ST_Intersects).
Local Abbreviation main_loop := (main_loop (attrs:=attrs) ST_SRID ST_Transform ST_Intersects).
Local Abbreviation dir_after := (dir_after (attrs:=attrs) ST_SRID ST_Transform ST_Intersects).

Lemma is_stable_run (name : string) (w : world) :
  _is_stable name w = (w, Ok (stable_now name w)).
Proof.
  unfold stable_now, outcome, _is_stable; unfold_m.
  destruct (w_dir w !! name) as [f|]; simpl; [| done].
  destruct (f_size1 f); simpl; [| done]. by destruct (f_size2 f).
Qed.

Lemma stable_now_entry (name : string) (w w2 : world) :
  w_dir w !! name = w_dir w2 !! name → stable_now name w = stable_now name w2.
Proof.
  intros H. unfold stable_now, outcome, _is_stable; unfold_m. rewrite H.
  destruct (w_dir w2 !! name) as [f|]; simpl; [| done].
  destruct (f_size1 f); simpl; [| done]. by destruct (f_size2 f).
Qed.

Lemma process_tile_entry (rg : regions) (name : string) (w w2 : world) :
  w_dir w !! name = w_dir w2 !! name →
  outcome (process_tile rg name) w = outcome (process_tile rg name) w2.
Proof.
  intros H.
  destruct (process_tile_emits rg name (w_dir w !! name)) as (evs & r & Hp & _).
  unfold outcome. by rewrite (Hp w), (Hp w2).
Qed.

Lemma unlink_run (name : string) (w : world) :
  ∃ ev, processed_names [ev] = []
    ∧ unlink name w
      = (set_stdout (w_stdout w ++ [ev])
           (set_dir (match w_dir w !! name with
                     | Some f => if f_removable f then delete name (w_dir w)
                                 else w_dir w
                     | None => w_dir w
                     end) w), Ok tt).
Proof.
  unfold unlink; unfold_m. destruct (w_dir w !! name) as [f|]; simpl.
  - destruct (f_removable f); simpl.
    + by exists (EvDeleted name).
    + exists (EvCouldNotDelete name). split; [done |]. by destruct w.
  - exists (EvCouldNotDelete name). split; [done |]. by destruct w.
Qed.

(** What the loop body does for one tile. *)
Lemma handle_tile_facts (sink : string → sink_io) (rg : regions)
    (name : string) (w : world) :
  let w' := run (handle_tile sink rg name) w in
  outcome (handle_tile sink rg name) w = Ok tt
  ∧ w_dir w' = dir_after rg name w
  ∧ w_ledger w' = (if stable_now name w
                   then ledger_append name (w_ledger w) else w_ledger w)
  ∧ ∃ evs, w_stdout w' = w_stdout w ++ evs
      ∧ (processed_names evs = []
         ∨ (processed_names evs = [name] ∧ stable_now name w = true)).
Proof.
  unfold run, outcome, handle_tile, dir_after, bind. rewrite is_stable_run.
  destruct (stable_now name w) eqn:Hst; simpl.
  2: { split_and!; try done. by exists [EvStillDownloading name]; split;
         [| left]. }
  destruct (process_tile_emits rg name (w_dir w !! name))
    as (evs & r & Hp & Hnames).
  unfold outcome. rewrite (Hp w eq_refl). simpl.
  assert (Hnames' : ∀ more, processed_names more = [] →
            processed_names (evs ++ more) = []
            ∨ (processed_names (evs ++ more) = [name] ∧ true = true)).
  { intros more Hm. rewrite processed_names_app, Hm, app_nil_r.
    destruct Hnames as [-> | ->]; [by left | by right]. }
  destruct r as [| |gdf].
  - unfold _mark_processed, count_error; unfold_m. simpl.
    split_and!; try done.
    exists (evs ++ [EvGeometryErrorKept]). split; [by rewrite <- app_assoc |].
    by apply Hnames'.
  - unfold _mark_processed, count_processed, print_progress; unfold_m. simpl.
    match goal with |- context [unlink name ?w1] =>
      destruct (unlink_run name w1) as (ev & Hev & ->) end.
    simpl. split_and!; try done; try (by destruct (w_dir w !! name)).
    eexists (evs ++ [ev; _]). split; [by rewrite <- !app_assoc |].
    apply Hnames'. destruct ev; simpl in *; done.
  - unfold _mark_processed, count_processed, print_progress; unfold_m.
    match goal with |- context [append_to_gpkg ?io gdf ?w1] =>
      pose proof (append_to_gpkg_returns io gdf w1) as Hret;
      pose proof (append_to_gpkg_frame io gdf w1) as
        (Hd & Hl & _ & _ & ea & Hea & Hpa);
      unfold outcome, run in Hret, Hd, Hl, Hea;
      destruct (append_to_gpkg io gdf w1) as [w2 res] end.
    simpl in *. subst res. simpl.
    match goal with |- context [unlink name ?w3] =>
      destruct (unlink_run name w3) as (ev & Hev & ->) end.
    simpl. rewrite Hd, Hl, Hea. split_and!; try done;
      try (by destruct (w_dir w !! name)).
    eexists (evs ++ ea ++ [ev; _]). split; [by rewrite <- !app_assoc |].
    apply Hnames'. rewrite processed_names_app, Hpa.
    destruct ev; simpl in *; done.
Qed.

Lemma dir_after_other (rg : regions) (name m : string) (w : world) :
  m ≠ name → dir_after rg name w !! m = w_dir w !! m.
Proof.
  intros Hne. unfold dir_after.
  repeat case_match; try done; by rewrite lookup_delete_ne.
Qed.

Lemma dir_after_entry (rg : regions) (name : string) (w w2 : world) :
  w_dir w !! name = w_dir w2 !! name →
  dir_after rg name w !! name = dir_after rg name w2 !! name.
Proof.
  intros H. unfold dir_after.
  rewrite (stable_now_entry name w w2 H), (process_tile_entry rg name w w2 H).
  rewrite <- H.
  repeat case_match; rewrite ?lookup_delete_eq; try done; congruence.
Qed.

(** A file is either as it was or gone. *)
Lemma dir_after_shrinks (rg : regions) (name m : string) (w : world) :
  dir_after rg name w !! m = w_dir w !! m ∨ dir_after rg name w !! m = None.
Proof.
  destruct (decide (m = name)) as [-> | Hne];
    [| left; by apply dir_after_other].
  unfold dir_after.
  repeat case_match; try (by left); right; apply lookup_delete_eq.
Qed.

Lemma filter_ext_in {A} (P Q : A → Prop) `{!∀ x, Decision (P x)}
    `{!∀ x, Decision (Q x)} (l : list A) :
  (∀ x, x ∈ l → P x ↔ Q x) → filter P l = filter Q l.
Proof.
  induction l as [|a l IH]; intros Hl; [done |].
  rewrite !filter_cons. rewrite IH by (intros x Hx; apply Hl; by right).
  pose proof (Hl a ltac:(by left)) as Ha.
  destruct (decide (P a)) as [HP | HP], (decide (Q a)) as [HQ | HQ];
    try done; tauto.
Qed.

Lemma marks_app (l k : list string) (lg : option ledger_file) :
  marks (l ++ k) lg = marks k (marks l lg).
Proof. unfold marks. by rewrite foldl_app. Qed.

(** The loop over the candidates of one turn. *)
Lemma for_each_facts (sink : string → sink_io) (rg : regions)
    (l : list string) (w : world) :
  NoDup l →
  let w' := run (for_each l (handle_tile sink rg)) w in
  let handled := filter (λ m, stable_now m w = true) l in
  outcome (for_each l (handle_tile sink rg)) w = Ok tt
  ∧ (∀ m, m ∉ l → w_dir w' !! m = w_dir w !! m)
  ∧ (∀ n, n ∈ l → w_dir w' !! n = dir_after rg n w !! n)
  ∧ w_ledger w' = marks handled (w_ledger w)
  ∧ ∃ evs, w_stdout w' = w_stdout w ++ evs
      ∧ processed_names evs `sublist_of` handled.
Proof.
  revert w. induction l as [|a l IH]; intros w Hnd.
  { cbn. split_and!; try done.
    - intros n Hn. by apply elem_of_nil in Hn.
    - exists []. by rewrite app_nil_r. }
  apply NoDup_cons in Hnd as [Ha Hnd].
  destruct (handle_tile_facts sink rg a w) as (Hok & Hdir & Hlg & evs & Hout & Hev).
  unfold run, outcome in *. cbn [for_each]. unfold bind.
  destruct (handle_tile sink rg a w) as [w1 res]. simpl in Hok, Hdir, Hlg, Hout.
  subst res.
  destruct (IH w1 Hnd) as (Hok2 & Hframe & Hin & Hlg2 & evs2 & Hout2 & Hev2).
  unfold run, outcome in *.
  assert (Hsame : ∀ m, m ≠ a → w_dir w1 !! m = w_dir w !! m).
  { intros m Hm. rewrite Hdir. by apply dir_after_other. }
  assert (Hfilter : filter (λ m, stable_now m w1 = true) l
                    = filter (λ m, stable_now m w = true) l).
  { apply filter_ext_in. intros m Hm.
    rewrite (stable_now_entry m w1 w); [done |].
    apply Hsame. intros ->. done. }
  rewrite Hfilter in Hlg2, Hev2.
  split_and!.
  - done.
  - intros m Hm. apply not_elem_of_cons in Hm as [Hma Hml].
    rewrite (Hframe m Hml). by apply Hsame.
  - intros n [-> | Hn]%elem_of_cons.
    + rewrite (Hframe a Ha). by rewrite Hdir.
    + rewrite (Hin n Hn). apply dir_after_entry, Hsame. intros ->. done.
  - rewrite Hlg2, Hlg. rewrite filter_cons.
    destruct (decide (stable_now a w = true)) as [-> | Hns]; [done |].
    by apply not_true_is_false in Hns as ->.
  - exists (evs ++ evs2). split; [by rewrite Hout2, Hout, app_assoc |].
    rewrite processed_names_app, filter_cons.
    destruct Hev as [-> | [-> Hst]].
    + simpl. destruct (decide (stable_now a w = true));
        [by apply sublist_cons | done].
    + rewrite decide_True by done. simpl. by apply sublist_skip.
Qed.

Lemma unprocessed_NoDup (w : world) : NoDup (unprocessed_files w).
Proof.
  unfold unprocessed_files, glob_geojson. apply NoDup_filter.
  rewrite merge_sort_Permutation. apply NoDup_filter, NoDup_elements.
Qed.

Lemma unprocessed_not_in_ledger (name : string) (w : world) :
  name ∈ unprocessed_files w → name ∉ ledger_names (w_ledger w).
Proof.
  unfold unprocessed_files. intros [Hp _]%list_elem_of_filter Hin.
  unfold is_file_processed in Hp. by rewrite bool_decide_eq_true_2 in Hp.
Qed.

Lemma unprocessed_in_dir (name : string) (w : world) :
  name ∈ unprocessed_files w → is_Some (w_dir w !! name).
Proof.
  unfold unprocessed_files, glob_geojson.
  intros [_ Hg]%list_elem_of_filter. rewrite merge_sort_Permutation in Hg.
  apply list_elem_of_filter in Hg as [_ Hd].
  by apply elem_of_elements, elem_of_dom in Hd.
Qed.

(** One turn of the loop. *)
Lemma scan_cycle_facts (sink : string → sink_io) (rg : regions) (w : world) :
  let l := unprocessed_files w in
  let w' := run (scan_cycle sink rg) w in
  let handled := filter (λ m, stable_now m w = true) l in
  outcome (scan_cycle sink rg) w = Ok tt
  ∧ (∀ m, m ∉ l → w_dir w' !! m = w_dir w !! m)
  ∧ (∀ n, n ∈ l → w_dir w' !! n = dir_after rg n w !! n)
  ∧ w_ledger w' = marks handled (w_ledger w)
  ∧ (∃ evs, w_stdout w' = w_stdout w ++ evs
       ∧ processed_names evs `sublist_of` handled)
  ∧ (l = [] → w' = set_stdout (w_stdout w ++ [EvIdle]) w).
Proof.
  intros l w' handled. subst w' handled.
  pose proof (unprocessed_NoDup w) as Hnd. fold l in Hnd.
  unfold run, outcome, scan_cycle, bind, get. fold l.
  destruct l as [|a l'] eqn:El.
  { cbn. split_and!; try done.
    - intros n Hn. by apply elem_of_nil in Hn.
    - by exists [EvIdle]. }
  set (w0 := set_stdout (w_stdout w ++ [EvFound (length (a :: l'))]) w).
  change (print (EvFound (length (a :: l'))) w) with (w0, Ok tt).
  cbv iota beta.
  destruct (for_each_facts sink rg (a :: l') w0 Hnd)
    as (Hok & Hframe & Hin & Hlg & evs & Hout & Hev).
  unfold run, outcome in *.
  assert (Hfilter : filter (λ m, stable_now m w0 = true) (a :: l')
                    = filter (λ m, stable_now m w = true) (a :: l')).
  { apply filter_ext_in. intros m _. by rewrite (stable_now_entry m w0 w). }
  rewrite Hfilter in Hlg, Hev.
  split_and!; try done.
  - intros n Hn. rewrite (Hin n Hn). by apply dir_after_entry.
  - exists ([EvFound (length (a :: l'))] ++ evs).
    split; [by rewrite Hout, app_assoc | done].
Qed.

Lemma marks_last (names : list string) (name : string)
    (lg : option ledger_file) :
  marks (names ++ [name]) lg = ledger_append name (marks names lg).
Proof. by rewrite marks_app. Qed.

(** C1.  For a name among those the ledger holds, a turn of the loop
    leaves the file out of its candidates, leaves the file as it is,
    and prints no processing of it; and a turn in which every listed
    file is in the ledger changes nothing and only reports that it
    waits. *)
Theorem ledger_excludes_file (sink : string → sink_io) (rg : regions)
    (w : world) (name : string) :
  name ∈ ledger_names (w_ledger w) →
  let w' := run (scan_cycle sink rg) w in
  (name ∉ unprocessed_files w)
  ∧ w_dir w' !! name = w_dir w !! name
  ∧ (∃ evs, w_stdout w' = w_stdout w ++ evs ∧ name ∉ processed_names evs)
  ∧ ((∀ m, m ∈ glob_geojson (w_dir w) → m ∈ ledger_names (w_ledger w)) →
     w' = set_stdout (w_stdout w ++ [EvIdle]) w).
Proof.
  intros Hin w'.
  destruct (scan_cycle_facts sink rg w)
    as (_ & Hframe & _ & _ & (evs & Hout & Hev) & Hidle).
  assert (Hnot : name ∉ unprocessed_files w).
  { intros H. by apply unprocessed_not_in_ledger in H. }
  split_and!; [done | by apply Hframe | |].
  - exists evs. split; [done |]. intros Hp.
    apply Hnot. pose proof (elem_of_sublist _ _ _ Hp Hev) as Hh.
    by apply list_elem_of_filter in Hh as [_ ?].
  - intros Hall. apply Hidle.
    destruct (unprocessed_files w) as [|m ms] eqn:E; [done |]. exfalso.
    assert (Hm : m ∈ unprocessed_files w) by (rewrite E; by left).
    pose proof (unprocessed_not_in_ledger m w Hm) as Hno. apply Hno, Hall.
    unfold unprocessed_files in Hm.
    by apply list_elem_of_filter in Hm as [_ ?].
Qed.

(** A stable candidate is marked in the turn: its record is appended to
    the text of the ledger file, and with a clean name and a well-formed
    ledger the name is then read back from it. *)
Lemma marked_in_turn (sink : string → sink_io) (rg : regions) (w : world)
    (name : string) :
  name ∈ unprocessed_files w → outcome (_is_stable name) w = Ok true →
  let w' := run (scan_cycle sink rg) w in
  (∃ handled, name ∈ handled ∧ w_ledger w' = marks handled (w_ledger w))
  ∧ (∃ before after,
       ledger_text (w_ledger w')
       = ledger_text (w_ledger w) +:+ before +:+ ledger_record name +:+ after)
  ∧ (clean_name name = true → ledger_ok (w_ledger w) = true →
     is_file_processed name w' = true ∧ name ∉ unprocessed_files w').
Proof.
  intros Hcand Hst w'.
  destruct (scan_cycle_facts sink rg w) as (_ & _ & _ & Hlg & _).
  fold w' in Hlg.
  assert (Hh : name ∈ filter (λ m, stable_now m w = true) (unprocessed_files w)).
  { apply list_elem_of_filter. split; [| done]. unfold stable_now.
    by rewrite Hst. }
  split_and!.
  - eexists. split; [exact Hh | exact Hlg].
  - apply list_elem_of_split in Hh as (l1 & l2 & E).
    exists (ledger_records l1), (ledger_records l2).
    by rewrite Hlg, ledger_text_marks, E, ledger_records_app.
  - intros Hclean Hlok.
    assert (Hin : name ∈ ledger_names (w_ledger w')).
    { rewrite Hlg. by apply ledger_names_marks_in. }
    split.
    + unfold is_file_processed. by apply bool_decide_eq_true.
    + intros Hc. by apply unprocessed_not_in_ledger in Hc.
Qed.

(** C2.  For a candidate tile that is stable and for which
    [process_tile] returns [GEOM_ERROR], after the turn of the loop the
    file is in the watched directory as it was, and the tile is marked:
    the ledger is the former one with the records of the tiles handled
    this turn appended, so that its text holds the record of this tile
    after the former text, and with a clean name and a well-formed
    ledger the name is read back as processed and the tile is no
    candidate of the next turn. *)
Theorem geometry_error_keeps_file (sink : string → sink_io) (rg : regions)
    (w : world) (name : string) (f : file) :
  name ∈ unprocessed_files w → w_dir w !! name = Some f →
  outcome (_is_stable name) w = Ok true →
  outcome (process_tile rg name) w = Ok GEOM_ERROR →
  let w' := run (scan_cycle sink rg) w in
  w_dir w' !! name = Some f
  ∧ (∃ handled, name ∈ handled ∧ w_ledger w' = marks handled (w_ledger w))
  ∧ (∃ before after,
       ledger_text (w_ledger w')
       = ledger_text (w_ledger w) +:+ before +:+ ledger_record name +:+ after)
  ∧ (clean_name name = true → ledger_ok (w_ledger w) = true →
     is_file_processed name w' = true ∧ name ∉ unprocessed_files w').
Proof.
  intros Hcand Hf Hst Hres w'.
  destruct (scan_cycle_facts sink rg w) as (_ & _ & Hin & _).
  assert (Hstable : stable_now name w = true).
  { unfold stable_now. by rewrite Hst. }
  split.
  - subst w'. rewrite (Hin name Hcand). unfold dir_after.
    by rewrite Hstable, Hres.
  - by apply marked_in_turn.
Qed.

(** A candidate tile that is stable and reaches the joins is marked in
    the ledger and unlinked, whatever its joins give. *)
Lemma joined_tile_handling (sink : string → sink_io) (rg : regions)
    (w : world) (name : string) (f : file) (tb : table) (b_srid : Z) :
  name ∈ unprocessed_files w → w_dir w !! name = Some f →
  outcome (_is_stable name) w = Ok true → reaches_joins f tb b_srid →
  let w' := run (scan_cycle sink rg) w in
  w_dir w' !! name = (if f_removable f then None else Some f)
  ∧ ∃ handled, name ∈ handled ∧ w_ledger w' = marks handled (w_ledger w).
Proof.
  intros Hcand Hf Hst Hr w'.
  destruct (scan_cycle_facts sink rg w) as (_ & _ & Hin & Hlg & _).
  assert (Hstable : stable_now name w = true).
  { unfold stable_now. by rewrite Hst. }
  split.
  - subst w'. rewrite (Hin name Hcand). unfold dir_after.
    rewrite Hstable, (process_tile_joined rg name w f tb b_srid Hf Hr), Hf.
    pose proof (joined_not_error rg tb b_srid) as Hne.
    destruct (joined _ _ rg tb b_srid); [done | |];
      destruct (f_removable f); by rewrite ?lookup_delete_eq.
  - eexists. split; [| exact Hlg]. by apply list_elem_of_filter.
Qed.

(** C3, as the code has it.  For a candidate tile that is stable, is
    loaded with a geometry column and a detectable SRID, and none of
    whose features intersects a polygon of either loaded region:
    [process_tile] returns no match, and after the turn of the loop the
    file is unlinked, gone unless the removal is refused, and the tile
    is marked: the text of the ledger holds the record of the tile after
    the former text, and with a clean name and a well-formed ledger the
    name is read back as processed and the tile is no candidate of the
    next turn. *)
Theorem no_match_marks_and_unlinks (sink : string → sink_io) (rg : regions)
    (w : world) (name : string) (f : file) (tb : table) (b_srid : Z) :
  name ∈ unprocessed_files w → w_dir w !! name = Some f →
  outcome (_is_stable name) w = Ok true → reaches_joins f tb b_srid →
  no_intersection ST_Transform ST_Intersects b_srid tb
    (us_srid rg) (census_us rg) →
  no_intersection ST_Transform ST_Intersects b_srid tb
    (canada_srid rg) (census_canada rg) →
  let w' := run (scan_cycle sink rg) w in
  outcome (process_tile rg name) w = Ok NoMatches
  ∧ w_dir w' !! name = (if f_removable f then None else Some f)
  ∧ (∃ handled, name ∈ handled ∧ w_ledger w' = marks handled (w_ledger w))
  ∧ (∃ before after,
       ledger_text (w_ledger w')
       = ledger_text (w_ledger w) +:+ before +:+ ledger_record name +:+ after)
  ∧ (clean_name name = true → ledger_ok (w_ledger w) = true →
     is_file_processed name w' = true ∧ name ∉ unprocessed_files w').
Proof.
  intros Hcand Hf Hst Hr Hus Hca w'. split; [| split].
  - rewrite (process_tile_joined rg name w f tb b_srid Hf Hr).
    unfold joined. by rewrite !census_frames_none.
  - by destruct (joined_tile_handling sink rg w name f tb b_srid).
  - by apply marked_in_turn.
Qed.

(** C8.  For a candidate tile that is stable and reaches the joins: when
    the join with the United States region raises, [process_tile]
    returns what it returns with that region not loaded, so the join
    with Canada is carried out as usual, and likewise with the regions
    exchanged; the result is never an error; and after the turn of the
    loop the tile is marked in the ledger and its file unlinked, as for
    any tile that reaches the joins. *)
Theorem join_failure_is_contained (sink : string → sink_io) (rg : regions)
    (w : world) (name : string) (f : file) (tb : table) (b_srid : Z) :
  name ∈ unprocessed_files w → w_dir w !! name = Some f →
  outcome (_is_stable name) w = Ok true → reaches_joins f tb b_srid →
  let w' := run (scan_cycle sink rg) w in
  (∀ us e, us_srid rg = Some us →
     join_sql b_srid us (tb_rows tb) (census_us rg) = Raise e →
     outcome (process_tile rg name) w
     = outcome (process_tile (without_us rg) name) w)
  ∧ (∀ ca e, canada_srid rg = Some ca →
     join_sql b_srid ca (tb_rows tb) (census_canada rg) = Raise e →
     outcome (process_tile rg name) w
     = outcome (process_tile (without_canada rg) name) w)
  ∧ (∃ r, outcome (process_tile rg name) w = Ok r ∧ r ≠ GEOM_ERROR)
  ∧ w_dir w' !! name = (if f_removable f then None else Some f)
  ∧ ∃ handled, name ∈ handled ∧ w_ledger w' = marks handled (w_ledger w).
Proof.
  intros Hcand Hf Hst Hr w'.
  rewrite !(process_tile_joined _ name w f tb b_srid Hf Hr).
  split_and!.
  - intros us e Hus He. f_equal. unfold joined, census_frames. simpl.
    by rewrite Hus, He.
  - intros ca e Hca He. f_equal. unfold joined, census_frames. simpl.
    by rewrite Hca, He.
  - eexists. split; [done |]. apply joined_not_error.
  - by apply (joined_tile_handling sink rg w name f tb b_srid).
  - by apply (joined_tile_handling sink rg w name f tb b_srid).
Qed.

(** C9.  For a candidate tile that is stable and yields matched rows,
    when the write of the batch raises: [append_to_gpkg] returns
    normally, an existing output keeps its former rows, the turn of the
    loop ends normally and the ledger holds the record of the tile; with
    a clean name and a well-formed ledger the tile is then processed for
    the ledger and no candidate of the next turn. *)
Theorem sink_failure_still_marks (sink : string → sink_io) (rg : regions)
    (w : world) (name : string) (gdf : list row)
    (residue : option (list row)) :
  name ∈ unprocessed_files w →
  outcome (_is_stable name) w = Ok true →
  outcome (process_tile rg name) w = Ok (Matched gdf) →
  io_write (sink name) = WriteFails residue →
  let w' := run (scan_cycle sink rg) w in
  (∀ w0, outcome (append_to_gpkg (sink name) gdf) w0 = Ok tt)
  ∧ (∀ w0 old, w_master w0 = Some old →
       w_master (run (append_to_gpkg (sink name) gdf) w0) = Some old)
  ∧ outcome (scan_cycle sink rg) w = Ok tt
  ∧ (∃ handled, name ∈ handled ∧ w_ledger w' = marks handled (w_ledger w))
  ∧ (clean_name name = true → ledger_ok (w_ledger w) = true →
     is_file_processed name w' = true ∧ name ∉ unprocessed_files w').
Proof.
  intros Hcand Hst Hres Hio w'.
  destruct (scan_cycle_facts sink rg w) as (Hok & _ & _ & Hlg & _).
  assert (Hh : name ∈ filter (λ m, stable_now m w = true) (unprocessed_files w)).
  { apply list_elem_of_filter. split; [| done]. unfold stable_now.
    by rewrite Hst. }
  split_and!.
  - intros w0. apply append_to_gpkg_returns.
  - intros w0 old Hm. unfold run, append_to_gpkg; unfold_m.
    destruct (sink name) as [mk rd wr rp]. simpl in *. subst wr.
    destruct mk; simpl; [| done]. rewrite Hm. simpl. rewrite Hm.
    by destruct rd.
  - done.
  - eexists. split; [exact Hh | exact Hlg].
  - intros Hclean Hlok.
    assert (Hin : name ∈ ledger_names (w_ledger w')).
    { subst w'. rewrite Hlg. by apply ledger_names_marks_in. }
    split.
    + unfold is_file_processed. by apply bool_decide_eq_true.
    + intros Hc. by apply unprocessed_not_in_ledger in Hc.
Qed.

(** ** The loop over many turns *)

Lemma scan_cycle_invariant (sink : string → sink_io) (rg : regions)
    (lg0 : option ledger_file) (w : world) :
  loop_invariant lg0 w → loop_invariant lg0 (run (scan_cycle sink rg) w).
Proof.
  intros (Hok & Hnd & Hproc & Hmono & Hclean).
  destruct (scan_cycle_facts sink rg w)
    as (_ & Hframe & Hin & Hlg & (evs & Hout & Hev) & _).
  set (l := unprocessed_files w) in *.
  set (handled := filter (λ m, stable_now m w = true) l) in *.
  assert (Hhl : ∀ m, m ∈ handled → m ∈ l).
  { intros m Hm. by apply list_elem_of_filter in Hm as [_ ?]. }
  assert (Hnew : ∀ m, m ∈ processed_names evs → m ∈ handled).
  { intros m Hm. by apply (elem_of_sublist _ _ _ Hm Hev). }
  unfold loop_invariant. rewrite Hlg, Hout, processed_names_app.
  split_and!.
  - by apply ledger_ok_marks.
  - apply NoDup_app. split_and!; [done | |].
    + intros m Hm Hm'. apply Hproc in Hm as [Hm _].
      by apply Hnew, Hhl, unprocessed_not_in_ledger in Hm'.
    + eapply sublist_NoDup; [| exact Hev].
      apply NoDup_filter, unprocessed_NoDup.
  - intros m [Hm | Hm]%elem_of_app.
    + apply Hproc in Hm as [Hm ?]. split; [| done].
      by apply ledger_names_marks_mono.
    + pose proof (Hnew m Hm) as Hh. split.
      * apply ledger_names_marks_in; [done | | done].
        by apply Hclean, unprocessed_in_dir, Hhl.
      * intros H0. apply Hmono in H0.
        by apply Hhl, unprocessed_not_in_ledger in Hh.
  - intros x Hx. by apply ledger_names_marks_mono, Hmono.
  - intros n Hn. apply Hclean.
    destruct (decide (n ∈ l)) as [Hl | Hl].
    + rewrite (Hin n Hl) in Hn.
      destruct (dir_after_shrinks rg n n w) as [E | E]; rewrite E in Hn;
        [done | by destruct Hn].
    + by rewrite (Hframe n Hl) in Hn.
Qed.

Lemma main_loop_invariant (rg : regions) (lg0 : option ledger_file)
    (turns : list turn) (w : world) :
  (∀ t, t ∈ turns → clean_turn t) →
  loop_invariant lg0 w → loop_invariant lg0 (run (main_loop rg turns) w).
Proof.
  revert w. induction turns as [|t turns IH]; intros w Hturns Hinv; [done |].
  unfold run. simpl. unfold bind, modify.
  set (w1 := set_dir (tn_download t (w_dir w)) w).
  assert (Hinv1 : loop_invariant lg0 w1).
  { destruct Hinv as (? & ? & ? & ? & Hc). split_and!; try done.
    apply (Hturns t); [by left | done]. }
  pose proof (scan_cycle_invariant (tn_sink t) rg lg0 w1 Hinv1) as Hinv2.
  destruct (scan_cycle_facts (tn_sink t) rg w1) as (Hok & _).
  unfold run, outcome in *.
  destruct (scan_cycle (tn_sink t) rg w1) as [w2 res]. simpl in *. subst res.
  apply IH; [| done]. intros t' Ht'. apply Hturns. by right.
Qed.

(** C4, as the code has it.  From the start of a process, with a
    well-formed ledger and clean file names in the watched directory at
    every turn: over any sequence of turns of the loop the tiles
    reported as processed are pairwise distinct, none of them was in the
    ledger at the start, and each is in the ledger at the end.  So no
    tile is driven through the tile processor twice; nothing is said
    about a building occurring once in the master output. *)
Theorem ledger_prevents_reprocessing (rg : regions) (turns : list turn)
    (w : world) :
  w_stdout w = [] → ledger_ok (w_ledger w) = true →
  clean_dir (w_dir w) → (∀ t, t ∈ turns → clean_turn t) →
  let w' := run (main_loop rg turns) w in
  NoDup (processed_names (w_stdout w'))
  ∧ ∀ name, name ∈ processed_names (w_stdout w') →
      (name ∉ ledger_names (w_ledger w))
      ∧ name ∈ ledger_names (w_ledger w').
Proof.
  intros Hout Hok Hclean Hturns w'.
  assert (Hinv : loop_invariant (w_ledger w) w).
  { unfold loop_invariant. rewrite Hout. split_and!; try done.
    - apply NoDup_nil_2.
    - intros m Hm. by apply elem_of_nil in Hm. }
  destruct (main_loop_invariant rg (w_ledger w) turns w Hturns Hinv)
    as (_ & Hnd & Hproc & _).
  split; [done |]. intros name Hn. by destruct (Hproc name Hn).
Qed.

(** ** Further properties of the pipeline *)

Local Abbreviation matched_rows := (matched_rows (attrs:=attrs) ST_SRID ST_Transform ST_Intersects).
Local Abbreviation is_geom_error := (is_geom_error (attrs:=attrs) ST_SRID ST_Transform ST_Intersects).
Local Abbreviation main := (main (attrs:=attrs) ST_SRID ST_Transform ST_Intersects).
Local Abbreviation census_file := (@census_file geometry).

(** *** The stability detector *)

(** [_is_stable] never raises and changes nothing; it answers true
    exactly when both size samples could be taken, are equal and are at
    least [MIN_FILE_SIZE]. *)
Theorem is_stable_answer (name : string) (w : world) :
  run (_is_stable name) w = w
  ∧ ∃ b, outcome (_is_stable name) w = Ok b
      ∧ (b = true ↔
         ∃ f size, w_dir w !! name = Some f ∧ f_size1 f = Some size
                   ∧ f_size2 f = Some size ∧ MIN_FILE_SIZE ≤ size).
Proof.
  unfold run, outcome. rewrite is_stable_run. split; [done |].
  eexists. split; [done |].
  unfold stable_now, outcome, _is_stable; unfold_m.
  destruct (w_dir w !! name) as [f|] eqn:Hf; simpl.
  2: { split; [done | by intros (? & ? & ? & _)]. }
  destruct (f_size1 f) as [s1|] eqn:H1; simpl.
  2: { split; [done | by intros (? & ? & [= <-] & ? & _); congruence]. }
  destruct (f_size2 f) as [s2|] eqn:H2; simpl.
  2: { split; [done | by intros (? & ? & [= <-] & _ & ? & _); congruence]. }
  split.
  - intros [He Hm]%andb_true_iff. apply Z.eqb_eq in He as ->.
    apply Z.leb_le in Hm. by exists f, s2.
  - intros (f' & s & [= <-] & Hs1 & Hs2 & Hm).
    rewrite H1 in Hs1. rewrite H2 in Hs2.
    injection Hs1 as ->. injection Hs2 as ->.
    apply andb_true_iff. split; [by apply Z.eqb_eq | by apply Z.leb_le].
Qed.

(** *** The listing of the watched directory *)

Lemma glob_geojson_elem (d : gmap string file) (name : string) :
  name ∈ glob_geojson d
  ↔ is_Some (d !! name) ∧ Text.ends_with ".geojson" name = true.
Proof.
  unfold glob_geojson. rewrite merge_sort_Permutation.
  rewrite list_elem_of_filter, elem_of_elements, elem_of_dom. tauto.
Qed.

(** The listing holds exactly the names of the directory that end in
    ".geojson", each once, in ascending order. *)
Lemma glob_geojson_sorted (d : gmap string file) :
  StronglySorted String.le (glob_geojson d)
  ∧ NoDup (glob_geojson d)
  ∧ ∀ name, name ∈ glob_geojson d
      ↔ is_Some (d !! name) ∧ Text.ends_with ".geojson" name = true.
Proof.
  split_and!.
  - unfold glob_geojson. apply StronglySorted_merge_sort; apply _.
  - unfold glob_geojson. rewrite merge_sort_Permutation.
    apply NoDup_filter, NoDup_elements.
  - apply glob_geojson_elem.
Qed.

Lemma unprocessed_elem (name : string) (w : world) :
  name ∈ unprocessed_files w
  ↔ is_Some (w_dir w !! name) ∧ Text.ends_with ".geojson" name = true
    ∧ is_file_processed name w = false.
Proof.
  unfold unprocessed_files. rewrite list_elem_of_filter, glob_geojson_elem.
  tauto.
Qed.

(** *** The ledger, read back *)

Lemma ledger_names_marks (names : list string) (lg : option ledger_file) :
  ledger_ok lg = true → Forall (λ n, clean_name n = true) names →
  ledger_names (marks names lg) = ledger_names lg ++ names.
Proof.
  revert lg. induction names as [|m names IH]; intros lg Hok Hcl.
  - by rewrite app_nil_r.
  - apply Forall_cons in Hcl as [Hm Hcl]. rewrite marks_cons.
    rewrite IH by (done || by apply ledger_ok_append).
    rewrite ledger_names_append by done. by rewrite <- app_assoc.
Qed.

Lemma for_each_mark_processed (names : list string) (w : world) :
  w_ledger (run (for_each names _mark_processed) w)
  = marks names (w_ledger w).
Proof.
  revert w. induction names as [|m names IH]; intros w; [done |].
  rewrite marks_cons. unfold run in *. cbn [for_each]. unfold bind.
  unfold _mark_processed at 1. unfold modify. by rewrite IH.
Qed.

(** After [_mark_processed] ran for clean names in turn, on a
    well-formed ledger, the names read from the ledger are the former
    names followed by the marked ones, in order and with their
    repetitions, and [_is_file_processed] answers true exactly for a
    former name or a marked one. *)
Theorem ledger_reads_back_marks (names : list string) (w : world) :
  ledger_ok (w_ledger w) = true → Forall (λ n, clean_name n = true) names →
  let w' := run (for_each names _mark_processed) w in
  ledger_names (w_ledger w') = ledger_names (w_ledger w) ++ names
  ∧ ∀ n, outcome (_is_file_processed n) w'
         = Ok (bool_decide (n ∈ ledger_names (w_ledger w) ∨ n ∈ names)).
Proof.
  intros Hok Hcl w'.
  assert (Hn : ledger_names (w_ledger w') = ledger_names (w_ledger w) ++ names).
  { subst w'. rewrite for_each_mark_processed. by apply ledger_names_marks. }
  split; [done |]. intros n.
  unfold outcome, _is_file_processed, is_file_processed; unfold_m. simpl.
  f_equal. rewrite Hn. apply bool_decide_ext. apply elem_of_app.
Qed.

(** *** The tile processor *)

(** [process_tile] never raises and changes nothing but stdout, and its
    result depends on the state through the entry of the file alone. *)
Theorem process_tile_only_prints (rg : regions) (name : string) (w : world) :
  let w' := run (process_tile rg name) w in
  (∃ r, outcome (process_tile rg name) w = Ok r)
  ∧ w_dir w' = w_dir w ∧ w_ledger w' = w_ledger w
  ∧ w_master w' = w_master w ∧ w_tmp w' = w_tmp w
  ∧ processed_count w' = processed_count w ∧ error_count w' = error_count w
  ∧ ∀ w2 : world, w_dir w2 !! name = w_dir w !! name →
      outcome (process_tile rg name) w2 = outcome (process_tile rg name) w.
Proof.
  destruct (process_tile_emits rg name (w_dir w !! name)) as (evs & r & Hp & _).
  unfold run, outcome. rewrite (Hp w eq_refl). simpl.
  split_and!; try done; [by exists r |].
  intros w2 H2. by rewrite (Hp w2 H2).
Qed.

(** The result is [GEOM_ERROR] exactly when the file is gone, cannot be
    loaded, has no geometry column, or gives an SRID neither from its
    first geometry nor from its metadata. *)
Theorem geom_error_causes (rg : regions) (name : string) (w : world) :
  outcome (process_tile rg name) w = Ok GEOM_ERROR
  ↔ w_dir w !! name = None
    ∨ ∃ f, w_dir w !! name = Some f
        ∧ (f_read f = None
           ∨ ∃ tb, f_read f = Some tb
               ∧ (_detect_geom_col (tb_columns tb) = None
                  ∨ ((∃ e, query_srid tb = Raise e)
                     ∧ _get_srid_via_fiona (f_crs f) = None))).
Proof.
  destruct (w_dir w !! name) as [f|] eqn:Hf.
  2: { split; [by left |]. intros _.
       unfold outcome, process_tile; unfold_m. by rewrite Hf. }
  destruct (f_read f) as [tb|] eqn:Hread.
  2: { split; [intros _; right; exists f; by split; [| left] |]. intros _.
       unfold outcome, process_tile; unfold_m. rewrite Hf. simpl.
       by rewrite Hread. }
  destruct (_detect_geom_col (tb_columns tb)) as [col|] eqn:Hcol.
  2: { split.
       - intros _. right. exists f. split; [done |]. right. exists tb.
         split; [done |]. by left.
       - intros _. unfold outcome, process_tile; unfold_m. rewrite Hf. simpl.
         rewrite Hread. simpl. by rewrite Hcol. }
  assert (Hgo : ∀ s, reaches_joins f tb s →
            outcome (process_tile rg name) w ≠ Ok GEOM_ERROR).
  { intros s Hs. rewrite (process_tile_joined rg name w f tb s Hf Hs).
    intros [= H]. by apply joined_not_error in H. }
  destruct (query_srid tb) as [s|e] eqn:Hq.
  { split.
    - intros H. exfalso. apply (Hgo s); [| done].
      split_and!; [done | by eexists | by left].
    - intros [? | (f' & [= <-] & [? | (tb' & Htb & [? | [[e He] _]])])];
        try done; congruence. }
  destruct (_get_srid_via_fiona (f_crs f)) as [s|] eqn:Hfi.
  { split.
    - intros H. exfalso. apply (Hgo s); [| done].
      split_and!; [done | by eexists | right; eauto].
    - intros [? | (f' & [= <-] & [? | (tb' & Htb & [? | [_ ?]])])];
        try done; congruence. }
  split.
  - intros _. right. exists f. split; [done |]. right. exists tb.
    split; [done |]. right. eauto.
  - intros _. unfold outcome, process_tile; unfold_m. rewrite Hf. simpl.
    rewrite Hread. simpl. by rewrite Hcol, Hq, Hfi.
Qed.

(** A tile without features that has a geometry column takes its SRID
    from the metadata of the file, since there is no geometry to read it
    from: with an EPSG code there it has no match, whatever the regions;
    without one it is a geometry error. *)
Theorem empty_tile_result (rg : regions) (name : string) (w : world)
    (f : file) (tb : table) :
  w_dir w !! name = Some f → f_read f = Some tb →
  is_Some (_detect_geom_col (tb_columns tb)) → tb_rows tb = [] →
  outcome (process_tile rg name) w
  = Ok (match _get_srid_via_fiona (f_crs f) with
        | Some _ => NoMatches
        | None => GEOM_ERROR
        end).
Proof.
  intros Hf Hread Hcol Hrows.
  assert (Hq : query_srid tb = Raise TypeError).
  { unfold query_srid. by rewrite Hrows. }
  destruct (_get_srid_via_fiona (f_crs f)) as [s|] eqn:Hfi.
  - rewrite (process_tile_joined rg name w f tb s Hf)
      by (split_and!; [done | done | right; eauto]).
    unfold joined, census_frames. rewrite Hrows.
    by destruct (us_srid rg), (canada_srid rg).
  - destruct Hcol as [col Hcol].
    unfold outcome, process_tile; unfold_m. rewrite Hf. simpl.
    rewrite Hread. simpl. by rewrite Hcol, Hq, Hfi.
Qed.

(** When the join of every loaded region raises, the tile counts as one
    without matches: after the turn of the loop its file is unlinked and
    its record has been appended to the text of the ledger; with a clean
    name and a well-formed ledger it is then processed for the ledger
    and no candidate of the next turn. *)
Theorem failed_joins_count_as_no_match (sink : string → sink_io)
    (rg : regions) (w : world) (name : string) (f : file) (tb : table)
    (b_srid : Z) :
  name ∈ unprocessed_files w → w_dir w !! name = Some f →
  outcome (_is_stable name) w = Ok true → reaches_joins f tb b_srid →
  (∀ us, us_srid rg = Some us →
     ∃ e, join_sql b_srid us (tb_rows tb) (census_us rg) = Raise e) →
  (∀ ca, canada_srid rg = Some ca →
     ∃ e, join_sql b_srid ca (tb_rows tb) (census_canada rg) = Raise e) →
  let w' := run (scan_cycle sink rg) w in
  outcome (process_tile rg name) w = Ok NoMatches
  ∧ w_dir w' !! name = (if f_removable f then None else Some f)
  ∧ (∃ handled, name ∈ handled ∧ w_ledger w' = marks handled (w_ledger w))
  ∧ (∃ before after,
       ledger_text (w_ledger w')
       = ledger_text (w_ledger w) +:+ before +:+ ledger_record name +:+ after)
  ∧ (clean_name name = true → ledger_ok (w_ledger w) = true →
     is_file_processed name w' = true ∧ name ∉ unprocessed_files w').
Proof.
  intros Hcand Hf Hst Hr Hus Hca w'. split; [| split].
  - rewrite (process_tile_joined rg name w f tb b_srid Hf Hr).
    unfold joined, census_frames.
    destruct (us_srid rg) as [us|]; [destruct (Hus us eq_refl) as [e ->] |];
      (destruct (canada_srid rg) as [ca|];
         [destruct (Hca ca eq_refl) as [e' ->] |]); done.
  - by destruct (joined_tile_handling sink rg w name f tb b_srid).
  - by apply marked_in_turn.
Qed.

(** With both regions loaded and every feature transformed, the result
    lists the rows of the join with the United States, then those of
    the join with Canada: a building is there once per polygon it
    intersects in either region, and with no such polygon at all the
    result is the empty one. *)
Theorem both_regions_rows (rg : regions) (name : string) (w : world)
    (f : file) (tb : table) (b_srid us ca : Z)
    (tr_us tr_ca tr_out : building → geometry) :
  w_dir w !! name = Some f → reaches_joins f tb b_srid →
  us_srid rg = Some us → canada_srid rg = Some ca →
  (∀ b, b ∈ tb_rows tb →
     ST_Transform (b_geom b) b_srid us = Some (tr_us b)
     ∧ ST_Transform (b_geom b) b_srid ca = Some (tr_ca b)
     ∧ ST_Transform (b_geom b) b_srid OUTPUT_CRS = Some (tr_out b)) →
  let rows_in (tr : building → geometry) (census : list geometry) :=
    tb_rows tb ≫= λ b,
      replicate (length (filter (λ c, ST_Intersects (tr b) c = true) census))
        {| r_attrs := b_attrs b; r_geometry := tr_out b |} in
  outcome (process_tile rg name) w
  = Ok match rows_in tr_us (census_us rg) ++ rows_in tr_ca (census_canada rg)
       with
       | [] => NoMatches
       | rows => Matched rows
       end.
Proof.
  intros Hf Hr Hus Hca Htr rows_in. subst rows_in. cbv beta.
  rewrite (process_tile_joined rg name w f tb b_srid Hf Hr).
  unfold joined, census_frames. rewrite Hus, Hca.
  rewrite (join_sql_rows b_srid us (tb_rows tb) tr_us tr_out)
    by (intros b Hb; destruct (Htr b Hb) as (? & ? & ?); done).
  rewrite (join_sql_rows b_srid ca (tb_rows tb) tr_ca tr_out)
    by (intros b Hb; destruct (Htr b Hb) as (? & ? & ?); done).
  destruct (tb_rows tb ≫= _) as [|r1 l1]; simpl;
    destruct (tb_rows tb ≫= _) as [|r2 l2]; simpl;
    rewrite ?app_nil_r; done.
Qed.

(** *** The sink appender *)

Lemma append_master_ok (io : sink_io) (gdf : list row) (w : world) :
  io_ok io →
  w_master (run (append_to_gpkg io gdf) w)
  = Some (master_rows (w_master w) ++ gdf).
Proof.
  intros (Hmk & Hrd & Hwr & Hrp). destruct io as [mk rd wr rp].
  simpl in *. subst. unfold run, append_to_gpkg; unfold_m. simpl.
  destruct (w_master w) as [old|] eqn:Hm; simpl; [by rewrite Hm | done].
Qed.

Lemma append_master_prefix (io : sink_io) (gdf old : list row) (w : world) :
  w_master w = Some old →
  ∃ extra, w_master (run (append_to_gpkg io gdf) w) = Some (old ++ extra).
Proof.
  intros Hm. destruct io as [mk rd wr rp].
  unfold run, append_to_gpkg; unfold_m. simpl.
  destruct mk; simpl; [| by exists []; rewrite app_nil_r].
  rewrite Hm. simpl. rewrite Hm.
  destruct rd; simpl; [| by exists []; rewrite app_nil_r].
  destruct wr as [|res]; simpl; [| by exists []; rewrite app_nil_r].
  destruct rp; simpl; [by exists gdf | by exists []; rewrite app_nil_r].
Qed.

(** Two batches appended in turn, the operations of the sink
    succeeding, leave the former rows, the first batch and the second,
    in this order, whether the output existed or not. *)
Theorem append_twice (io1 io2 : sink_io) (g1 g2 : list row) (w : world) :
  io_ok io1 → io_ok io2 →
  w_master (run (append_to_gpkg io2 g2) (run (append_to_gpkg io1 g1) w))
  = Some (master_rows (w_master w) ++ g1 ++ g2).
Proof.
  intros H1 H2. rewrite (append_master_ok io2 g2 _ H2).
  rewrite (append_master_ok io1 g1 w H1). simpl. by rewrite <- app_assoc.
Qed.

(** A batch whose write raised on a missing output is lost: the next
    successful append gives an output of its own batch and of what the
    failed write left behind. *)
Theorem append_after_failed_create (io1 io2 : sink_io) (g1 g2 : list row)
    (residue : option (list row)) (w : world) :
  w_master w = None → io_mkdir io1 = true →
  io_write io1 = WriteFails residue → io_ok io2 →
  w_master (run (append_to_gpkg io1 g1) w) = residue
  ∧ w_master (run (append_to_gpkg io2 g2) (run (append_to_gpkg io1 g1) w))
    = Some (master_rows residue ++ g2).
Proof.
  intros Hm Hmk Hwr H2.
  assert (H1 : w_master (run (append_to_gpkg io1 g1) w) = residue).
  { destruct io1 as [mk rd wr rp]. simpl in *. subst.
    unfold run, append_to_gpkg; unfold_m. simpl. by rewrite Hm. }
  split; [done |]. by rewrite (append_master_ok io2 g2 _ H2), H1.
Qed.

(** *** The loop body, its counters and the master output *)

Lemma handle_tile_more (sink : string → sink_io) (rg : regions)
    (name : string) (w : world) :
  let w' := run (handle_tile sink rg name) w in
  let handled := stable_now name w in
  processed_count w'
  = (processed_count w
     + if handled && negb (is_geom_error rg name w) then 1 else 0)%nat
  ∧ error_count w'
    = (error_count w
       + if handled && is_geom_error rg name w then 1 else 0)%nat
  ∧ (∀ old, w_master w = Some old →
       ∃ extra, w_master w' = Some (old ++ extra))
  ∧ (io_ok (sink name) →
     master_rows (w_master w')
     = master_rows (w_master w)
       ++ if handled then matched_rows rg name w else []).
Proof.
  unfold run, handle_tile, bind, is_geom_error, matched_rows.
  rewrite is_stable_run.
  destruct (stable_now name w) eqn:Hst; simpl.
  2: { split_and!; try (by rewrite Nat.add_0_r).
       - intros old ->. exists []. by rewrite app_nil_r.
       - intros _. by rewrite app_nil_r. }
  destruct (process_tile_emits rg name (w_dir w !! name))
    as (evs & r & Hp & _).
  unfold outcome. rewrite (Hp w eq_refl). simpl.
  destruct r as [| |gdf].
  - unfold _mark_processed, count_error; unfold_m. simpl.
    split_and!; try lia.
    + intros old ->. exists []. by rewrite app_nil_r.
    + intros _. by rewrite app_nil_r.
  - unfold _mark_processed, count_processed, print_progress; unfold_m. simpl.
    match goal with |- context [unlink name ?w1] =>
      destruct (unlink_run name w1) as (ev & Hev & ->) end.
    simpl. split_and!; try lia.
    + intros old ->. exists []. by rewrite app_nil_r.
    + intros _. by rewrite app_nil_r.
  - unfold _mark_processed, count_processed, print_progress; unfold_m.
    set (w1 := set_stdout (w_stdout w ++ evs) w).
    pose proof (append_to_gpkg_returns (sink name) gdf w1) as Hret.
    pose proof (append_to_gpkg_frame (sink name) gdf w1)
      as (_ & _ & Hpc & Hec & _).
    pose proof (λ H, append_master_ok (sink name) gdf w1 H) as Hmok.
    pose proof (λ old H, append_master_prefix (sink name) gdf old w1 H)
      as Hmpre.
    unfold outcome, run in Hret, Hpc, Hec, Hmok, Hmpre.
    destruct (append_to_gpkg (sink name) gdf w1) as [w2 res].
    simpl in *. subst res. simpl.
    match goal with |- context [unlink name ?w3] =>
      destruct (unlink_run name w3) as (ev & Hev & ->) end.
    simpl. rewrite Hpc, Hec. split_and!; try lia.
    + intros old Hold. by apply Hmpre.
    + intros Hio. by rewrite (Hmok Hio).
Qed.

Lemma fmap_ext_in {A B} (g h : A → B) (l : list A) :
  (∀ x, x ∈ l → g x = h x) → g <$> l = h <$> l.
Proof.
  induction l as [|a l IH]; intros Hl; [done |].
  cbn [fmap list_fmap]. rewrite (Hl a) by by left.
  f_equal. apply IH. intros x Hx. apply Hl. by right.
Qed.

Lemma matched_rows_entry (rg : regions) (name : string) (w w2 : world) :
  w_dir w !! name = w_dir w2 !! name →
  matched_rows rg name w = matched_rows rg name w2.
Proof.
  intros H. unfold matched_rows. by rewrite (process_tile_entry rg name w w2 H).
Qed.

Lemma is_geom_error_entry (rg : regions) (name : string) (w w2 : world) :
  w_dir w !! name = w_dir w2 !! name →
  is_geom_error rg name w = is_geom_error rg name w2.
Proof.
  intros H. unfold is_geom_error.
  by rewrite (process_tile_entry rg name w w2 H).
Qed.

Lemma for_each_more (sink : string → sink_io) (rg : regions)
    (l : list string) (w : world) :
  NoDup l →
  let w' := run (for_each l (handle_tile sink rg)) w in
  let handled := filter (λ m, stable_now m w = true) l in
  processed_count w'
  = (processed_count w
     + length (filter (λ m, is_geom_error rg m w = false) handled))%nat
  ∧ error_count w'
    = (error_count w
       + length (filter (λ m, is_geom_error rg m w = true) handled))%nat
  ∧ (∀ old, w_master w = Some old →
       ∃ extra, w_master w' = Some (old ++ extra))
  ∧ (sinks_ok sink →
     master_rows (w_master w')
     = master_rows (w_master w)
       ++ concat ((λ m, matched_rows rg m w) <$> handled)).
Proof.
  revert w. induction l as [|a l IH]; intros w Hnd.
  { cbn. split_and!; try lia.
    - intros old ->. exists []. by rewrite app_nil_r.
    - intros _. by rewrite app_nil_r. }
  apply NoDup_cons in Hnd as [Ha Hnd].
  destruct (handle_tile_facts sink rg a w) as (Hok & Hdir & _).
  destruct (handle_tile_more sink rg a w) as (Hpc & Hec & Hpre & Hrows).
  unfold run, outcome in *. cbn [for_each]. unfold bind.
  destruct (handle_tile sink rg a w) as [w1 res].
  simpl in Hok, Hdir, Hpc, Hec, Hpre, Hrows. subst res.
  destruct (IH w1 Hnd) as (Hpc2 & Hec2 & Hpre2 & Hrows2).
  unfold run in *.
  assert (Hsame : ∀ m, m ∈ l → w_dir w1 !! m = w_dir w !! m).
  { intros m Hm. rewrite Hdir. apply dir_after_other. intros ->. done. }
  assert (Hfilter : filter (λ m, stable_now m w1 = true) l
                    = filter (λ m, stable_now m w = true) l).
  { apply filter_ext_in. intros m Hm.
    by rewrite (stable_now_entry m w1 w (Hsame m Hm)). }
  assert (Hin : ∀ m, m ∈ filter (λ m, stable_now m w = true) l → m ∈ l).
  { intros m Hm. by apply list_elem_of_filter in Hm as [_ ?]. }
  rewrite Hfilter in Hpc2, Hec2, Hrows2.
  rewrite (filter_ext_in (λ m, is_geom_error rg m w1 = false)
             (λ m, is_geom_error rg m w = false)) in Hpc2
    by (intros m Hm; by rewrite (is_geom_error_entry rg m w1 w
                                   (Hsame m (Hin m Hm)))).
  rewrite (filter_ext_in (λ m, is_geom_error rg m w1 = true)
             (λ m, is_geom_error rg m w = true)) in Hec2
    by (intros m Hm; by rewrite (is_geom_error_entry rg m w1 w
                                   (Hsame m (Hin m Hm)))).
  rewrite (fmap_ext_in (λ m, matched_rows rg m w1)
             (λ m, matched_rows rg m w)) in Hrows2
    by (intros m Hm; by apply matched_rows_entry, Hsame, Hin).
  rewrite Hpc2, Hec2, Hpc, Hec. rewrite (filter_cons _ a).
  destruct (decide (stable_now a w = true)) as [Hst | Hst].
  - rewrite Hst in *. rewrite !(filter_cons _ a). simpl.
    destruct (is_geom_error rg a w) eqn:Hge; simpl.
    + split_and!; try lia.
      * intros old Hold. destruct (Hpre old Hold) as [e1 H1].
        destruct (Hpre2 _ H1) as [e2 H2]. exists (e1 ++ e2).
        by rewrite H2, app_assoc.
      * intros Hs. rewrite (Hrows2 Hs), (Hrows (Hs a)).
        by rewrite <- app_assoc.
    + split_and!; try lia.
      * intros old Hold. destruct (Hpre old Hold) as [e1 H1].
        destruct (Hpre2 _ H1) as [e2 H2]. exists (e1 ++ e2).
        by rewrite H2, app_assoc.
      * intros Hs. rewrite (Hrows2 Hs), (Hrows (Hs a)).
        by rewrite <- app_assoc.
  - apply not_true_is_false in Hst. rewrite Hst in *. simpl in *.
    split_and!; try lia.
    + intros old Hold. destruct (Hpre old Hold) as [e1 H1].
      destruct (Hpre2 _ H1) as [e2 H2]. exists (e1 ++ e2).
      by rewrite H2, app_assoc.
    + intros Hs. rewrite (Hrows2 Hs), (Hrows (Hs a)).
      by rewrite app_nil_r.
Qed.

(** *** One turn of the loop *)

Lemma scan_cycle_more (sink : string → sink_io) (rg : regions) (w : world) :
  let w' := run (scan_cycle sink rg) w in
  let handled := filter (λ m, stable_now m w = true) (unprocessed_files w) in
  processed_count w'
  = (processed_count w
     + length (filter (λ m, is_geom_error rg m w = false) handled))%nat
  ∧ error_count w'
    = (error_count w
       + length (filter (λ m, is_geom_error rg m w = true) handled))%nat
  ∧ (∀ old, w_master w = Some old →
       ∃ extra, w_master w' = Some (old ++ extra))
  ∧ (sinks_ok sink →
     master_rows (w_master w')
     = master_rows (w_master w)
       ++ concat ((λ m, matched_rows rg m w) <$> handled)).
Proof.
  intros w' handled. subst w' handled.
  pose proof (unprocessed_NoDup w) as Hnd.
  unfold run, scan_cycle, bind, get.
  destruct (unprocessed_files w) as [|a l'] eqn:El.
  { cbn. split_and!; try lia.
    - intros old ->. exists []. by rewrite app_nil_r.
    - intros _. by rewrite app_nil_r. }
  set (w0 := set_stdout (w_stdout w ++ [EvFound (length (a :: l'))]) w).
  change (print (EvFound (length (a :: l'))) w) with (w0, Ok tt).
  cbv iota beta.
  destruct (for_each_more sink rg (a :: l') w0 Hnd) as (Hpc & Hec & Hpre & Hrows).
  unfold run in *.
  rewrite (filter_ext_in (λ m, stable_now m w0 = true)
             (λ m, stable_now m w = true)) in Hpc, Hec, Hrows
    by (intros m _; by rewrite (stable_now_entry m w0 w)).
  rewrite (filter_ext_in (λ m, is_geom_error rg m w0 = false)
             (λ m, is_geom_error rg m w = false)) in Hpc
    by (intros m _; by rewrite (is_geom_error_entry rg m w0 w)).
  rewrite (filter_ext_in (λ m, is_geom_error rg m w0 = true)
             (λ m, is_geom_error rg m w = true)) in Hec
    by (intros m _; by rewrite (is_geom_error_entry rg m w0 w)).
  rewrite (fmap_ext_in (λ m, matched_rows rg m w0)
             (λ m, matched_rows rg m w)) in Hrows
    by (intros m _; by apply matched_rows_entry).
  split_and!; done.
Qed.

(** After a turn, [error_count] has grown by the number of stable
    candidates answered with [GEOM_ERROR] and [processed_count] by the
    number of the other stable candidates; unstable files count
    nowhere. *)
Theorem cycle_counters (sink : string → sink_io) (rg : regions) (w : world) :
  let w' := run (scan_cycle sink rg) w in
  let handled := filter (λ m, stable_now m w = true) (unprocessed_files w) in
  processed_count w'
  = (processed_count w
     + length (filter (λ m, is_geom_error rg m w = false) handled))%nat
  ∧ error_count w'
    = (error_count w
       + length (filter (λ m, is_geom_error rg m w = true) handled))%nat
  ∧ (processed_count w' + error_count w'
     = processed_count w + error_count w + length handled)%nat.
Proof.
  intros w' handled.
  destruct (scan_cycle_more sink rg w) as (Hpc & Hec & _).
  fold w' handled in Hpc, Hec. split_and!; [done | done |].
  rewrite Hpc, Hec.
  assert (Hlen : ∀ l : list string,
            (length (filter (λ m, is_geom_error rg m w = false) l)
             + length (filter (λ m, is_geom_error rg m w = true) l)
             = length l)%nat).
  { induction l as [|a l IH]; [done |]. rewrite !filter_cons.
    destruct (is_geom_error rg a w); simpl in *; lia. }
  pose proof (Hlen handled). lia.
Qed.

(** With a sink that succeeds, the rows of the master output after a
    turn are its former rows followed by the rows matched by the stable
    candidates, tile after tile in the order of their names. *)
Theorem cycle_master_rows (sink : string → sink_io) (rg : regions)
    (w : world) :
  sinks_ok sink →
  let w' := run (scan_cycle sink rg) w in
  let handled := filter (λ m, stable_now m w = true) (unprocessed_files w) in
  master_rows (w_master w')
  = master_rows (w_master w) ++ concat ((λ m, matched_rows rg m w) <$> handled).
Proof.
  intros Hs w' handled.
  destruct (scan_cycle_more sink rg w) as (_ & _ & _ & Hrows). by apply Hrows.
Qed.

(** A turn only ever removes files: a file that is not as it was has
    been a stable candidate of the turn, not answered with
    [GEOM_ERROR], and is gone.  So, files whose name does not end in
    ".geojson", files in the ledger and unstable files are never
    touched. *)
Theorem cycle_only_removes_handled (sink : string → sink_io) (rg : regions)
    (w : world) (name : string) :
  let w' := run (scan_cycle sink rg) w in
  w_dir w' !! name ≠ w_dir w !! name →
  w_dir w' !! name = None
  ∧ name ∈ unprocessed_files w
  ∧ outcome (_is_stable name) w = Ok true
  ∧ outcome (process_tile rg name) w ≠ Ok GEOM_ERROR.
Proof.
  intros w' Hne.
  destruct (scan_cycle_facts sink rg w) as (_ & Hframe & Hin & _).
  fold w' in Hframe, Hin.
  destruct (decide (name ∈ unprocessed_files w)) as [Hc | Hc];
    [| by rewrite (Hframe name Hc) in Hne].
  rewrite (Hin name Hc) in Hne |- *.
  split_and!; [| done | |].
  - by destruct (dir_after_shrinks rg name name w).
  - unfold outcome. rewrite is_stable_run. simpl. f_equal.
    unfold dir_after in Hne. by destruct (stable_now name w).
  - intros Hge. unfold dir_after in Hne. rewrite Hge in Hne.
    by destruct (stable_now name w).
Qed.

(** An unstable candidate is skipped for the turn: its file stays as it
    is, no processing of it is printed, and, the ledger being well
    formed and the names of the directory clean, it is a candidate of
    the next turn again. *)
Theorem unstable_tile_waits (sink : string → sink_io) (rg : regions)
    (w : world) (name : string) :
  name ∈ unprocessed_files w → outcome (_is_stable name) w = Ok false →
  ledger_ok (w_ledger w) = true → clean_dir (w_dir w) →
  let w' := run (scan_cycle sink rg) w in
  w_dir w' !! name = w_dir w !! name
  ∧ (∃ evs, w_stdout w' = w_stdout w ++ evs ∧ name ∉ processed_names evs)
  ∧ name ∈ unprocessed_files w'.
Proof.
  intros Hcand Hst Hok Hclean w'.
  destruct (scan_cycle_facts sink rg w)
    as (_ & _ & Hin & Hlg & (evs & Hout & Hev) & _).
  fold w' in Hin, Hlg, Hout.
  assert (Hun : stable_now name w = false).
  { unfold stable_now. by rewrite Hst. }
  set (handled := filter (λ m, stable_now m w = true) (unprocessed_files w))
    in *.
  assert (Hnot : name ∉ handled).
  { intros [H _]%list_elem_of_filter. congruence. }
  assert (Hdir : w_dir w' !! name = w_dir w !! name).
  { rewrite (Hin name Hcand). unfold dir_after. by rewrite Hun. }
  split_and!; [done | |].
  - exists evs. split; [done |]. intros Hp.
    by apply Hnot, (elem_of_sublist _ _ _ Hp Hev).
  - apply unprocessed_elem in Hcand as (Hsome & Hext & Hproc).
    apply unprocessed_elem. rewrite Hdir. split_and!; [done | done |].
    unfold is_file_processed in *. rewrite Hlg.
    rewrite ledger_names_marks; [| done |].
    + apply bool_decide_eq_false. apply bool_decide_eq_false in Hproc.
      intros [H | H]%elem_of_app; done.
    + apply Forall_forall. intros m Hm.
      apply list_elem_of_filter in Hm as [_ Hm].
      by apply Hclean, unprocessed_in_dir.
Qed.

(** *** The loop over many turns *)

Lemma main_loop_more (rg : regions) (turns : list turn) (w : world) :
  let w' := run (main_loop rg turns) w in
  outcome (main_loop rg turns) w = Ok tt
  ∧ (∃ names, w_ledger w' = marks names (w_ledger w))
  ∧ (∀ old, w_master w = Some old →
       ∃ extra, w_master w' = Some (old ++ extra))
  ∧ ∃ evs, w_stdout w' = w_stdout w ++ evs.
Proof.
  revert w. induction turns as [|t turns IH]; intros w.
  { cbn. split_and!; [done | by exists [] | | by exists []; rewrite app_nil_r].
    intros old ->. exists []. by rewrite app_nil_r. }
  unfold run, outcome. simpl. unfold bind, modify.
  set (w1 := set_dir (tn_download t (w_dir w)) w).
  destruct (scan_cycle_facts (tn_sink t) rg w1)
    as (Hok & _ & _ & Hlg & (evs & Hout & _) & _).
  destruct (scan_cycle_more (tn_sink t) rg w1) as (_ & _ & Hpre & _).
  unfold run, outcome in *.
  destruct (scan_cycle (tn_sink t) rg w1) as [w2 res]. simpl in *. subst res.
  destruct (IH w2) as (Hok2 & [names2 Hlg2] & Hpre2 & evs2 & Hout2).
  unfold run, outcome in *.
  split_and!.
  - done.
  - eexists. rewrite Hlg2, Hlg. by rewrite <- marks_app.
  - intros old Hold. destruct (Hpre old Hold) as [e1 H1].
    destruct (Hpre2 _ H1) as [e2 H2]. exists (e1 ++ e2).
    by rewrite H2, app_assoc.
  - exists (evs ++ evs2). by rewrite Hout2, Hout, app_assoc.
Qed.

(** Over any turns and whatever the sink does, an existing master
    output only grows at its end: its former rows stay, in place. *)
Theorem master_only_grows (rg : regions) (turns : list turn) (w : world)
    (old : list row) :
  w_master w = Some old →
  ∃ extra, w_master (run (main_loop rg turns) w) = Some (old ++ extra).
Proof.
  intros Hold. destruct (main_loop_more rg turns w) as (_ & _ & Hpre & _).
  by apply Hpre.
Qed.

(** Over any turns the ledger file and stdout are only appended to: the
    text of the ledger is its former text followed by the records of
    the names marked. *)
Theorem ledger_only_grows (rg : regions) (turns : list turn) (w : world) :
  let w' := run (main_loop rg turns) w in
  (∃ names, ledger_text (w_ledger w')
            = ledger_text (w_ledger w) +:+ ledger_records names)
  ∧ ∃ evs, w_stdout w' = w_stdout w ++ evs.
Proof.
  intros w'.
  destruct (main_loop_more rg turns w) as (_ & [names Hlg] & _ & Hout).
  split; [| done]. exists names. fold w' in Hlg.
  by rewrite Hlg, ledger_text_marks.
Qed.

(** A restart does not bring a tile back: with a well-formed ledger and
    clean file names throughout, a tile reported as processed before
    the restart is not processed in any turn after it. *)
Theorem restart_does_not_reprocess (rg : regions)
    (before after : list turn) (w : world) (name : string) :
  w_stdout w = [] → ledger_ok (w_ledger w) = true →
  clean_dir (w_dir w) →
  (∀ t, t ∈ before ++ after → clean_turn t) →
  let w1 := run (main_loop rg before) w in
  let w2 := run (main_loop rg after) (restart w1) in
  name ∈ processed_names (w_stdout w1) →
  name ∉ processed_names (w_stdout w2).
Proof.
  intros Hout Hok Hclean Hturns w1 w2 Hn.
  assert (Hinv : loop_invariant (w_ledger w) w).
  { unfold loop_invariant. rewrite Hout. split_and!; try done.
    - apply NoDup_nil_2.
    - intros m Hm. by apply elem_of_nil in Hm. }
  destruct (main_loop_invariant rg (w_ledger w) before w) as
    (Hok1 & _ & Hproc1 & _ & Hclean1); [| done |].
  { intros t Ht. apply Hturns, elem_of_app. by left. }
  fold w1 in Hok1, Hproc1, Hclean1.
  assert (Hinv2 : loop_invariant (w_ledger w1) (restart w1)).
  { unfold loop_invariant. simpl. split_and!; try done.
    - apply NoDup_nil_2.
    - intros m Hm. by apply elem_of_nil in Hm. }
  destruct (main_loop_invariant rg (w_ledger w1) after (restart w1)) as
    (_ & _ & Hproc2 & _); [| done |].
  { intros t Ht. apply Hturns, elem_of_app. by right. }
  fold w2 in Hproc2. intros Hn2.
  destruct (Hproc2 name Hn2) as [_ Hno]. apply Hno.
  by destruct (Hproc1 name Hn).
Qed.

(** *** Start-up *)

(** [load_census_once] returns an SRID exactly when the file exists, is
    loaded, has a geometry column and carries an EPSG code in its
    metadata; the table then holds the polygons of the file.  A file
    that is loaded but has no geometry column or no EPSG code leaves
    its table behind and still counts as not loaded. *)
Theorem load_census_once_srid (cf : option census_file) :
  (∀ s, fst (load_census_once cf) = Some s
        ↔ ∃ f t, cf = Some f ∧ cf_read f = Some t
            ∧ is_Some (_detect_geom_col (ct_columns t))
            ∧ _get_srid_via_fiona (cf_crs f) = Some s)
  ∧ (∀ f t, cf = Some f → cf_read f = Some t →
       snd (load_census_once cf) = ct_polygons t)
  ∧ (∀ f, cf = Some f → cf_read f = None → load_census_once cf = (None, []))
  ∧ (cf = None → load_census_once cf = (None, [])).
Proof.
  unfold load_census_once. split_and!.
  - intros s. destruct cf as [f|]; simpl.
    2: { split; [done | by intros (? & ? & ? & _)]. }
    destruct (cf_read f) as [t|] eqn:Hread; simpl.
    2: { split; [done | by intros (? & ? & [= <-] & ? & _); congruence]. }
    destruct (_detect_geom_col (ct_columns t)) as [col|] eqn:Hcol; simpl.
    + split.
      * intros Hs. exists f, t. split_and!; [done | done | by eexists | done].
      * intros (f' & t' & [= <-] & Ht & _ & Hs). done.
    + split; [done |].
      intros (f' & t' & [= <-] & Ht & [c Hc] & _).
      rewrite Hread in Ht. injection Ht as <-. congruence.
  - intros f t -> Hread. simpl. rewrite Hread. simpl.
    by destruct (_detect_geom_col (ct_columns t)).
  - intros f -> Hread. simpl. by rewrite Hread.
  - by intros ->.
Qed.

(** [main] returns at once, leaving everything as it is, when the
    spatial extension is not loaded or neither census file gives an
    SRID: no tile is read, marked or removed, whatever the directory
    holds. *)
Theorem main_aborts_without_census (ext : spatial_ext)
    (us ca : option census_file) (turns : list turn) (w : world) :
  spatial_loaded ext = false
  ∨ (fst (load_census_once us) = None ∧ fst (load_census_once ca) = None) →
  main ext us ca turns w = (w, Ok tt).
Proof.
  intros [Hext | [Hus Hca]]; unfold main.
  - by rewrite Hext.
  - destruct (spatial_loaded ext); [| done]. simpl.
    unfold loaded_regions. simpl. by rewrite Hus, Hca.
Qed.

(** Regions that agree on their SRIDs, and on the polygons of each
    region that has one, give the same tile results. *)
Lemma process_tile_regions (rg rg' : regions) (name : string) (w : world) :
  us_srid rg = us_srid rg' → canada_srid rg = canada_srid rg' →
  (is_Some (us_srid rg) → census_us rg = census_us rg') →
  (is_Some (canada_srid rg) → census_canada rg = census_canada rg') →
  process_tile rg name w = process_tile rg' name w.
Proof.
  intros Hus Hca Hcu Hcc.
  assert (Hj : ∀ tb s, join_regions rg tb s = join_regions rg' tb s).
  { intros tb s. unfold join_regions. rewrite <- Hus, <- Hca.
    destruct (us_srid rg) as [us|]; [rewrite <- Hcu by by eexists |];
      (destruct (canada_srid rg) as [ca|];
         [rewrite <- Hcc by by eexists |]); done. }
  unfold process_tile; unfold_m.
  destruct (w_dir w !! name) as [f|]; simpl; [| done].
  destruct (f_read f) as [tb|]; simpl; [| done].
  destruct (_detect_geom_col (tb_columns tb)); [| done].
  destruct (query_srid tb); [by rewrite Hj |].
  destruct (_get_srid_via_fiona (f_crs f)); [by rewrite Hj | done].
Qed.

Lemma main_loop_regions (rg rg' : regions) (turns : list turn) (w : world) :
  us_srid rg = us_srid rg' → canada_srid rg = canada_srid rg' →
  (is_Some (us_srid rg) → census_us rg = census_us rg') →
  (is_Some (canada_srid rg) → census_canada rg = census_canada rg') →
  main_loop rg turns w = main_loop rg' turns w.
Proof.
  intros Hus Hca Hcu Hcc.
  assert (Hh : ∀ sink name w0,
            handle_tile sink rg name w0 = handle_tile sink rg' name w0).
  { intros sink name w0. unfold handle_tile, bind.
    destruct (_is_stable name w0) as [w1 [[|]|e]]; simpl; try done.
    by rewrite (process_tile_regions rg rg' name w1). }
  assert (Hf : ∀ sink l w0,
            for_each l (handle_tile sink rg) w0
            = for_each l (handle_tile sink rg') w0).
  { intros sink l. induction l as [|a l IH]; intros w0; [done |].
    cbn [for_each]. unfold bind. rewrite Hh.
    destruct (handle_tile sink rg' a w0) as [w1 [[]|e]]; [apply IH | done]. }
  assert (Hs : ∀ sink w0, scan_cycle sink rg w0 = scan_cycle sink rg' w0).
  { intros sink w0. unfold scan_cycle, bind, get.
    destruct (unprocessed_files w0) as [|a l]; [done |].
    destruct (print _ w0) as [w1 [[]|e]]; [apply Hf | done]. }
  revert w. induction turns as [|t turns IH]; intros w; [done |].
  simpl. unfold bind, modify. rewrite Hs.
  destruct (scan_cycle (tn_sink t) rg' _) as [w2 [[]|e]]; [apply IH | done].
Qed.

(** A census file that fails to load, or has no geometry column or no
    EPSG code, is as good as a missing one: the run of [main] is the
    same, its polygons never joined. *)
Theorem unloaded_census_is_skipped (ext : spatial_ext)
    (us ca : option census_file) (turns : list turn) (w : world) :
  (fst (load_census_once us) = None →
   main ext us ca turns w = main ext None ca turns w)
  ∧ (fst (load_census_once ca) = None →
     main ext us ca turns w = main ext us None turns w).
Proof.
  split; intros Hnone; unfold main;
    (destruct (spatial_loaded ext); [| done]); simpl;
    unfold loaded_regions; simpl; rewrite Hnone.
  - destruct (fst (load_census_once ca)) eqn:Hca; [| done].
    apply main_loop_regions; simpl; try done; by intros [? ?].
  - destruct (fst (load_census_once us)) eqn:Hus; [| done].
    apply main_loop_regions; simpl; try done; by intros [? ?].
Qed.

(** *** The geometry column *)

(** [_detect_geom_col] returns the first column, in the order of the
    table, whose name is one of the aliases once put in lower case, as
    it is spelled in the table; it returns nothing exactly when no
    column is. *)
Theorem detect_geom_col_first (columns : list string) :
  (_detect_geom_col columns = None
   ↔ ∀ c, c ∈ columns → Text.lower c ∉ GEOM_ALIASES)
  ∧ ∀ col, _detect_geom_col columns = Some col →
      ∃ before after, columns = before ++ col :: after
        ∧ Text.lower col ∈ GEOM_ALIASES
        ∧ ∀ c, c ∈ before → Text.lower c ∉ GEOM_ALIASES.
Proof.
  unfold _detect_geom_col. induction columns as [|a l [IHn IHs]]; simpl.
  { split; [split; [by intros _ c Hc%elem_of_nil | done] | done]. }
  destruct (bool_decide (Text.lower a ∈ GEOM_ALIASES)) eqn:Ha.
  - apply bool_decide_eq_true in Ha. split.
    + split; [done |]. intros H. exfalso. apply (H a); [by left | done].
    + intros col [= <-]. exists [], l. split_and!; [done | done |].
      by intros c Hc%elem_of_nil.
  - apply bool_decide_eq_false in Ha. split.
    + rewrite IHn. split.
      * intros H c [-> | Hc]%elem_of_cons; [done | by apply H].
      * intros H c Hc. apply H. by right.
    + intros col Hcol. destruct (IHs col Hcol) as (b & af & -> & Hin & Hb).
      exists (a :: b), af. split_and!; [done | done |].
      intros c [-> | Hc]%elem_of_cons; [done | by apply Hb].
Qed.

(** *** The order of a turn *)

Lemma stable_now_file (name : string) (w : world) :
  stable_now name w = true → ∃ f, w_dir w !! name = Some f.
Proof.
  unfold stable_now, outcome, _is_stable; unfold_m.
  destruct (w_dir w !! name) as [f|]; [by exists f | done].
Qed.

Lemma stable_now_outcome (name : string) (w : world) :
  stable_now name w = true ↔ outcome (_is_stable name) w = Ok true.
Proof.
  unfold outcome. rewrite is_stable_run. simpl.
  split; [by intros -> | by intros [= ->]].
Qed.

(** For a file that is there, [process_tile] prints the processing of
    its own name, once. *)
Lemma process_tile_emits_file (rg : regions) (name : string) (f : file) :
  ∃ evs r,
    (∀ w : world, w_dir w !! name = Some f →
       process_tile rg name w = (set_stdout (w_stdout w ++ evs) w, Ok r))
    ∧ processed_names evs = [name].
Proof.
  destruct (f_read f) as [tb|] eqn:Hread.
  2: { exists [EvProcessing name; EvTileError], GEOM_ERROR.
       split; [| done]. intros w Hw.
       unfold process_tile; unfold_m.
       rewrite Hw. simpl. rewrite Hread. simpl. unfold set_stdout. simpl.
       by rewrite <- app_assoc. }
  destruct (_detect_geom_col (tb_columns tb)) as [col|] eqn:Hcol.
  2: { exists [EvProcessing name; EvNoGeometryColumn], GEOM_ERROR.
       split; [| done]. intros w Hw.
       unfold process_tile; unfold_m.
       rewrite Hw. simpl. rewrite Hread. simpl. rewrite Hcol.
       unfold set_stdout. simpl. by rewrite <- app_assoc. }
  assert (Hgo : ∀ s, reaches_joins f tb s →
            ∃ evs r,
              (∀ w : world, w_dir w !! name = Some f →
                 process_tile rg name w
                 = (set_stdout (w_stdout w ++ evs) w, Ok r))
              ∧ processed_names evs = [name]).
  { intros s Hs. destruct (join_regions_emits rg tb s) as (evs & Hj & Hp).
    exists ([EvProcessing name] ++ evs), (joined ST_Transform ST_Intersects rg tb s).
    split.
    - intros w Hw. rewrite (process_tile_joins rg name w f tb s Hw Hs).
      rewrite Hj. by rewrite set_stdout_app.
    - rewrite processed_names_app, Hp. done. }
  destruct (query_srid tb) as [s|e] eqn:Hq.
  { apply (Hgo s). split_and!; [done | by eexists | by left]. }
  destruct (_get_srid_via_fiona (f_crs f)) as [s|] eqn:Hfi.
  { apply (Hgo s). split_and!; [done | by eexists | right; eauto]. }
  exists [EvProcessing name; EvNoSrid], GEOM_ERROR.
  split; [| done]. intros w Hw.
  unfold process_tile; unfold_m.
  rewrite Hw. simpl. rewrite Hread. simpl. rewrite Hcol, Hq, Hfi.
  unfold set_stdout. simpl. by rewrite <- app_assoc.
Qed.

Lemma handle_tile_names (sink : string → sink_io) (rg : regions)
    (name : string) (w : world) :
  ∃ evs, w_stdout (run (handle_tile sink rg name) w) = w_stdout w ++ evs
    ∧ processed_names evs = if stable_now name w then [name] else [].
Proof.
  unfold run, handle_tile, bind. rewrite is_stable_run.
  destruct (stable_now name w) eqn:Hst; simpl.
  2: { by exists [EvStillDownloading name]. }
  destruct (stable_now_file name w Hst) as [f Hf].
  destruct (process_tile_emits_file rg name f) as (evs & r & Hp & Hn).
  rewrite (Hp w Hf). simpl.
  destruct r as [| |gdf].
  - unfold _mark_processed, count_error; unfold_m. simpl.
    exists (evs ++ [EvGeometryErrorKept]). split; [by rewrite <- app_assoc |].
    by rewrite processed_names_app, Hn.
  - unfold _mark_processed, count_processed, print_progress; unfold_m. simpl.
    match goal with |- context [unlink name ?w1] =>
      destruct (unlink_run name w1) as (ev & Hev & ->) end.
    simpl. eexists (evs ++ [ev; _]). split; [by rewrite <- !app_assoc |].
    rewrite processed_names_app, Hn. destruct ev; simpl in *; done.
  - unfold _mark_processed, count_processed, print_progress; unfold_m.
    match goal with |- context [append_to_gpkg ?io gdf ?w1] =>
      pose proof (append_to_gpkg_returns io gdf w1) as Hret;
      pose proof (append_to_gpkg_frame io gdf w1) as
        (_ & _ & _ & _ & ea & Hea & Hpa);
      unfold outcome, run in Hret, Hea;
      destruct (append_to_gpkg io gdf w1) as [w2 res] end.
    simpl in *. subst res. simpl.
    match goal with |- context [unlink name ?w3] =>
      destruct (unlink_run name w3) as (ev & Hev & ->) end.
    simpl. rewrite Hea.
    eexists (evs ++ ea ++ [ev; _]). split; [by rewrite <- !app_assoc |].
    rewrite !processed_names_app, Hn, Hpa. destruct ev; simpl in *; done.
Qed.

Lemma for_each_names (sink : string → sink_io) (rg : regions)
    (l : list string) (w : world) :
  NoDup l →
  ∃ evs, w_stdout (run (for_each l (handle_tile sink rg)) w) = w_stdout w ++ evs
    ∧ processed_names evs = filter (λ m, stable_now m w = true) l.
Proof.
  revert w. induction l as [|a l IH]; intros w Hnd.
  { exists []. cbn. by rewrite app_nil_r. }
  apply NoDup_cons in Hnd as [Ha Hnd].
  destruct (handle_tile_facts sink rg a w) as (Hok & Hdir & _).
  destruct (handle_tile_names sink rg a w) as (evs & Hout & Hev).
  unfold run, outcome in *. cbn [for_each]. unfold bind.
  destruct (handle_tile sink rg a w) as [w1 res]. simpl in Hok, Hdir, Hout.
  subst res.
  destruct (IH w1 Hnd) as (evs2 & Hout2 & Hev2). unfold run in *.
  assert (Hfilter : filter (λ m, stable_now m w1 = true) l
                    = filter (λ m, stable_now m w = true) l).
  { apply filter_ext_in. intros m Hm.
    rewrite (stable_now_entry m w1 w); [done |].
    rewrite Hdir. apply dir_after_other. intros ->. done. }
  rewrite Hfilter in Hev2.
  exists (evs ++ evs2). split; [by rewrite Hout2, Hout, app_assoc |].
  rewrite processed_names_app, Hev, Hev2, filter_cons.
  destruct (stable_now a w).
  - by rewrite decide_True.
  - by rewrite decide_False.
Qed.

Lemma sorted_filter {A} (R : relation A) (P : A → Prop)
    `{!∀ x, Decision (P x)} (l : list A) :
  StronglySorted R l → StronglySorted R (filter P l).
Proof.
  induction 1 as [|x l Hs IH Hall]; [constructor |].
  rewrite filter_cons. destruct (decide (P x)); [| done].
  constructor; [done |]. apply Forall_forall.
  intros y [_ Hy]%list_elem_of_filter. by eapply Forall_forall in Hall.
Qed.

(** In one turn the loop processes exactly the candidates that are
    stable, each once, in the ascending order of their names: the names
    whose processing stdout reports during the turn are, in this order,
    the names that end in ".geojson", are in the watched directory and
    not in the ledger, and are stable. *)
Theorem turn_processes_in_order (sink : string → sink_io) (rg : regions)
    (w : world) :
  let w' := run (scan_cycle sink rg) w in
  ∃ evs,
    w_stdout w' = w_stdout w ++ evs
    ∧ StronglySorted String.le (processed_names evs)
    ∧ NoDup (processed_names evs)
    ∧ ∀ name, name ∈ processed_names evs
        ↔ is_Some (w_dir w !! name)
          ∧ Text.ends_with ".geojson" name = true
          ∧ (name ∉ ledger_names (w_ledger w))
          ∧ outcome (_is_stable name) w = Ok true.
Proof.
  intros w'. subst w'.
  set (handled := filter (λ m, stable_now m w = true) (unprocessed_files w)).
  assert (Hev : ∃ evs, w_stdout (run (scan_cycle sink rg) w) = w_stdout w ++ evs
                  ∧ processed_names evs = handled).
  { subst handled. pose proof (unprocessed_NoDup w) as Hnd.
    unfold run, scan_cycle, bind, get.
    destruct (unprocessed_files w) as [|a l'] eqn:El.
    { by exists [EvIdle]. }
    set (w0 := set_stdout (w_stdout w ++ [EvFound (length (a :: l'))]) w).
    change (print (EvFound (length (a :: l'))) w) with (w0, Ok tt).
    cbv iota beta.
    destruct (for_each_names sink rg (a :: l') w0 Hnd) as (evs & Hout & Hn).
    unfold run in Hout.
    exists ([EvFound (length (a :: l'))] ++ evs).
    split; [by rewrite Hout, app_assoc |].
    rewrite processed_names_app, Hn. simpl.
    apply filter_ext_in. intros m _. by rewrite (stable_now_entry m w0 w). }
  destruct Hev as (evs & Hout & Hn). exists evs. rewrite Hn.
  split_and!; [done | | |].
  - subst handled. unfold unprocessed_files. do 2 apply sorted_filter.
    by destruct (glob_geojson_sorted (w_dir w)).
  - apply NoDup_filter, unprocessed_NoDup.
  - intros name. subst handled.
    rewrite list_elem_of_filter, unprocessed_elem, stable_now_outcome.
    unfold is_file_processed. rewrite bool_decide_eq_false. tauto.
Qed.

(** *** When the append to the ledger fails *)

Local Abbreviation handle_tile_io := (handle_tile_io (attrs:=attrs) ST_SRID ST_Transform ST_Intersects).
Local Abbreviation scan_cycle_io := (scan_cycle_io (attrs:=attrs) ST_SRID ST_Transform ST_Intersects).
Local Abbreviation main_loop_io := (main_loop_io (attrs:=attrs) ST_SRID ST_Transform ST_Intersects).

Lemma handle_tile_io_marked (marking : string → mark_outcome)
    (sink : string → sink_io) (rg : regions) (name : string) (w : world) :
  stable_now name w = false ∨ marking name = Marked →
  handle_tile_io marking sink rg name w = handle_tile sink rg name w.
Proof.
  intros [Hst | Hm]; unfold handle_tile_io, handle_tile, bind.
  - by rewrite is_stable_run, Hst.
  - by rewrite Hm.
Qed.

(** The loop body on a stable tile whose mark fails: everything before
    the mark is done, nothing after it. *)
Lemma handle_tile_io_fails (marking : string → mark_outcome)
    (sink : string → sink_io) (rg : regions) (name : string) (w : world)
    (part : option string) :
  stable_now name w = true → marking name = MarkFails part →
  let w' := run (handle_tile_io marking sink rg name) w in
  outcome (handle_tile_io marking sink rg name) w = Raise OSError
  ∧ w_dir w' = w_dir w
  ∧ processed_count w' = processed_count w
  ∧ error_count w' = error_count w
  ∧ w_ledger w' = match part with
                  | None => w_ledger w
                  | Some p => ledger_write p (w_ledger w)
                  end
  ∧ (∃ evs, w_stdout w' = w_stdout w ++ evs ∧ processed_names evs = [name])
  ∧ (∀ gdf, outcome (process_tile rg name) w = Ok (Matched gdf) →
       io_ok (sink name) →
       w_master w' = Some (master_rows (w_master w) ++ gdf)).
Proof.
  intros Hst Hm. unfold run, outcome, handle_tile_io, bind.
  rewrite is_stable_run, Hst. simpl.
  destruct (stable_now_file name w Hst) as [f Hf].
  destruct (process_tile_emits_file rg name f) as (evs & r & Hp & Hn).
  rewrite (Hp w Hf). simpl. rewrite Hm.
  destruct r as [| |gdf].
  - destruct part as [p|]; unfold mark_processed_io; unfold_m; simpl;
      (split_and!; try done;
       exists (evs ++ [EvGeometryErrorKept]);
       split; [by rewrite <- app_assoc | by rewrite processed_names_app, Hn]).
  - destruct part as [p|]; unfold mark_processed_io; unfold_m; simpl;
      (split_and!; try done; exists evs; done).
  - set (w1 := set_stdout (w_stdout w ++ evs) w).
    pose proof (append_to_gpkg_returns (sink name) gdf w1) as Hret.
    pose proof (append_to_gpkg_frame (sink name) gdf w1)
      as (Hd & Hl & Hpc & Hec & ea & Hea & Hpa).
    pose proof (λ H, append_master_ok (sink name) gdf w1 H) as Hmok.
    unfold outcome, run in Hret, Hd, Hl, Hpc, Hec, Hea, Hmok.
    destruct (append_to_gpkg (sink name) gdf w1) as [w2 res].
    simpl in *. subst res.
    destruct part as [p|]; unfold mark_processed_io; unfold_m; simpl;
      rewrite ?Hd, ?Hl, ?Hpc, ?Hec, Hea;
      (split_and!; try done;
       [ exists (evs ++ ea);
         split; [by rewrite <- app_assoc
                | by rewrite processed_names_app, Hn, Hpa]
       | intros gdf' [= <-] Hio; by rewrite (Hmok Hio) ]).
Qed.

Lemma marks_succeed_entry (marking : string → mark_outcome)
    (l : list string) (w w1 : world) :
  (∀ m, m ∈ l → w_dir w1 !! m = w_dir w !! m) →
  marks_succeed marking l w1 = marks_succeed marking l w.
Proof.
  unfold marks_succeed. induction l as [|a l IH]; intros H; [done |].
  simpl. rewrite IH by (intros m Hm; apply H; by right).
  by rewrite (stable_now_entry a w1 w) by (apply H; by left).
Qed.

Lemma marks_succeed_false (marking : string → mark_outcome)
    (l : list string) (w : world) :
  marks_succeed marking l w = false
  ↔ ∃ m part, m ∈ l ∧ outcome (_is_stable m) w = Ok true
              ∧ marking m = MarkFails part.
Proof.
  unfold marks_succeed. induction l as [|a l IH]; simpl.
  { split; [done | by intros (m & part & Hm%elem_of_nil & _)]. }
  rewrite andb_false_iff, IH, orb_false_iff, negb_false_iff.
  rewrite stable_now_outcome. split.
  - intros [[Hst Hm] | (m & part & Hin & Hst & Hm)].
    + destruct (marking a) as [|part] eqn:E; [done |].
      exists a, part. split_and!; [by left | done | done].
    + exists m, part. split_and!; [by right | done | done].
  - intros (m & part & [-> | Hin]%elem_of_cons & Hst & Hm).
    + left. by rewrite Hm.
    + right. by exists m, part.
Qed.

Lemma for_each_io_spec (marking : string → mark_outcome)
    (sink : string → sink_io) (rg : regions) (l : list string) (w : world) :
  NoDup l →
  (marks_succeed marking l w = true →
   for_each l (handle_tile_io marking sink rg) w
   = for_each l (handle_tile sink rg) w)
  ∧ (marks_succeed marking l w = false →
     outcome (for_each l (handle_tile_io marking sink rg)) w = Raise OSError).
Proof.
  revert w. induction l as [|a l IH]; intros w Hnd; [done |].
  apply NoDup_cons in Hnd as [Ha Hnd].
  assert (Hgo : stable_now a w = false ∨ marking a = Marked →
            (marks_succeed marking l w = true →
             for_each (a :: l) (handle_tile_io marking sink rg) w
             = for_each (a :: l) (handle_tile sink rg) w)
            ∧ (marks_succeed marking l w = false →
               outcome (for_each (a :: l) (handle_tile_io marking sink rg)) w
               = Raise OSError)).
  { intros Hhead.
    pose proof (handle_tile_io_marked marking sink rg a w Hhead) as E.
    destruct (handle_tile_facts sink rg a w) as (Hok & Hdir & _).
    unfold outcome, run in *. cbn [for_each]. unfold bind. rewrite E.
    destruct (handle_tile sink rg a w) as [w1 res]. simpl in Hok, Hdir.
    subst res.
    assert (Hsame : marks_succeed marking l w1 = marks_succeed marking l w).
    { apply marks_succeed_entry. intros m Hm. rewrite Hdir.
      apply dir_after_other. intros ->. done. }
    destruct (IH w1 Hnd) as [IH1 IH2]. rewrite Hsame in IH1, IH2.
    unfold outcome in IH2. done. }
  unfold marks_succeed. simpl forallb. fold (marks_succeed marking l w).
  destruct (stable_now a w) eqn:Hst; simpl.
  - destruct (marking a) as [|part] eqn:Hm; simpl.
    + apply Hgo. by right.
    + split; [done |]. intros _.
      destruct (handle_tile_io_fails marking sink rg a w part Hst Hm)
        as (Hraise & _).
      unfold outcome in *. cbn [for_each]. unfold bind.
      destruct (handle_tile_io marking sink rg a w) as [w1 res].
      simpl in Hraise. by subst res.
  - apply Hgo. by left.
Qed.

Lemma scan_cycle_io_spec (marking : string → mark_outcome)
    (sink : string → sink_io) (rg : regions) (w : world) :
  (marks_succeed marking (unprocessed_files w) w = true →
   scan_cycle_io marking sink rg w = scan_cycle sink rg w)
  ∧ (marks_succeed marking (unprocessed_files w) w = false →
     outcome (scan_cycle_io marking sink rg) w = Raise OSError).
Proof.
  pose proof (unprocessed_NoDup w) as Hnd.
  unfold outcome, scan_cycle_io, scan_cycle, bind, get.
  destruct (unprocessed_files w) as [|a l'] eqn:El; [done |].
  set (w0 := set_stdout (w_stdout w ++ [EvFound (length (a :: l'))]) w).
  change (print (EvFound (length (a :: l'))) w) with (w0, Ok tt).
  cbv iota beta.
  destruct (for_each_io_spec marking sink rg (a :: l') w0 Hnd) as [H1 H2].
  rewrite (marks_succeed_entry marking (a :: l') w w0) in H1, H2 by done.
  split; [exact H1 | exact H2].
Qed.


Lemma unprocessed_files_same (w w1 : world) :
  w_dir w1 = w_dir w → w_ledger w1 = w_ledger w →
  unprocessed_files w1 = unprocessed_files w.
Proof.
  intros Hd Hl. unfold unprocessed_files, is_file_processed.
  by rewrite Hd, Hl.
Qed.

(** When the append to the ledger fails for a stable candidate, the loop
    body raises after the tile was processed and its rows appended: the
    file is still there, the counters are as they were, the ledger has
    received at most what the failed write left, and with a sink that
    succeeds the master output holds the rows of the tile.  When the
    ledger was not touched, the tile is a candidate of the next process
    again. *)
Theorem failed_mark_after_append (marking : string → mark_outcome)
    (sink : string → sink_io) (rg : regions) (w : world) (name : string)
    (part : option string) :
  name ∈ unprocessed_files w → outcome (_is_stable name) w = Ok true →
  marking name = MarkFails part →
  let w' := run (handle_tile_io marking sink rg name) w in
  outcome (handle_tile_io marking sink rg name) w = Raise OSError
  ∧ w_dir w' = w_dir w
  ∧ processed_count w' = processed_count w
  ∧ error_count w' = error_count w
  ∧ w_ledger w' = match part with
                  | None => w_ledger w
                  | Some p => ledger_write p (w_ledger w)
                  end
  ∧ (∃ evs, w_stdout w' = w_stdout w ++ evs ∧ processed_names evs = [name])
  ∧ (∀ gdf, outcome (process_tile rg name) w = Ok (Matched gdf) →
       io_ok (sink name) →
       w_master w' = Some (master_rows (w_master w) ++ gdf))
  ∧ (part = None → name ∈ unprocessed_files (restart w')).
Proof.
  intros Hcand Hst%stable_now_outcome Hm w'.
  destruct (handle_tile_io_fails marking sink rg name w part Hst Hm)
    as (Hraise & Hd & Hpc & Hec & Hl & Hout & Hrows).
  fold w' in Hraise, Hd, Hpc, Hec, Hl, Hout, Hrows.
  split_and!; try done.
  intros ->. rewrite (unprocessed_files_same w (restart w')); done.
Qed.

(** So the rows of a tile can be twice in the master output although
    the tile is processed once per process: when the append to the
    ledger failed without touching the file, the next process, its
    sinks and appends succeeding, processes the tile again and appends
    its rows again. *)
Theorem failed_mark_duplicates_rows (marking : string → mark_outcome)
    (sink sink2 : string → sink_io) (rg : regions) (w : world)
    (name : string) (gdf : list row) :
  name ∈ unprocessed_files w → outcome (_is_stable name) w = Ok true →
  marking name = MarkFails None →
  outcome (process_tile rg name) w = Ok (Matched gdf) →
  io_ok (sink name) → sinks_ok sink2 →
  let w1 := run (handle_tile_io marking sink rg name) w in
  let w2 := run (scan_cycle sink2 rg) (restart w1) in
  ∃ before after,
    w_master w2
    = Some (master_rows (w_master w) ++ gdf ++ before ++ gdf ++ after).
Proof.
  intros Hcand Hst%stable_now_outcome Hm Hres Hio Hs2 w1 w2.
  destruct (handle_tile_io_fails marking sink rg name w None Hst Hm)
    as (_ & Hd & _ & _ & Hl & _ & Hrows).
  fold w1 in Hd, Hl, Hrows. specialize (Hrows gdf Hres Hio).
  destruct (scan_cycle_more sink2 rg (restart w1)) as (_ & _ & Hpre & Hmore).
  fold w2 in Hpre, Hmore. specialize (Hmore Hs2).
  destruct (Hpre _ Hrows) as [extra Hw2].
  rewrite Hw2 in Hmore |- *. simpl in Hmore. rewrite Hrows in Hmore.
  simpl in Hmore. apply app_inv_head in Hmore.
  assert (Hh : name ∈ filter (λ m, stable_now m (restart w1) = true)
                        (unprocessed_files (restart w1))).
  { apply list_elem_of_filter. split.
    - rewrite <- Hst. by apply stable_now_entry; simpl; rewrite Hd.
    - by rewrite (unprocessed_files_same w (restart w1)). }
  apply list_elem_of_split in Hh as (l1 & l2 & E).
  rewrite E, fmap_app, concat_app in Hmore. simpl in Hmore.
  assert (Hname : matched_rows rg name (restart w1) = gdf).
  { rewrite (matched_rows_entry rg name (restart w1) w)
      by (simpl; by rewrite Hd).
    unfold matched_rows. by rewrite Hres. }
  rewrite Hname in Hmore.
  exists (concat ((λ m, matched_rows rg m (restart w1)) <$> l1)),
         (concat ((λ m, matched_rows rg m (restart w1)) <$> l2)).
  rewrite Hmore. by rewrite <- app_assoc.
Qed.

End Processor.

(** ** The properties on the examples *)

Import Boxes.

Lemma no_intersection_far (s : Z) (r_srid : option Z) (census : list box) :
  (∀ c, c ∈ census → intersects (moved 0 far_away) c = false) →
  no_intersection transform intersects s tb_far r_srid census.
Proof.
  intros Hc r b g c _ Hb Hin Hg.
  apply list_elem_of_singleton in Hb as ->.
  unfold transform in Hg. destruct (_ && _); [| done].
  injection Hg as <-. exact (Hc c Hin).
Defined.

Lemma far_from_us c :
  c ∈ census_us rg → intersects (moved 0 far_away) c = false.
Proof.
  intros Hc. repeat (apply elem_of_cons in Hc as [-> | Hc]; [reflexivity |]).
  by apply elem_of_nil in Hc.
Defined.

Lemma far_from_canada c :
  c ∈ census_canada rg → intersects (moved 0 far_away) c = false.
Proof.
  intros Hc. repeat (apply elem_of_cons in Hc as [-> | Hc]; [reflexivity |]).
  by apply elem_of_nil in Hc.
Defined.

Lemma in_candidates (name : string) (w : @world string box) :
  bool_decide (name ∈ unprocessed_files w) = true →
  name ∈ unprocessed_files w.
Proof. apply bool_decide_eq_true_1. Defined.

(** C1 on a world whose ledger holds the name of its file. *)
Lemma ledger_excludes_file_witness :
  "t1.geojson" ∈ ledger_names (w_ledger world_done)
  ∧ ("t1.geojson" ∉ unprocessed_files world_done)
  ∧ run (cycle (λ _, sink_ok) rg) world_done
    = set_stdout [EvIdle] world_done.
Proof.
  assert (H : "t1.geojson" ∈ ledger_names (w_ledger world_done)).
  { apply (bool_decide_eq_true_1 _). vm_compute. reflexivity. }
  destruct (ledger_excludes_file srid_of transform intersects
              (λ _, sink_ok) rg world_done "t1.geojson" H)
    as (Hnot & _ & _ & Hidle).
  split_and!; [exact H | exact Hnot |].
  apply Hidle. intros m Hm.
  assert (E : glob_geojson (w_dir world_done) = ["t1.geojson"]).
  { vm_compute. reflexivity. }
  rewrite E in Hm. apply list_elem_of_singleton in Hm as ->. exact H.
Defined.

(** C2 on the tile whose SRID cannot be detected. *)
Lemma geometry_error_keeps_file_witness :
  let w' := run (cycle (λ _, sink_ok) rg) world_untagged in
  w_dir w' !! "t3.geojson" = Some tile_untagged
  ∧ (∃ handled, "t3.geojson" ∈ handled
       ∧ w_ledger w' = marks handled (w_ledger world_untagged))
  ∧ ledger_text (w_ledger w') = ledger_record "t3.geojson"
  ∧ is_file_processed "t3.geojson" w' = true
  ∧ ("t3.geojson" ∉ unprocessed_files w').
Proof.
  intros w'.
  destruct (geometry_error_keeps_file srid_of transform intersects
              (λ _, sink_ok) rg world_untagged "t3.geojson" tile_untagged)
    as (Hdir & Hlg & _ & Hread).
  - apply in_candidates. vm_compute. reflexivity.
  - vm_compute. reflexivity.
  - vm_compute. reflexivity.
  - vm_compute. reflexivity.
  - destruct Hread as [Hp Hc]; [reflexivity | reflexivity |].
    split_and!; [exact Hdir | exact Hlg | | exact Hp | exact Hc].
    vm_compute. reflexivity.
Defined.

(** C3 as stated fails: the tile is a stable candidate, no feature of it
    intersects a polygon of either region, yet the result is not the
    empty one and the file is still there after the turn. *)
Lemma no_match_claim_fails_without_srid :
  "t3.geojson" ∈ unprocessed_files world_untagged
  ∧ outcome (_is_stable "t3.geojson") world_untagged = Ok true
  ∧ (∀ s r_srid c, c ∈ census_us rg ++ census_canada rg →
       transform (b_geom far_untagged) s r_srid = None
       ∨ ∃ g, transform (b_geom far_untagged) s r_srid = Some g
              ∧ intersects g c = false)
  ∧ outcome (process rg "t3.geojson") world_untagged ≠ Ok NoMatches
  ∧ is_Some (w_dir (run (cycle (λ _, sink_ok) rg) world_untagged)
               !! "t3.geojson").
Proof.
  split_and!.
  - apply in_candidates. vm_compute. reflexivity.
  - vm_compute. reflexivity.
  - intros s r_srid c Hc. unfold transform.
    destruct (_ && _); [right | by left]. eexists. split; [reflexivity |].
    repeat (apply elem_of_cons in Hc as [-> | Hc]; [reflexivity |]).
    by apply elem_of_nil in Hc.
  - vm_compute. discriminate.
  - exists tile_untagged. vm_compute. reflexivity.
Qed.

(** C3 as amended, on the tile far from every block. *)
Lemma no_match_marks_and_unlinks_witness :
  let w' := run (cycle (λ _, sink_ok) rg) world_far in
  outcome (process rg "t2.geojson") world_far = Ok NoMatches
  ∧ w_dir w' !! "t2.geojson" = None
  ∧ (∃ handled, "t2.geojson" ∈ handled
       ∧ w_ledger w' = marks handled (w_ledger world_far))
  ∧ ledger_text (w_ledger w') = ledger_record "t2.geojson"
  ∧ is_file_processed "t2.geojson" w' = true
  ∧ ("t2.geojson" ∉ unprocessed_files w').
Proof.
  intros w'.
  destruct (no_match_marks_and_unlinks srid_of transform intersects
              (λ _, sink_ok) rg world_far "t2.geojson" tile_far tb_far 4326)
    as (Hres & Hdir & Hlg & _ & Hread).
  - apply in_candidates. vm_compute. reflexivity.
  - vm_compute. reflexivity.
  - vm_compute. reflexivity.
  - split_and!; [reflexivity | by eexists | left; reflexivity].
  - apply no_intersection_far, far_from_us.
  - apply no_intersection_far, far_from_canada.
  - destruct Hread as [Hp Hc]; [reflexivity | reflexivity |].
    split_and!; [exact Hres | exact Hdir | exact Hlg | | exact Hp | exact Hc].
    vm_compute. reflexivity.
Defined.

Lemma clean_dir_edge :
  clean_dir ({["t1.geojson" := tile_edge]} : gmap string (@file string box)).
Proof.
  intros n [f Hn]. apply lookup_singleton_Some in Hn as [<- _]. reflexivity.
Defined.

(** C4 as stated fails: after one turn from an empty ledger and no
    output, the one tile was processed once and the master output holds
    the row of its one building twice. *)
Lemma master_holds_a_building_twice :
  let w' := run (cycle (λ _, sink_ok) rg) world_edge in
  w_ledger world_edge = None
  ∧ tb_rows tb_edge = [on_the_edge]
  ∧ processed_names (w_stdout w') = ["t1.geojson"]
  ∧ w_master w' = Some [out_row on_the_edge; out_row on_the_edge].
Proof. vm_compute. split_and!; reflexivity. Qed.

(** C4 as amended, on two turns between which the downloader puts the
    processed tile back. *)
Lemma ledger_prevents_reprocessing_witness :
  let w' := run (loop rg [turn_idle; turn_again]) world_edge in
  NoDup (processed_names (w_stdout w'))
  ∧ ∀ name, name ∈ processed_names (w_stdout w') →
      (name ∉ ledger_names (w_ledger world_edge))
      ∧ name ∈ ledger_names (w_ledger w').
Proof.
  apply (ledger_prevents_reprocessing srid_of transform intersects rg
           [turn_idle; turn_again] world_edge).
  - reflexivity.
  - reflexivity.
  - apply clean_dir_edge.
  - intros t Ht d Hd.
    apply elem_of_cons in Ht as [-> | Ht]; [exact Hd |].
    apply elem_of_cons in Ht as [-> | Ht]; [apply clean_dir_edge |].
    by apply elem_of_nil in Ht.
Defined.

(** C5 on an output of one row and a batch of two. *)
Lemma append_to_gpkg_keeps_rows_witness :
  let gdf := [out_row on_the_edge; out_row up_north] in
  w_master (run (append_to_gpkg sink_ok gdf) (empty_world ∅)) = Some gdf
  ∧ w_master (run (append_to_gpkg sink_ok gdf) world_output)
    = Some (out_row far_away :: gdf).
Proof.
  intros gdf.
  destruct (append_to_gpkg_keeps_rows sink_ok gdf (empty_world ∅))
    as (Hnew & _).
  { split_and!; reflexivity. }
  destruct (append_to_gpkg_keeps_rows sink_ok gdf world_output)
    as (_ & Hold & _).
  { split_and!; reflexivity. }
  split; [apply Hnew; reflexivity |].
  destruct (Hold [out_row far_away] eq_refl) as [Hm _]. exact Hm.
Defined.

(** C6 as stated fails: a name with a leading blank is written to the
    ledger and not found in it. *)
Lemma marked_name_with_blank_is_not_processed :
  let w := empty_world ∅ in
  is_file_processed " a.geojson" (run (_mark_processed " a.geojson") w)
  ≠ true.
Proof. vm_compute. discriminate. Qed.

(** C6 as amended, on a clean name and a missing ledger file. *)
Lemma ledger_mark_then_processed_witness :
  let w' := run (_mark_processed "t1.geojson") world_edge in
  is_file_processed "t1.geojson" w' = true
  ∧ is_file_processed "t1.geojson" (restart w') = true.
Proof.
  destruct (ledger_mark_then_processed "t1.geojson" world_edge)
    as (H1 & _ & H2 & _); [reflexivity | reflexivity |].
  split; [exact H1 | exact H2].
Defined.

(** C7 as stated fails: the result is [GEOM_ERROR] although the SRID
    is read off the geometry, and the metadata give one too. *)
Lemma geometry_error_with_srid_detected :
  ¬ (outcome (process rg "t4.geojson") world_no_column = Ok GEOM_ERROR
     → (∃ e, query_srid srid_of tb_no_column = Raise e)
       ∧ _get_srid_via_fiona (f_crs tile_no_column) = None).
Proof.
  intros H. destruct H as [_ H]; [vm_compute; reflexivity |].
  vm_compute in H. discriminate.
Qed.

(** C7 as amended, on the tile at the edge. *)
Lemma srid_detection_order_witness :
  outcome (process rg "t1.geojson") world_edge = Ok GEOM_ERROR
  ↔ (∃ e, query_srid srid_of tb_edge = Raise e)
    ∧ _get_srid_via_fiona (f_crs tile_edge) = None.
Proof.
  destruct (srid_detection_order srid_of transform intersects rg
              "t1.geojson" world_edge tile_edge tb_edge)
    as (_ & _ & H); [vm_compute; reflexivity | reflexivity | by eexists |].
  exact H.
Defined.

(** C8 on regions whose United States join raises. *)
Lemma join_failure_is_contained_witness :
  let w' := run (cycle (λ _, sink_ok) rg_us_unknown) world_north in
  (∃ e, join_sql transform intersects 4326 0 (tb_rows tb_north)
          (census_us rg_us_unknown) = Raise e)
  ∧ outcome (process rg_us_unknown "t5.geojson") world_north
    = Ok (Matched [out_row up_north])
  ∧ w_dir w' !! "t5.geojson" = None
  ∧ ∃ handled, "t5.geojson" ∈ handled
      ∧ w_ledger w' = marks handled (w_ledger world_north).
Proof.
  intros w'.
  destruct (join_failure_is_contained srid_of transform intersects
              (λ _, sink_ok) rg_us_unknown world_north "t5.geojson"
              tile_north tb_north 4326)
    as (Hus & _ & _ & Hdir & Hlg).
  - apply in_candidates. vm_compute. reflexivity.
  - vm_compute. reflexivity.
  - vm_compute. reflexivity.
  - split_and!; [reflexivity | by eexists | left; reflexivity].
  - split_and!; [by eexists | | exact Hdir | exact Hlg].
    etransitivity; [exact (Hus 0 DuckDBError eq_refl eq_refl) |].
    vm_compute. reflexivity.
Defined.

(** C9 on a sink whose write raises. *)
Lemma sink_failure_still_marks_witness :
  let w' := run (cycle (λ _, sink_write_fails) rg) world_edge in
  w_master w' = None
  ∧ is_file_processed "t1.geojson" w' = true
  ∧ ("t1.geojson" ∉ unprocessed_files w').
Proof.
  intros w'.
  destruct (sink_failure_still_marks srid_of transform intersects
              (λ _, sink_write_fails) rg world_edge "t1.geojson"
              [out_row on_the_edge; out_row on_the_edge] None)
    as (_ & _ & _ & _ & H).
  - apply in_candidates. vm_compute. reflexivity.
  - vm_compute. reflexivity.
  - vm_compute. reflexivity.
  - reflexivity.
  - destruct H as [H1 H2]; [reflexivity | reflexivity |].
    split_and!; [vm_compute; reflexivity | exact H1 | exact H2].
Defined.

(** C10 on the tile at the edge: its one building intersects both
    blocks of the United States and is twice in the result. *)
Lemma join_gives_a_row_per_polygon_witness :
  outcome (process rg "t1.geojson") world_edge
  = Ok (Matched [out_row on_the_edge; out_row on_the_edge]).
Proof.
  apply (join_gives_a_row_per_polygon srid_of transform intersects rg
           "t1.geojson" world_edge tile_edge tb_edge 4326 5070
           (moved 5070) (moved OUTPUT_CRS)).
  - vm_compute. reflexivity.
  - split_and!; [reflexivity | by eexists | left; reflexivity].
  - reflexivity.
  - intros b _. split; reflexivity.
  - intros s b g c _ Hb Hc Hg.
    apply list_elem_of_singleton in Hb as ->.
    apply list_elem_of_singleton in Hc as ->.
    unfold transform in Hg. destruct (_ && _); [| done].
    injection Hg as <-. reflexivity.
  - vm_compute. discriminate.
Defined.

(** ** Tile names *)

Module TilesFacts.
Import Tiles.
Import TextFacts.

Lemma all_chars_app (p : ascii → bool) (a b : string) :
  all_chars p (a +:+ b) = all_chars p a && all_chars p b.
Proof.
  induction a as [|c a IH]; [done |].
  rewrite app_cons. simpl. by rewrite IH, andb_assoc.
Qed.

Lemma all_chars_impl (p q : ascii → bool) (s : string) :
  (∀ c, p c = true → q c = true) →
  all_chars p s = true → all_chars q s = true.
Proof.
  intros Hpq. induction s as [|c s IH]; [done |]. simpl.
  intros [Hc Hs]%andb_true_iff. by rewrite (Hpq c Hc), IH.
Qed.

(** A digit or a minus sign. *)
Lemma numeric_char (c : ascii) :
  is_digit c || Ascii.eqb c "-" = true →
  Text.isspace c = false ∧ Ascii.eqb c "_" = false.
Proof.
  destruct c as [b0 b1 b2 b3 b4 b5 b6 b7].
  destruct b0, b1, b2, b3, b4, b5, b6, b7; vm_compute; intros H;
    first [discriminate H | split; reflexivity].
Qed.

Lemma digit_char (c : ascii) :
  is_digit c = true →
  Ascii.eqb c "-" = false ∧ Ascii.eqb c "+" = false
  ∧ ∃ d, digit_of c = Some d.
Proof.
  destruct c as [b0 b1 b2 b3 b4 b5 b6 b7].
  destruct b0, b1, b2, b3, b4, b5, b6, b7; vm_compute; intros H;
    first [discriminate H
          | split; [reflexivity | split; [reflexivity | by eexists]]].
Qed.

Lemma uint_digits (d : Decimal.uint) :
  all_chars is_digit (DecimalString.NilEmpty.string_of_uint d) = true.
Proof. induction d; simpl; by rewrite ?IHd. Qed.

Lemma decimal_digits (n : nat) : all_chars is_digit (decimal n) = true.
Proof.
  unfold decimal, DecimalString.NilZero.string_of_uint.
  destruct (Nat.to_uint n); try apply (uint_digits (_ _)); done.
Qed.

Lemma decimal_not_empty (n : nat) :
  ∃ c r, decimal n = String c r ∧ is_digit c = true.
Proof.
  pose proof (decimal_digits n) as H.
  unfold decimal, DecimalString.NilZero.string_of_uint in *.
  destruct (Nat.to_uint n); simpl in *; eauto.
Qed.

Lemma zeros_digits (k : nat) : all_chars is_digit (zeros k) = true.
Proof. induction k; [done |]. simpl. by rewrite IHk. Qed.

(** The value of a string of digits. *)
Lemma parse_uint (d : Decimal.uint) (acc : nat) (b : bool) :
  d ≠ Decimal.Nil ∨ b = true →
  parse_digits acc b (DecimalString.NilEmpty.string_of_uint d)
  = Some (Nat.of_uint_acc d acc).
Proof.
  revert acc b. induction d; intros acc b Hb; simpl;
    try (rewrite IHd by (by right); do 2 f_equal;
         rewrite Nat.tail_mul_spec; lia).
  by destruct Hb as [? | ->].
Qed.

Lemma parse_decimal (n : nat) (b : bool) :
  parse_digits 0 b (decimal n) = Some n.
Proof.
  unfold decimal, DecimalString.NilZero.string_of_uint.
  rewrite <- (DecimalNat.Unsigned.of_to n) at 2. unfold Nat.of_uint.
  destruct (Nat.to_uint n); [reflexivity | ..]; by apply parse_uint; left.
Qed.

Lemma parse_zeros (k : nat) (b : bool) (s : string) :
  parse_digits 0 b (zeros k +:+ s)
  = parse_digits 0 (b || bool_decide (0 < k)%nat) s.
Proof.
  revert b. induction k as [|k IH]; intros b.
  - rewrite app_nil. by rewrite orb_false_r.
  - simpl zeros. rewrite app_cons. simpl. rewrite IH. simpl.
    by rewrite orb_true_r.
Qed.

Lemma lstrip_id (s : string) :
  all_chars (λ c, negb (Text.isspace c)) s = true → Text.lstrip s = s.
Proof.
  destruct s as [|c s]; [done |]. simpl.
  intros [Hc _]%andb_true_iff. apply negb_true_iff in Hc. by rewrite Hc.
Qed.

Lemma rstrip_id (s : string) :
  all_chars (λ c, negb (Text.isspace c)) s = true → Text.rstrip s = s.
Proof.
  induction s as [|c s IH]; [done |]. simpl.
  intros [Hc Hs]%andb_true_iff. apply negb_true_iff in Hc.
  rewrite (IH Hs), Hc. by destruct s.
Qed.

Lemma strip_id (s : string) :
  all_chars (λ c, negb (Text.isspace c)) s = true → Text.strip s = s.
Proof. intros H. unfold Text.strip. by rewrite lstrip_id, rstrip_id. Qed.

(** The characters of a formatted number. *)
Lemma format_d_chars (width : nat) (z : Z) :
  all_chars (λ c, is_digit c || Ascii.eqb c "-") (format_d width z) = true.
Proof.
  assert (Himp : ∀ c, is_digit c = true
                       → is_digit c || Ascii.eqb c "-" = true).
  { by intros c ->. }
  unfold format_d. rewrite !all_chars_app.
  rewrite (all_chars_impl _ _ _ Himp (zeros_digits _)).
  rewrite (all_chars_impl _ _ _ Himp (decimal_digits _)).
  by destruct (z <? 0).
Qed.

Lemma format_d_no_space (width : nat) (z : Z) :
  all_chars (λ c, negb (Text.isspace c)) (format_d width z) = true.
Proof.
  eapply all_chars_impl; [| apply format_d_chars].
  intros c Hc. simpl. by destruct (numeric_char c Hc) as [-> _].
Qed.

Lemma format_d_no_underscore (width : nat) (z : Z) :
  all_chars (λ c, negb (Ascii.eqb c "_")) (format_d width z) = true.
Proof.
  eapply all_chars_impl; [| apply format_d_chars].
  intros c Hc. simpl. by destruct (numeric_char c Hc) as [_ ->].
Qed.

(** [int] reads back what the format wrote, whatever the width and the
    sign. *)
Lemma py_int_format_d (width : nat) (z : Z) :
  py_int (format_d width z) = Some z.
Proof.
  unfold py_int. rewrite strip_id by apply format_d_no_space.
  unfold format_d. destruct (z <? 0) eqn:Hz.
  - apply Z.ltb_lt in Hz. rewrite app_cons, app_nil. simpl.
    rewrite parse_zeros, parse_decimal. simpl. f_equal. lia.
  - apply Z.ltb_ge in Hz. rewrite app_nil.
    set (k := (width - _ - _)%nat).
    assert (Hs : ∃ c r, zeros k +:+ decimal (Z.abs_nat z) = String c r
                        ∧ is_digit c = true).
    { destruct k as [|k]; [rewrite app_nil; apply decimal_not_empty |].
      simpl zeros. rewrite app_cons. eauto. }
    destruct Hs as (c & r & Hs & Hc).
    pose proof (parse_zeros k false (decimal (Z.abs_nat z))) as Hp.
    rewrite parse_decimal, Hs in Hp. rewrite Hs.
    destruct (digit_char c Hc) as (-> & -> & _). rewrite Hp. simpl.
    f_equal. lia.
Qed.

Lemma split_on_not_nil (sep : ascii) (s : string) : split_on sep s ≠ [].
Proof.
  induction s as [|c s IH]; simpl; [done |].
  destruct (Ascii.eqb c sep); [done |]. by destruct (split_on sep s).
Qed.

Lemma split_on_no_sep (sep : ascii) (s : string) :
  all_chars (λ c, negb (Ascii.eqb c sep)) s = true → split_on sep s = [s].
Proof.
  induction s as [|c s IH]; [done |]. simpl.
  intros [Hc Hs]%andb_true_iff. apply negb_true_iff in Hc.
  by rewrite Hc, (IH Hs).
Qed.

Lemma split_on_app (sep : ascii) (a b : string) :
  all_chars (λ c, negb (Ascii.eqb c sep)) a = true →
  split_on sep (a +:+ String sep b) = a :: split_on sep b.
Proof.
  induction a as [|c a IH]; rewrite ?app_nil, ?app_cons; simpl.
  - intros _. by rewrite Ascii.eqb_refl.
  - intros [Hc Ha]%andb_true_iff. apply negb_true_iff in Hc.
    by rewrite Hc, (IH Ha).
Qed.

(** The two parts of a tile name. *)
Lemma split_tile_name (lat lon : Z) :
  split_on "_" (get_tile_name lat lon)
  = [String "N" (format_d 2 (lat / 5 * 5));
     String "W" (format_d 3 (Z.abs (lon / 5 * 5)))].
Proof.
  unfold get_tile_name. rewrite split_on_app.
  - f_equal. apply split_on_no_sep. simpl.
    by rewrite format_d_no_underscore.
  - simpl. by rewrite format_d_no_underscore.
Qed.

Lemma tile_to_filename_of_name (lat lon : Z) :
  tile_to_filename (get_tile_name lat lon)
  = Some (String "w" (format_d 3 (Z.abs (lon / 5 * 5)))
          +:+ String "_" (String "n" (format_d 2 (lat / 5 * 5 + 5)))
          +:+ String "_" (String "w" (format_d 3 (Z.abs (lon / 5 * 5) - 5)))
          +:+ String "_" (String "n" (format_d 2 (lat / 5 * 5)))).
Proof.
  unfold tile_to_filename. rewrite split_tile_name. simpl.
  by rewrite !py_int_format_d.
Qed.

(** The file named for the tile of a point covers it: for every point,
    [tile_to_filename] reads the name [get_tile_name] gave and answers
    w<W>_n<N>_w<E>_n<S> with S <= lat < N = S + 5, and for a point west
    of Greenwich -W <= lon < -E = -W + 5. *)
Theorem tile_file_covers_point (lat lon : Z) :
  let south := lat / 5 * 5 in
  let west := Z.abs (lon / 5 * 5) in
  tile_to_filename (get_tile_name lat lon)
  = Some (String "w" (format_d 3 west)
          +:+ String "_" (String "n" (format_d 2 (south + 5)))
          +:+ String "_" (String "w" (format_d 3 (west - 5)))
          +:+ String "_" (String "n" (format_d 2 south)))
  ∧ south ≤ lat < south + 5
  ∧ (lon < 0 → - west ≤ lon < - (west - 5)).
Proof.
  intros south west. split; [| split].
  - apply tile_to_filename_of_name.
  - subst south. pose proof (Z.div_mod lat 5 ltac:(done)).
    pose proof (Z.mod_pos_bound lat 5 ltac:(done)). lia.
  - intros Hlon. subst west. pose proof (Z.div_mod lon 5 ltac:(done)).
    pose proof (Z.mod_pos_bound lon 5 ltac:(done)). lia.
Qed.

Lemma tile_name_inv (lat lon lat' lon' : Z) :
  get_tile_name lat lon = get_tile_name lat' lon' →
  lat / 5 * 5 = lat' / 5 * 5 ∧ Z.abs (lon / 5 * 5) = Z.abs (lon' / 5 * 5).
Proof.
  intros H. pose proof (f_equal (split_on "_") H) as Hs.
  rewrite !split_tile_name in Hs. injection Hs as Hlat Hlon.
  apply (f_equal py_int) in Hlat, Hlon.
  rewrite !py_int_format_d in Hlat, Hlon.
  by injection Hlat as ->; injection Hlon as ->.
Qed.

(** Two points get the same tile name exactly when they lie in the same
    band of latitude and in columns of longitude at the same distance
    from Greenwich: the name does not tell east from west. *)
Theorem tile_name_eq_iff (lat lon lat' lon' : Z) :
  get_tile_name lat lon = get_tile_name lat' lon'
  ↔ lat / 5 = lat' / 5 ∧ Z.abs (lon / 5) = Z.abs (lon' / 5).
Proof.
  split.
  - intros [Hlat Hlon]%tile_name_inv. lia.
  - intros [Hlat Hlon]. unfold get_tile_name.
    rewrite Hlat. by replace (Z.abs (lon / 5 * 5)) with (Z.abs (lon' / 5 * 5))
      by lia.
Qed.

(** A tile name without underscore makes [tile_to_filename] raise. *)
Theorem tile_to_filename_needs_underscore (tile_name : string) :
  all_chars (λ c, negb (Ascii.eqb c "_")) tile_name = true →
  tile_to_filename tile_name = None.
Proof.
  intros H. unfold tile_to_filename. by rewrite split_on_no_sep.
Qed.

End TilesFacts.

(** ** The tiles requested for a geometry *)

Module CoverFacts.
Import Tiles.
Import QArith_base Qround.
Local Close Scope Q_scope.
Local Open Scope Z_scope.

Lemma int_of_float_floor (x : Q) :
  Qfloor x ≤ int_of_float x ≤ Qfloor x + 1.
Proof.
  destruct x as [n d]. unfold int_of_float, Qfloor. simpl.
  pose proof (Pos2Z.is_pos d). Z.to_euclidean_division_equations. nia.
Qed.

Lemma int_of_float_above (x : Q) :
  Qfloor x < int_of_float x →
  Qnum x < 0 ∧ Qnum x mod Z.pos (Qden x) ≠ 0 ∧ int_of_float x = Qceiling x.
Proof.
  destruct x as [n d]. unfold int_of_float, Qceiling, Qfloor. simpl.
  pose proof (Pos2Z.is_pos d). Z.to_euclidean_division_equations. nia.
Qed.

Lemma int_of_float_neg (x : Q) :
  Qnum x < 0 → int_of_float x = Qceiling x.
Proof.
  destruct x as [n d]. unfold int_of_float, Qceiling, Qfloor. simpl.
  pose proof (Pos2Z.is_pos d). Z.to_euclidean_division_equations. nia.
Qed.

Lemma int_of_float_nonpos (x : Q) : (x <= 0)%Q → int_of_float x ≤ 0.
Proof.
  destruct x as [n d]. unfold int_of_float, Qle. simpl.
  pose proof (Pos2Z.is_pos d). Z.to_euclidean_division_equations. nia.
Qed.

Lemma Qfloor_below (x : Q) (z : Z) : (x < inject_Z z)%Q → Qfloor x < z.
Proof.
  intros H. rewrite Zlt_Qlt.
  exact (Qle_lt_trans _ _ _ (Qfloor_le x) H).
Qed.

Lemma below_ceiling (x : Q) :
  Qnum x mod Z.pos (Qden x) ≠ 0 → (x < inject_Z (Qceiling x))%Q.
Proof.
  destruct x as [n d]. unfold Qlt, Qceiling, Qfloor. simpl.
  pose proof (Pos2Z.is_pos d). intros Hm. rewrite Z.mul_1_r.
  pose proof (Z.div_mod (- n) (Z.pos d) ltac:(lia)).
  pose proof (Z.mod_pos_bound (- n) (Z.pos d) ltac:(lia)).
  assert ((- n) mod Z.pos d ≠ 0).
  { intros E. apply Hm. apply Z.mod_divide in E; [| lia].
    apply Z.mod_divide; [lia |]. destruct E as [k E]. exists (- k). lia. }
  nia.
Qed.

Lemma low_edge_cut_true (lo : Q) :
  low_edge_cut lo = true
  ↔ Qnum lo < 0 ∧ Qnum lo mod Z.pos (Qden lo) ≠ 0 ∧ Qceiling lo mod 5 = 0.
Proof.
  unfold low_edge_cut. rewrite !andb_true_iff, negb_true_iff.
  rewrite Z.ltb_lt, !Z.eqb_eq, Z.eqb_neq. tauto.
Qed.

Lemma elem_of_add_all {A} (f : A → string) (l : list A) (t0 : gset string)
    (x : string) :
  x ∈ foldl (λ tiles a, {[ f a ]} ∪ tiles) t0 l
  ↔ x ∈ t0 ∨ ∃ a, a ∈ l ∧ x = f a.
Proof.
  revert t0. induction l as [|b l IH]; intros t0; simpl.
  - split; [by left | intros [? | (a & Ha%elem_of_nil & _)]; done].
  - rewrite IH. rewrite elem_of_union, elem_of_singleton. split.
    + intros [[-> | ?] | (a & Ha & ->)].
      * right. exists b. split; [by left | done].
      * by left.
      * right. exists a. split; [by right | done].
    + intros [? | (a & [-> | Ha]%elem_of_cons & ->)].
      * left. by right.
      * left. by left.
      * right. by exists a.
Qed.

Lemma elem_of_tiles (minx miny maxx maxy : Q) (tile : string) :
  tile ∈ get_tiles_for_geometry minx miny maxx maxy
  ↔ ∃ lat lon,
      lat ∈ range (int_of_float miny) (int_of_float maxy + 2)
      ∧ lon ∈ range (int_of_float minx) (int_of_float maxx + 2)
      ∧ tile = get_tile_name lat lon.
Proof.
  unfold get_tiles_for_geometry.
  generalize (range (int_of_float miny) (int_of_float maxy + 2)) as lats.
  generalize (range (int_of_float minx) (int_of_float maxx + 2)) as lons.
  intros lons lats.
  assert (H : ∀ t0 : gset string,
            tile ∈ foldl (λ tiles lat,
                     foldl (λ tiles lon, {[ get_tile_name lat lon ]} ∪ tiles)
                       tiles lons) t0 lats
            ↔ tile ∈ t0 ∨ ∃ lat lon, lat ∈ lats ∧ lon ∈ lons
                                     ∧ tile = get_tile_name lat lon).
  { induction lats as [|a lats IH]; intros t0; simpl.
    - split; [by left | intros [? | (? & ? & Ha%elem_of_nil & _)]; done].
    - rewrite IH, (elem_of_add_all (get_tile_name a)). split.
      + intros [[? | (lon & Hlon & ->)] | (lat & lon & Hlat & Hlon & ->)].
        * by left.
        * right. exists a, lon. split; [by left | done].
        * right. exists lat, lon. split; [by right | done].
      + intros [? | (lat & lon & [-> | Hlat]%elem_of_cons & Hlon & ->)].
        * left. by left.
        * left. right. by exists lon.
        * right. by exists lat, lon. }
  rewrite H. split; [intros [?%elem_of_empty | ?]; done | by right].
Qed.

(** Along one axis, the range holds a whole number of the 5-degree
    cell of every point between the bounds, unless [int] cut the lower
    bound. *)
Lemma axis_covered (lo hi p : Q) :
  low_edge_cut lo = false → (lo <= p)%Q → (p <= hi)%Q →
  ∃ k, k ∈ range (int_of_float lo) (int_of_float hi + 2)
       ∧ k / 5 = Qfloor p / 5.
Proof.
  intros Hcut Hlo Hhi.
  apply Qfloor_resp_le in Hlo, Hhi.
  pose proof (int_of_float_floor lo) as Hl.
  pose proof (int_of_float_floor hi) as Hh.
  destruct (Z_lt_le_dec (Qfloor p) (int_of_float lo)) as [Hlt | Hge].
  - destruct (int_of_float_above lo) as (Hneg & Hmod & Hceil); [lia |].
    assert (Hc : Qceiling lo mod 5 ≠ 0).
    { intros Hc. apply not_true_iff_false in Hcut. apply Hcut.
      by apply low_edge_cut_true. }
    exists (int_of_float lo). split.
    + unfold range. apply elem_of_seqZ. lia.
    + rewrite <- Hceil in Hc.
      assert (Qfloor p = int_of_float lo - 1) as -> by lia.
      Z.to_euclidean_division_equations. lia.
  - exists (Qfloor p). split; [| done].
    unfold range. apply elem_of_seqZ. lia.
Qed.

(** [get_tiles_for_geometry] returns the tile of every point of the
    bounding box when [int] cuts neither lower bound. *)
Theorem tiles_cover_box (minx miny maxx maxy lat lon : Q) :
  low_edge_cut minx = false → low_edge_cut miny = false →
  (minx <= lon <= maxx)%Q → (miny <= lat <= maxy)%Q →
  tile_of_point lat lon ∈ get_tiles_for_geometry minx miny maxx maxy.
Proof.
  intros Hx Hy [Hx1 Hx2] [Hy1 Hy2].
  destruct (axis_covered minx maxx lon Hx Hx1 Hx2) as (lon' & Hlon & Elon).
  destruct (axis_covered miny maxy lat Hy Hy1 Hy2) as (lat' & Hlat & Elat).
  apply elem_of_tiles. exists lat', lon'. split; [done |]. split; [done |].
  unfold tile_of_point, get_tile_name. by rewrite Elat, Elon.
Qed.

(** West of Greenwich, when [int] cuts the west bound, the tiles
    returned start at the tile border east of it: the west bound itself
    lies west of that border, and no point west of it has its tile in
    the result, whatever its latitude. *)
Theorem tiles_miss_western_strip (minx miny maxx maxy : Q) :
  low_edge_cut minx = true → (maxx <= 0)%Q →
  (minx < inject_Z (Qceiling minx))%Q
  ∧ ∀ lat lon, (lon < inject_Z (Qceiling minx))%Q →
      tile_of_point lat lon ∉ get_tiles_for_geometry minx miny maxx maxy.
Proof.
  intros (Hneg & Hmod & Hc)%low_edge_cut_true Hmax.
  split; [by apply below_ceiling |].
  intros lat lon Hlt (lat' & lon' & _ & Hlon & Heq)%elem_of_tiles.
  apply TilesFacts.tile_name_inv in Heq as [_ Heq].
  unfold range in Hlon. apply elem_of_seqZ in Hlon.
  rewrite (int_of_float_neg minx Hneg) in Hlon.
  apply int_of_float_nonpos in Hmax. apply Qfloor_below in Hlt.
  revert Heq Hc Hlon Hlt Hmax.
  generalize (Qfloor lon) (Qceiling minx) (int_of_float maxx).
  intros fl c m. Z.to_euclidean_division_equations. lia.
Qed.

(** Every tile returned has a file name: the mapping of the tiles, which
    has no handler, does not raise on them.  The file is the one of a
    band and a column that the ranges reach. *)
Theorem tiles_have_filenames (minx miny maxx maxy : Q) (tile : string) :
  tile ∈ get_tiles_for_geometry minx miny maxx maxy →
  ∃ south west,
    int_of_float miny - 4 ≤ south ≤ int_of_float maxy + 1
    ∧ int_of_float minx - 4 ≤ west ≤ int_of_float maxx + 1
    ∧ south mod 5 = 0 ∧ west mod 5 = 0
    ∧ tile_to_filename tile
      = Some (String "w" (format_d 3 (Z.abs west))
              +:+ String "_" (String "n" (format_d 2 (south + 5)))
              +:+ String "_" (String "w" (format_d 3 (Z.abs west - 5)))
              +:+ String "_" (String "n" (format_d 2 south))).
Proof.
  intros (lat & lon & Hlat & Hlon & ->)%elem_of_tiles.
  unfold range in Hlat, Hlon. apply elem_of_seqZ in Hlat, Hlon.
  exists (lat / 5 * 5), (lon / 5 * 5).
  split_and!; try (Z.to_euclidean_division_equations; lia).
  apply TilesFacts.tile_to_filename_of_name.
Qed.

End CoverFacts.

(** ** The further properties on the examples *)

Lemma clean_dir_growing :
  clean_dir ({["t6.geojson" := tile_growing]} : gmap string (@file string box)).
Proof.
  intros n [f Hn]. apply lookup_singleton_Some in Hn as [<- _]. reflexivity.
Defined.

Lemma sinks_all_ok : sinks_ok (λ _ : string, sink_ok).
Proof. intros name. split_and!; reflexivity. Defined.

Lemma sink_ok_io_ok : io_ok sink_ok.
Proof. split_and!; reflexivity. Defined.

(** Three marks, one of a name already in the ledger and repeated. *)
Lemma ledger_reads_back_marks_witness :
  let names := ["t1.geojson"; "t2.geojson"; "t1.geojson"] in
  let w' := run (for_each names _mark_processed) world_done in
  ledger_names (w_ledger w')
  = ["t1.geojson"; "t1.geojson"; "t2.geojson"; "t1.geojson"]
  ∧ outcome (_is_file_processed "t2.geojson") w' = Ok true
  ∧ outcome (_is_file_processed "t3.geojson") w' = Ok false.
Proof.
  intros names w'.
  destruct (ledger_reads_back_marks names world_done) as [Hn Hp].
  - reflexivity.
  - repeat constructor.
  - split_and!; [exact Hn | |].
    + etransitivity; [exact (Hp "t2.geojson") |]. vm_compute. reflexivity.
    + etransitivity; [exact (Hp "t3.geojson") |]. vm_compute. reflexivity.
Defined.

(** A tile without features and with an EPSG code has no match. *)
Lemma empty_tile_result_witness :
  outcome (process rg "t7.geojson") world_empty_tile = Ok NoMatches.
Proof.
  apply (empty_tile_result srid_of transform intersects rg "t7.geojson"
           world_empty_tile tile_empty tb_empty).
  - vm_compute. reflexivity.
  - reflexivity.
  - by eexists.
  - reflexivity.
Defined.

(** Both joins raise on regions of unknown SRID: the tile with a
    building in Canada is handled as one without matches. *)
Lemma failed_joins_count_as_no_match_witness :
  let w' := run (cycle (λ _, sink_ok) rg_unknown) world_north in
  outcome (process rg_unknown "t5.geojson") world_north = Ok NoMatches
  ∧ w_dir w' !! "t5.geojson" = None
  ∧ ledger_text (w_ledger w') = ledger_record "t5.geojson"
  ∧ is_file_processed "t5.geojson" w' = true
  ∧ ("t5.geojson" ∉ unprocessed_files w').
Proof.
  intros w'.
  destruct (failed_joins_count_as_no_match srid_of transform intersects
              (λ _, sink_ok) rg_unknown world_north "t5.geojson" tile_north
              tb_north 4326)
    as (Hres & Hdir & _ & _ & Hread).
  - apply in_candidates. vm_compute. reflexivity.
  - vm_compute. reflexivity.
  - vm_compute. reflexivity.
  - split_and!; [reflexivity | by eexists | left; reflexivity].
  - intros us [= <-]. eexists. vm_compute. reflexivity.
  - intros ca [= <-]. eexists. vm_compute. reflexivity.
  - destruct Hread as [Hp Hc]; [reflexivity | reflexivity |].
    split_and!; [exact Hres | exact Hdir | | exact Hp | exact Hc].
    vm_compute. reflexivity.
Defined.

(** The building across the border is in the result once for each
    region, after the buildings of the United States and after those of
    Canada. *)
Lemma both_regions_rows_witness :
  outcome (process rg_border "t8.geojson") world_border
  = Ok (Matched [out_row south_house; out_row border_house;
                 out_row north_house; out_row border_house]).
Proof.
  etransitivity.
  - apply (both_regions_rows srid_of transform intersects rg_border
             "t8.geojson" world_border tile_border tb_border 4326 5070 3347
             (moved 5070) (moved 3347) (moved OUTPUT_CRS)).
    + vm_compute. reflexivity.
    + split_and!; [reflexivity | by eexists | left; reflexivity].
    + reflexivity.
    + reflexivity.
    + intros b _. split_and!; reflexivity.
  - vm_compute. reflexivity.
Defined.

(** Two appends to an output of one row. *)
Lemma append_twice_witness :
  w_master (run (append_to_gpkg sink_ok [out_row up_north])
              (run (append_to_gpkg sink_ok [out_row on_the_edge])
                 world_output))
  = Some [out_row far_away; out_row on_the_edge; out_row up_north].
Proof.
  apply (append_twice sink_ok sink_ok [out_row on_the_edge]
           [out_row up_north] world_output);
    apply sink_ok_io_ok.
Defined.

(** A first batch whose write raises and leaves nothing is not in the
    output that the second append creates. *)
Lemma append_after_failed_create_witness :
  let w1 := run (append_to_gpkg sink_write_fails [out_row on_the_edge])
              (empty_world ∅) in
  w_master w1 = None
  ∧ w_master (run (append_to_gpkg sink_ok [out_row up_north]) w1)
    = Some [out_row up_north].
Proof.
  apply (append_after_failed_create sink_write_fails sink_ok
           [out_row on_the_edge] [out_row up_north] None (empty_world ∅)).
  - reflexivity.
  - reflexivity.
  - reflexivity.
  - apply sink_ok_io_ok.
Defined.

(** A turn on the tile at the edge, beside an output of one row. *)
Lemma cycle_master_rows_witness :
  master_rows (w_master (run (cycle (λ _, sink_ok) rg) world_edge_output))
  = [out_row far_away; out_row on_the_edge; out_row on_the_edge].
Proof.
  etransitivity.
  - apply (cycle_master_rows srid_of transform intersects (λ _, sink_ok) rg
             world_edge_output sinks_all_ok).
  - vm_compute. reflexivity.
Defined.

(** The file that the turn removed was a stable candidate and not a
    geometry error. *)
Lemma cycle_only_removes_handled_witness :
  let w' := run (cycle (λ _, sink_ok) rg) world_far in
  w_dir w' !! "t2.geojson" = None
  ∧ "t2.geojson" ∈ unprocessed_files world_far
  ∧ outcome (_is_stable "t2.geojson") world_far = Ok true
  ∧ outcome (process rg "t2.geojson") world_far ≠ Ok GEOM_ERROR.
Proof.
  apply (cycle_only_removes_handled srid_of transform intersects
           (λ _, sink_ok) rg world_far "t2.geojson").
  vm_compute. discriminate.
Defined.

(** The tile that is still growing waits for the next turn. *)
Lemma unstable_tile_waits_witness :
  let w' := run (cycle (λ _, sink_ok) rg) world_growing in
  w_dir w' !! "t6.geojson" = w_dir world_growing !! "t6.geojson"
  ∧ (∃ evs, w_stdout w' = w_stdout world_growing ++ evs
            ∧ "t6.geojson" ∉ processed_names evs)
  ∧ "t6.geojson" ∈ unprocessed_files w'.
Proof.
  apply (unstable_tile_waits srid_of transform intersects (λ _, sink_ok) rg
           world_growing "t6.geojson").
  - apply in_candidates. vm_compute. reflexivity.
  - vm_compute. reflexivity.
  - reflexivity.
  - apply clean_dir_growing.
Defined.

(** Two turns beside an output of one row: the row stays first. *)
Lemma master_only_grows_witness :
  ∃ extra,
    w_master (run (loop rg [turn_idle; turn_again]) world_edge_output)
    = Some ([out_row far_away] ++ extra).
Proof.
  apply (master_only_grows srid_of transform intersects rg
           [turn_idle; turn_again] world_edge_output [out_row far_away]).
  reflexivity.
Defined.

(** The tile processed before the restart is put back by the
    downloader after it, and is not processed again. *)
Lemma restart_does_not_reprocess_witness :
  let w1 := run (loop rg [turn_idle]) world_edge in
  let w2 := run (loop rg [turn_again]) (restart w1) in
  "t1.geojson" ∈ processed_names (w_stdout w1)
  ∧ "t1.geojson" ∉ processed_names (w_stdout w2).
Proof.
  intros w1 w2.
  assert (H1 : "t1.geojson" ∈ processed_names (w_stdout w1)).
  { apply (bool_decide_eq_true_1 _). vm_compute. reflexivity. }
  split; [exact H1 |].
  apply (restart_does_not_reprocess srid_of transform intersects rg
           [turn_idle] [turn_again] world_edge "t1.geojson").
  - reflexivity.
  - reflexivity.
  - apply clean_dir_edge.
  - intros t Ht d Hd.
    apply elem_of_cons in Ht as [-> | Ht]; [exact Hd |].
    apply elem_of_cons in Ht as [-> | Ht]; [apply clean_dir_edge |].
    by apply elem_of_nil in Ht.
  - exact H1.
Defined.

(** With no file for the United States and a Canadian file without
    EPSG code, [main] leaves the tile where it is. *)
Lemma main_aborts_without_census_witness :
  start ext_loaded None (Some census_without_epsg) [turn_idle] world_edge
  = (world_edge, Ok tt).
Proof.
  apply (main_aborts_without_census srid_of transform intersects ext_loaded
           None (Some census_without_epsg) [turn_idle] world_edge).
  right. split; reflexivity.
Defined.

(** A name of one part. *)
Lemma tile_to_filename_needs_underscore_witness :
  Tiles.tile_to_filename "N45" = None.
Proof.
  apply (TilesFacts.tile_to_filename_needs_underscore "N45"). reflexivity.
Defined.

(** A box from 76.4 to 74.1 degrees west, between 45.2 and 45.8 degrees
    north, and the point at 76.3 degrees west in it. *)
Lemma tiles_cover_box_witness :
  "N45_W080"
  ∈ Tiles.get_tiles_for_geometry
      (QArith_base.Qmake (-764) 10) (QArith_base.Qmake 452 10)
      (QArith_base.Qmake (-741) 10) (QArith_base.Qmake 458 10).
Proof.
  apply (CoverFacts.tiles_cover_box
           (QArith_base.Qmake (-764) 10) (QArith_base.Qmake 452 10)
           (QArith_base.Qmake (-741) 10) (QArith_base.Qmake 458 10)
           (QArith_base.Qmake 455 10) (QArith_base.Qmake (-763) 10)).
  - reflexivity.
  - reflexivity.
  - split; vm_compute; discriminate.
  - split; vm_compute; discriminate.
Defined.

(** A box from 75.6 to 75.2 degrees west: it lies in the tile from 80
    to 75 degrees west, which is not returned for it. *)
Lemma tiles_miss_western_strip_witness :
  "N45_W080"
  ∉ Tiles.get_tiles_for_geometry
      (QArith_base.Qmake (-756) 10) (QArith_base.Qmake 452 10)
      (QArith_base.Qmake (-752) 10) (QArith_base.Qmake 458 10).
Proof.
  destruct (CoverFacts.tiles_miss_western_strip
              (QArith_base.Qmake (-756) 10) (QArith_base.Qmake 452 10)
              (QArith_base.Qmake (-752) 10) (QArith_base.Qmake 458 10))
    as [_ H].
  - reflexivity.
  - vm_compute; discriminate.
  - apply (H (QArith_base.Qmake 455 10) (QArith_base.Qmake (-754) 10)).
    vm_compute; reflexivity.
Defined.

(** The tile from 80 to 75 degrees west, returned for the box from 76.4
    to 74.1 degrees west, and its file. *)
Lemma tiles_have_filenames_witness :
  ∃ south west,
    (41 ≤ south ≤ 46 ∧ -80 ≤ west ≤ -73 ∧ south mod 5 = 0 ∧ west mod 5 = 0)
    ∧ Tiles.tile_to_filename "N45_W080"
      = Some (String "w" (Tiles.format_d 3 (Z.abs west))
              +:+ String "_" (String "n" (Tiles.format_d 2 (south + 5)))
              +:+ String "_" (String "w" (Tiles.format_d 3 (Z.abs west - 5)))
              +:+ String "_" (String "n" (Tiles.format_d 2 south))).
Proof.
  destruct (CoverFacts.tiles_have_filenames
              (QArith_base.Qmake (-764) 10) (QArith_base.Qmake 452 10)
              (QArith_base.Qmake (-741) 10) (QArith_base.Qmake 458 10)
              "N45_W080")
    as (south & west & Hs & Hw & Hs5 & Hw5 & Hf).
  - apply CoverFacts.elem_of_tiles. exists 45, (-76).
    split_and!; [| | reflexivity];
      apply (bool_decide_eq_true_1 _); vm_compute; reflexivity.
  - exists south, west. split; [| exact Hf].
    split; [exact Hs | split; [exact Hw | split; [exact Hs5 | exact Hw5]]].
Defined.

(** The tile at the edge, with an append to the ledger that fails: its
    two rows are in the output, the ledger file is still missing, and
    the tile is a candidate again after a restart. *)
Lemma failed_mark_after_append_witness :
  let w' := run (handle_io mark_fails (λ _, sink_ok) rg "t1.geojson")
              world_edge in
  outcome (handle_io mark_fails (λ _, sink_ok) rg "t1.geojson") world_edge
  = Raise OSError
  ∧ w_dir w' = w_dir world_edge
  ∧ w_ledger w' = None
  ∧ w_master w' = Some [out_row on_the_edge; out_row on_the_edge]
  ∧ "t1.geojson" ∈ unprocessed_files (restart w').
Proof.
  intros w'.
  destruct (failed_mark_after_append srid_of transform intersects mark_fails
              (λ _, sink_ok) rg world_edge "t1.geojson" None)
    as (Hraise & Hdir & _ & _ & Hlg & _ & Hrows & Hagain).
  - apply in_candidates. vm_compute. reflexivity.
  - vm_compute. reflexivity.
  - reflexivity.
  - split_and!; [exact Hraise | exact Hdir | exact Hlg | | by apply Hagain].
    apply (Hrows [out_row on_the_edge; out_row on_the_edge]).
    + vm_compute. reflexivity.
    + apply sink_ok_io_ok.
Defined.

(** The next process then appends the two rows once more. *)
Lemma failed_mark_duplicates_rows_witness :
  let w1 := run (handle_io mark_fails (λ _, sink_ok) rg "t1.geojson")
              world_edge in
  let w2 := run (cycle (λ _, sink_ok) rg) (restart w1) in
  ∃ before after,
    w_master w2
    = Some ([out_row on_the_edge; out_row on_the_edge] ++ before
            ++ [out_row on_the_edge; out_row on_the_edge] ++ after).
Proof.
  apply (failed_mark_duplicates_rows srid_of transform intersects mark_fails
           (λ _, sink_ok) (λ _, sink_ok) rg world_edge "t1.geojson"
           [out_row on_the_edge; out_row on_the_edge]).
  - apply in_candidates. vm_compute. reflexivity.
  - vm_compute. reflexivity.
  - reflexivity.
  - vm_compute. reflexivity.
  - apply sink_ok_io_ok.
  - apply sinks_all_ok.
Defined.
